(** * ost_radio_tools: block-wise processing of recorded I/Q streams

    A shallow embedding of the seven command line programs of the
    repository (calculate_amplitude, calculate_power,
    calculate_amplitude_sum, calculate_power_spectrum,
    calculate_integrated_power_spectrum, calculate_spectrogram and
    rawreader), from the point where [samples_per_block] has been obtained
    by [atoi], and the properties of their block loops.

    Numbers are modelled as the C code has them: [int] and [size_t] as [Z]
    with the wrap-around written out, [float] and [double] as IEEE-754
    binary32 and binary64 values ([spec_float] with the operations of
    [SpecFloat], round to nearest even, each C operation rounded once in
    the type of its operands).  The functions of libm and FFTW are not
    part of the repository and enter as a record of functions.

    The block loops come first; the command line, the file names and the
    release of buffers and files follow.  Left out: the messages and the
    progress reports, and the decimal rendering by [fprintf]: a line of a
    text file is the pair of the values printed. *)

From Stdlib Require Import Ascii String.
From Stdlib Require Import ZArith List Bool Lia SpecFloat.
Import ListNotations.
Open Scope Z_scope.

(** ** Machine integers *)

Definition INT_MAX : Z := 2147483647.

(** Unsigned 64-bit wrap-around ([size_t] arithmetic). *)
Definition wrap64 (v : Z) : Z := v mod 2 ^ 64.

(** Conversion of an [int] to [size_t]. *)
Definition to_size_t (v : Z) : Z := wrap64 v.

(** Narrowing of a [size_t] to [int] (two's complement wrap). *)
Definition to_int (v : Z) : Z := (v + 2 ^ 31) mod 2 ^ 32 - 2 ^ 31.

(** The index values of [for (i = 0; i < n; i++)]. *)
Definition Zrange (n : Z) : list Z := map Z.of_nat (seq 0 (Z.to_nat n)).

(** ** IEEE-754 arithmetic *)

Module F32.
Definition prec : Z := 24.
Definition emax : Z := 128.
Definition zero : spec_float := S754_zero false.
Definition add := SFadd prec emax.
Definition sub := SFsub prec emax.
Definition mul := SFmul prec emax.
Definition div := SFdiv prec emax.
Definition sqrt := SFsqrt prec emax.
(** Conversion of an integer to [float]. *)
Definition of_Z (z : Z) : spec_float := binary_normalize prec emax z 0 false.
(** Rounding of a wider value to [float]. *)
Definition round (x : spec_float) : spec_float :=
  match x with
  | S754_finite s m e => binary_round prec emax s m e
  | _ => x
  end.
(** Literals of the sources: [0.5f], [1.0f], [10.0f], [1e-10f]. *)
Definition half : spec_float := S754_finite false 8388608 (-24).
Definition one : spec_float := S754_finite false 8388608 (-23).
Definition ten : spec_float := S754_finite false 10485760 (-20).
Definition eps : spec_float := S754_finite false 14411519 (-57).
End F32.

Module F64.
Definition prec : Z := 53.
Definition emax : Z := 1024.
Definition zero : spec_float := S754_zero false.
Definition add := SFadd prec emax.
Definition mul := SFmul prec emax.
Definition div := SFdiv prec emax.
Definition sqrt := SFsqrt prec emax.
Definition of_Z (z : Z) : spec_float := binary_normalize prec emax z 0 false.
(** Conversion of a [float] to [double]: every binary32 value is a
    binary64 value; only the mantissa is re-aligned. *)
Definition of_f32 (x : spec_float) : spec_float :=
  match x with
  | S754_finite s m e => binary_round prec emax s m e
  | _ => x
  end.
(** [M_PI], 3.14159265358979323846, and [2.0]. *)
Definition M_PI : spec_float := S754_finite false 7074237752028440 (-51).
Definition two : spec_float := S754_finite false 4503599627370496 (-51).
End F64.

(** ** Files and runs *)

(** A complex number as a pair (real, imaginary). *)
Definition complex : Type := (spec_float * spec_float)%type.

(** The functions the programs call in libm and FFTW.  A plan is made for
    a size [n]; executing it maps the input array to the output array. *)
Record externals := {
  cosf : spec_float -> spec_float;
  log10f : spec_float -> spec_float;
  (** [fftwf_plan_dft_1d (n, in, out, FFTW_FORWARD, _)], single precision *)
  fftwf_dft_1d : Z -> list complex -> list complex;
  (** [fftwf_plan_dft_c2r_1d (n, in, out, _)], single precision *)
  fftwf_dft_c2r_1d : Z -> list complex -> list spec_float;
  (** [fftw_plan_dft_1d (n, in, out, FFTW_FORWARD, _)], double precision *)
  fftw_dft_1d : Z -> list complex -> list complex
}.

(** What a run finds outside: the input file as the sequence of its
    float32 values ([None] when it cannot be opened; trailing bytes that do
    not make up a float never reach the programs and are left out), whether
    the output files can be opened, which allocations succeed and whether
    FFTW returns a plan. *)
Record world := {
  input : option (list spec_float);
  output_ok : bool;
  malloc_ok : Z -> bool;
  plan_ok : bool
}.

(** Operations on the input file, in program order. *)
Inductive in_op :=
| InOpen                      (* fopen *)
| InSize                      (* fseek to the end, ftell, rewind *)
| InRead (want got : Z).      (* fread: floats asked for and obtained *)

(** What is written to an output file. *)
Inductive item :=
| Float32 (x : spec_float)            (* fwrite of one float *)
| IntHeader (v : Z)                   (* fwrite of sizeof(int) bytes *)
| Line (idx : Z) (x : spec_float).    (* fprintf of an index and a value *)

Inductive status :=
| Exit (code : Z)
| Crash        (* integer division by zero, or use of a null pointer *)
| Undefined.   (* an [int] overflows: C gives the run no meaning from there
                  (a build without optimisation wraps the value and goes
                  on) *)

(** How the block loop was left. *)
Inductive loop_end :=
| ShortRead       (* fread returned fewer items than asked: loop exit *)
| CountReached    (* the for-loop counter reached number_of_blocks *)
| ReadError       (* fread failed inside the counted loop: return 1 *)
| Overflow.       (* the [int] counter held INT_MAX and blocks were left *)

Record run := {
  result : status;
  num_blocks : Z;                 (* blocks processed *)
  f32_file : list item;           (* binary output file *)
  dat_file : list item;           (* text output file *)
  in_ops : list in_op;
  left_by : option loop_end       (* [None]: the loop was not reached *)
}.

(** A run that stops before its block loop. *)
Definition stop (st : status) (f32 : list item) (ops : list in_op) : run :=
  {| result := st; num_blocks := 0; f32_file := f32; dat_file := [];
     in_ops := ops; left_by := None |}.

(** [fread (buf, sizeof(float), want, fp)]: the floats obtained and the
    rest of the file. *)
Definition fread (want : Z) (s : list spec_float)
  : list spec_float * list spec_float :=
  (firstn (Z.to_nat want) s, skipn (Z.to_nat want) s).

Definition at_index (l : list spec_float) (i : Z) : spec_float :=
  nth (Z.to_nat i) l F32.zero.

(** *** The loop [while (fread (buf, 4, want, in) == want) { body }]

    also written [while (1) { read = fread (...); if (read != want) break;
    body }].  The state [St] holds what the body updates.  The C loop does
    not terminate when [want] is 0; the model then runs out of fuel. *)
Section ReadLoop.
Variable St : Type.
Variable body : St -> list spec_float -> St.

Fixpoint read_loop (fuel : nat) (want : Z) (s : list spec_float)
         (st : St) (n : Z) (ops : list in_op)
  : option (St * Z * list in_op) :=
  match fuel with
  | O => None
  | S fuel' =>
      let '(block, rest) := fread want s in
      let got := Z.of_nat (length block) in
      if got =? want
      then read_loop fuel' want rest (body st block) (n + 1)
                     (ops ++ [InRead want got])
      else Some (st, n, ops ++ [InRead want got])
  end.
End ReadLoop.
Arguments read_loop {St} body fuel want s st n ops.

(** *** The loop [for (b = 0; b < number_of_blocks; b++)
        { if (fread (buf, 4 * want, 1, in) != 1) return 1; body }]

    of calculate_amplitude_sum.c and calculate_power_spectrum.c.  The
    counter [b] is an [int], compared with the [long] number of blocks
    ([count] is what is left of it): when [b] holds [INT_MAX] at the end
    of a block, [b++] overflows. *)
Section CountedLoop.
Variable St : Type.
Variable body : St -> Z -> list spec_float -> St.

Fixpoint counted_loop (count : nat) (want : Z) (s : list spec_float)
         (st : St) (current_block : Z) (ops : list in_op)
  : St * Z * list in_op * loop_end :=
  match count with
  | O => (st, current_block, ops, CountReached)
  | S count' =>
      let '(block, rest) := fread want s in
      let got := Z.of_nat (length block) in
      if got =? want
      then
        let st' := body st current_block block in
        if current_block =? INT_MAX
        then (st', current_block + 1, ops ++ [InRead want got], Overflow)
        else counted_loop count' want rest st' (current_block + 1)
                          (ops ++ [InRead want got])
      else (st, current_block, ops ++ [InRead want got], ReadError)
  end.
End CountedLoop.

(** How a run that went through the counted loop ends. *)
Definition result_of (e : loop_end) : status :=
  match e with
  | ReadError => Exit 1
  | Overflow => Undefined
  | CountReached | ShortRead => Exit 0
  end.

(** The buffer indices [i * 2] and [i * 2 + 1] of the counted programs are
    computed in [int], for [i] below [samples_per_block]: they pass
    [INT_MAX] in a block of more than 2^30 samples. *)
Definition index_overflows (samples_per_block : Z) : bool :=
  2 ^ 30 <? samples_per_block.
Arguments counted_loop {St} body count want s st current_block ops.

(** [total_file_size / sizeof(float) / samples_per_block / 2], computed in
    [size_t] because of [sizeof]; [None] when it divides by zero. *)
Definition number_of_blocks (s : list spec_float) (samples_per_block : Z)
  : option Z :=
  let total_file_size := 4 * Z.of_nat (length s) in
  if to_size_t samples_per_block =? 0 then None
  else Some (total_file_size / 4 / to_size_t samples_per_block / 2).

(** The [k]-th complete block of [want] floats of a file. *)
Definition nth_block (want : Z) (s : list spec_float) (k : nat)
  : list spec_float :=
  firstn (Z.to_nat want) (skipn (k * Z.to_nat want) s).

(** The complete blocks of a file, in order. *)
Definition complete_blocks (want : Z) (s : list spec_float)
  : list (list spec_float) :=
  map (nth_block want s) (seq 0 (length s / Z.to_nat want)).

(** ** calculate_amplitude.c *)

Module Amplitude.
(** [sqrtf (in_phase * in_phase + quadrature * quadrature)] for sample
    [i] of the block buffer. *)
Definition amplitude (block : list spec_float) (i : Z) : spec_float :=
  let in_phase := at_index block (i * 2) in
  let quadrature := at_index block (i * 2 + 1) in
  F32.sqrt (F32.add (F32.mul in_phase in_phase)
                    (F32.mul quadrature quadrature)).

(** The body of the block loop: one [fwrite] per sample. *)
Definition body (samples_per_block : Z) (out : list item)
           (block : list spec_float) : list item :=
  out ++ map (fun i => Float32 (amplitude block i))
             (Zrange samples_per_block).

Definition main (w : world) (arg : Z) : option run :=
  let samples_per_block := to_size_t arg in
  if samples_per_block <? 2 then Some (stop (Exit 1) [] [])
  else
    match input w with
    | None => Some (stop (Exit 1) [] [InOpen])
    | Some s =>
        if negb (output_ok w) then Some (stop (Exit 1) [] [InOpen])
        else if negb (malloc_ok w (wrap64 (samples_per_block * 2 * 4)))
        then Some (stop (Exit 1) [] [InOpen])
        else
          match read_loop (body samples_per_block) (S (length s))
                          (wrap64 (samples_per_block * 2)) s [] 0 [InOpen]
          with
          | None => None
          | Some (out, n, ops) =>
              Some {| result := Exit 0; num_blocks := n; f32_file := out;
                      dat_file := []; in_ops := ops;
                      left_by := Some ShortRead |}
          end
    end.
End Amplitude.

(** ** calculate_power.c *)

Module Power.
Inductive OutputType := OUTPUT_SUM | OUTPUT_RAW | OUTPUT_BOTH.

Definition writes_raw (t : OutputType) : bool :=
  match t with OUTPUT_SUM => false | _ => true end.
Definition writes_sum (t : OutputType) : bool :=
  match t with OUTPUT_RAW => false | _ => true end.

(** [i_val * i_val + q_val * q_val] for sample [i] of the buffer. *)
Definition power (buffer : list spec_float) (i : Z) : spec_float :=
  let i_val := at_index buffer (2 * i) in
  let q_val := at_index buffer (2 * i + 1) in
  F32.add (F32.mul i_val i_val) (F32.mul q_val q_val).

(** The inner loop over the samples of one block: the raw values written
    and [block_sum]. *)
Definition sample_step (t : OutputType) (buffer : list spec_float)
           (acc : list item * spec_float) (i : Z)
  : list item * spec_float :=
  let p := power buffer i in
  (if writes_raw t then fst acc ++ [Float32 p] else fst acc,
   if writes_sum t then F32.add (snd acc) p else snd acc).

Record state := {
  outfile : list item;
  sumfile : list item;
  blocks : Z
}.

Definition body (t : OutputType) (samples_per_block : Z) (st : state)
           (buffer : list spec_float) : state :=
  let '(raw, block_sum) :=
    fold_left (sample_step t buffer) (Zrange samples_per_block)
              ([], F32.zero) in
  {| outfile := outfile st ++ raw;
     sumfile := if writes_sum t
                then sumfile st ++ [Line (blocks st) block_sum]
                else sumfile st;
     blocks := blocks st + 1 |}.

Definition main (w : world) (t : OutputType) (arg : Z) : option run :=
  match input w with
  | None => Some (stop (Exit 1) [] [InOpen])
  | Some s =>
      let samples_per_block := to_size_t arg in
      if samples_per_block =? 0 then Some (stop (Exit 1) [] [InOpen])
      else if negb (malloc_ok w (wrap64 (2 * samples_per_block * 4)))
      then Some (stop (Exit 1) [] [InOpen])
      else if negb (output_ok w) then Some (stop (Exit 1) [] [InOpen])
      else
        match read_loop (body t samples_per_block) (S (length s))
                        (wrap64 (2 * samples_per_block)) s
                        {| outfile := []; sumfile := []; blocks := 0 |}
                        0 [InOpen]
        with
        | None => None
        | Some (st, n, ops) =>
            Some {| result := Exit 0; num_blocks := n;
                    f32_file := outfile st; dat_file := sumfile st;
                    in_ops := ops; left_by := Some ShortRead |}
        end
  end.
End Power.


(** ** calculate_amplitude_sum.c *)

Module AmplitudeSum.
(** The inner loop: [block_amplitude_sum += sqrt (in_phase * in_phase +
    quadrature * quadrature)], the argument computed in [float], the root
    and the sum in [double].  The indices are [int] products; [main] takes
    the inner loop only for block sizes that keep them within [int]. *)
Definition sample_step (sample_buffer : list spec_float)
           (block_amplitude_sum : spec_float) (sample_index : Z)
  : spec_float :=
  let in_phase := at_index sample_buffer (sample_index * 2 + 0) in
  let quadrature := at_index sample_buffer (sample_index * 2 + 1) in
  F64.add block_amplitude_sum
          (F64.sqrt (F64.of_f32 (F32.add (F32.mul in_phase in_phase)
                                         (F32.mul quadrature quadrature)))).

Definition body (samples_per_block : Z) (out : list item)
           (current_block : Z) (sample_buffer : list spec_float)
  : list item :=
  let block_amplitude_sum :=
    fold_left (sample_step sample_buffer) (Zrange samples_per_block)
              F64.zero in
  out ++ [Line current_block
               (F64.div block_amplitude_sum (F64.of_Z samples_per_block))].

Definition main (w : world) (arg : Z) : run :=
  let samples_per_block := arg in
  if negb (malloc_ok w (wrap64 (4 * samples_per_block * 2)))
  then stop (Exit 1) [] []
  else
    match input w with
    | None => stop (Exit 1) [] [InOpen]
    | Some s =>
        match number_of_blocks s samples_per_block with
        | None => stop Crash [] [InOpen; InSize]
        | Some nblocks =>
            if negb (output_ok w) then stop (Exit 1) [] [InOpen; InSize]
            else if index_overflows samples_per_block && (0 <? nblocks)
            then
              (* [sample_index * 2] overflows in the first block, before
                 its line is printed *)
              let want := wrap64 (4 * samples_per_block * 2) / 4 in
              stop Undefined [] [InOpen; InSize; InRead want want]
            else
              let '(out, n, ops, e) :=
                counted_loop (body samples_per_block) (Z.to_nat nblocks)
                             (wrap64 (4 * samples_per_block * 2) / 4) s
                             [] 0 [InOpen; InSize] in
              {| result := result_of e;
                 num_blocks := n; f32_file := []; dat_file := out;
                 in_ops := ops; left_by := Some e |}
        end
    end.
End AmplitudeSum.

(** ** calculate_power_spectrum.c *)

Module PowerSpectrum.
(** [fft_input[i] = (sample_buffer[i * 2], sample_buffer[i * 2 + 1])],
    converted to [double].  The indices are [int] products; [main] takes
    this loop only for block sizes that keep them within [int]. *)
Definition fft_input (samples_per_block : Z)
           (sample_buffer : list spec_float) : list complex :=
  map (fun i => (F64.of_f32 (at_index sample_buffer (i * 2)),
                 F64.of_f32 (at_index sample_buffer (i * 2 + 1))))
      (Zrange samples_per_block).

(** [power = re * re + im * im] in [double], stored in a [float]. *)
Definition power (fft_output : list complex) (i : Z) : spec_float :=
  let '(re, im) := nth (Z.to_nat i) fft_output (F64.zero, F64.zero) in
  F32.round (F64.add (F64.mul re re) (F64.mul im im)).

Definition body (X : externals) (samples_per_block : Z) (out : list item)
           (current_block : Z) (sample_buffer : list spec_float)
  : list item :=
  let fft_output :=
    fftw_dft_1d X samples_per_block
                (fft_input samples_per_block sample_buffer) in
  out ++ map (fun i => Float32 (power fft_output i))
             (Zrange samples_per_block).

Definition main (X : externals) (w : world) (arg : Z) : run :=
  let samples_per_block := arg in
  if negb (malloc_ok w (wrap64 (4 * samples_per_block * 2)))
  then stop (Exit 1) [] []
  else if negb (malloc_ok w (wrap64 (16 * samples_per_block)))
  then stop (Exit 1) [] []
  else
    match input w with
    | None => stop (Exit 1) [] [InOpen]
    | Some s =>
        match number_of_blocks s samples_per_block with
        | None => stop Crash [] [InOpen; InSize]
        | Some nblocks =>
            if negb (output_ok w) then stop (Exit 1) [] [InOpen; InSize]
            else if index_overflows samples_per_block && (0 <? nblocks)
            then
              (* [i * 2] overflows while the first block is copied to
                 fft_input, before the transform *)
              let want := wrap64 (4 * samples_per_block * 2) / 4 in
              stop Undefined [] [InOpen; InSize; InRead want want]
            else if negb (plan_ok w) && (0 <? nblocks)
            then
              (* fftw_execute on a null plan, after the first fread *)
              let want := wrap64 (4 * samples_per_block * 2) / 4 in
              stop Crash [] [InOpen; InSize; InRead want want]
            else
              let '(out, n, ops, e) :=
                counted_loop (body X samples_per_block) (Z.to_nat nblocks)
                             (wrap64 (4 * samples_per_block * 2) / 4) s
                             [] 0 [InOpen; InSize] in
              {| result := result_of e;
                 num_blocks := n; f32_file := out; dat_file := [];
                 in_ops := ops; left_by := Some e |}
        end
    end.
End PowerSpectrum.


(** ** rawreader.c *)

Module Rawreader.
(** [total += sqrt (v0 * v0 + v1 * v1)].  The indices are [int]
    products; [main] takes the inner loop only for block sizes that keep
    them within [int]. *)
Definition sample_step (temp : list spec_float) (total : spec_float)
           (i : Z) : spec_float :=
  let v0 := at_index temp (i * 2 + 0) in
  let v1 := at_index temp (i * 2 + 1) in
  F64.add total
          (F64.sqrt (F64.of_f32 (F32.add (F32.mul v0 v0) (F32.mul v1 v1)))).

(** The result of [fread] is not looked at: what was read overwrites the
    start of [temp] and the rest of [temp] stays.  The counter [blk] (the
    [int s] of the source) is compared with the [long size], of which
    [count] is what is left: when it holds [INT_MAX] at the end of a
    block, [s++] overflows. *)
Fixpoint loop (count : nat) (samples : Z) (s temp : list spec_float)
         (dump : list item) (blk : Z) (ops : list in_op)
  : list item * Z * list in_op * loop_end :=
  match count with
  | O => (dump, blk, ops, CountReached)
  | S count' =>
      let want := wrap64 (4 * samples * 2) / 4 in
      let '(block, rest) := fread want s in
      let temp' := block ++ skipn (length block) temp in
      let total := fold_left (sample_step temp') (Zrange samples) F64.zero in
      let dump' := dump ++ [Line blk (F64.div total (F64.of_Z samples))] in
      let ops' := ops ++ [InRead want (Z.of_nat (length block))] in
      if blk =? INT_MAX then (dump', blk + 1, ops', Overflow)
      else loop count' samples rest temp' dump' (blk + 1) ops'
  end.

Definition main (w : world) (arg : Z) : run :=
  let samples := arg in
  match input w with
  | None => stop Crash [] [InOpen]
  | Some s =>
      match number_of_blocks s samples with
      | None => stop Crash [] [InOpen; InSize]
      | Some size =>
          if negb (output_ok w) then stop Crash [] [InOpen; InSize]
          else if negb (malloc_ok w (wrap64 (4 * samples * 2))) && (0 <? size)
          then stop Crash [] [InOpen; InSize]
          else if index_overflows samples && (0 <? size)
          then
            (* [i * 2] overflows in the first block, before its line is
               printed *)
            let want := wrap64 (4 * samples * 2) / 4 in
            stop Undefined [] [InOpen; InSize; InRead want want]
          else
            let '(dump, n, ops, e) :=
              loop (Z.to_nat size) samples s [] [] 0 [InOpen; InSize] in
            {| result := result_of e; num_blocks := n; f32_file := [];
               dat_file := dump; in_ops := ops; left_by := Some e |}
      end
  end.
End Rawreader.

(** ** calculate_integrated_power_spectrum.c *)

Module Integrated.
(** [config->in[i] = iq_data[2*i] + I * iq_data[2*i + 1]]: the product of
    the float with [I] = (0, 1) is taken part by part, then the real float
    is added to the real part. *)
Definition fill_in (samples_per_block : Z) (iq_data : list spec_float)
  : list complex :=
  map (fun i =>
         let q := at_index iq_data (2 * i + 1) in
         (F32.add (at_index iq_data (2 * i)) (F32.mul F32.zero q),
          F32.mul F32.one q))
      (Zrange samples_per_block).

(** The second loop of [process_block]: [power = out[i] * out[i];
    power_spectrum[i] += power], all in [float]. *)
Definition accumulate (samples_per_block : Z)
           (out power_spectrum : list spec_float) : list spec_float :=
  map (fun i =>
         let power := F32.mul (at_index out i) (at_index out i) in
         F32.add (at_index power_spectrum i) power)
      (Zrange samples_per_block).

Definition process_block (X : externals) (samples_per_block : Z)
           (power_spectrum iq_data : list spec_float) : list spec_float :=
  let out :=
    fftwf_dft_c2r_1d X samples_per_block
                     (fill_in samples_per_block iq_data) in
  accumulate samples_per_block out power_spectrum.

(** [if (total_blocks > 0) power_spectrum[i] /= total_blocks], the count
    converted to [float]. *)
Definition average (samples_per_block total_blocks : Z)
           (power_spectrum : list spec_float) : list spec_float :=
  if 0 <? total_blocks
  then map (fun i => F32.div (at_index power_spectrum i)
                             (F32.of_Z total_blocks))
           (Zrange samples_per_block)
  else power_spectrum.

(** [calloc (samples_per_block, sizeof(float))]. *)
Definition calloc (samples_per_block : Z) : list spec_float :=
  map (fun _ => F32.zero) (Zrange samples_per_block).

(** [fprintf (out_fp, "%d %e\n", i, power_spectrum[i])] for every bin. *)
Definition save (samples_per_block : Z) (power_spectrum : list spec_float)
  : list item :=
  map (fun i => Line i (at_index power_spectrum i))
      (Zrange samples_per_block).

Definition main (X : externals) (w : world) (arg : Z) : option run :=
  let samples_per_block := arg in
  if samples_per_block <=? 0 then Some (stop (Exit 1) [] [])
  else if negb (malloc_ok w (wrap64 (8 * samples_per_block))
                && malloc_ok w (wrap64 (4 * samples_per_block)))
  then Some (stop (Exit 1) [] [])
  else if negb (plan_ok w) then Some (stop (Exit 1) [] [])
  else if negb (malloc_ok w (wrap64 (to_int (2 * samples_per_block) * 4))
                && malloc_ok w (wrap64 (samples_per_block * 4)))
  then Some (stop (Exit 1) [] [])
  else
    match input w with
    | None => Some (stop (Exit 1) [] [InOpen])
    | Some s =>
        let samples_to_read := wrap64 (2 * to_size_t samples_per_block) in
        match read_loop (process_block X samples_per_block) (S (length s))
                        samples_to_read s (calloc samples_per_block)
                        0 [InOpen]
        with
        | None => None
        | Some (power_spectrum, total_blocks, ops) =>
            let power_spectrum :=
              average samples_per_block total_blocks power_spectrum in
            Some
              {| result := if output_ok w then Exit 0 else Exit 1;
                 num_blocks := total_blocks; f32_file := [];
                 dat_file := if output_ok w
                             then save samples_per_block power_spectrum
                             else [];
                 in_ops := ops; left_by := Some ShortRead |}
        end
    end.
End Integrated.


(** ** calculate_spectrogram.c *)

Module Spectrogram.
(** The argument of [cosf] in [init_fftw]: [2.0f * M_PI * i / (n - 1)] is
    computed in [double] ([M_PI] is a [double] constant) and converted to
    [float] at the call. *)
Definition window_angle (n i : Z) : spec_float :=
  F32.round (F64.div (F64.mul (F64.mul F64.two F64.M_PI) (F64.of_Z i))
                     (F64.of_Z (n - 1))).

(** [window[i] = 0.5f * (1.0f - cosf (2.0f * M_PI * i / (n - 1)))]. *)
Definition window_at (X : externals) (n i : Z) : spec_float :=
  F32.mul F32.half (F32.sub F32.one (cosf X (window_angle n i))).

(** The Hanning window made once by [init_fftw]. *)
Definition make_window (X : externals) (n : Z) : list spec_float :=
  map (window_at X n) (Zrange n).

(** [data->in[i] = block[i] * data->window[i]], a real value stored in a
    complex cell. *)
Definition fill_in (window block : list spec_float) (n : Z) : list complex :=
  map (fun i => (F32.mul (at_index block i) (at_index window i), F32.zero))
      (Zrange n).

(** One cell of the second loop of [process_block]. *)
Definition db_at (X : externals) (out : list complex) (i : Z) : spec_float :=
  let '(real, imag) := nth (Z.to_nat i) out (F32.zero, F32.zero) in
  let power := F32.add (F32.mul real real) (F32.mul imag imag) in
  F32.mul F32.ten (log10f X (F32.add power F32.eps)).

(** [process_block]: the values written, [n/2 + 1] of them ([n] is an
    [int]; the division truncates). *)
Definition process_block (X : externals) (window block : list spec_float)
           (n : Z) : list spec_float :=
  let out := fftwf_dft_1d X n (fill_in window block n) in
  map (db_at X out) (Zrange (Z.quot n 2 + 1)).

Definition body (X : externals) (window : list spec_float) (n : Z)
           (outfile : list item) (block : list spec_float) : list item :=
  outfile ++ map Float32 (process_block X window block n).

Definition main (X : externals) (w : world) (arg : Z) : option run :=
  let samples_per_block := to_size_t arg in
  if samples_per_block <? 2 then Some (stop (Exit 1) [] [])
  else
    match input w with
    | None => Some (stop (Exit 1) [] [InOpen])
    | Some s =>
        if negb (output_ok w) then Some (stop (Exit 1) [] [InOpen])
        else
          (* fwrite (&samples_per_block, sizeof(int), 1, outfile): the
             first four bytes of the size_t, its low half on a
             little-endian machine *)
          let header := [IntHeader (to_int samples_per_block)] in
          let n := to_int samples_per_block in
          if negb (malloc_ok w (wrap64 (8 * to_size_t n))
                   && malloc_ok w (wrap64 (to_size_t n * 4)))
          then Some (stop (Exit 1) header [InOpen])
          else if negb (plan_ok w) then Some (stop (Exit 1) header [InOpen])
          else
            let window := make_window X n in
            if negb (malloc_ok w (wrap64 (samples_per_block * 4)))
            then Some (stop (Exit 1) header [InOpen])
            else
              match read_loop (body X window n) (S (length s))
                              samples_per_block s header 0 [InOpen]
              with
              | None => None
              | Some (out, nb, ops) =>
                  Some {| result := Exit 0; num_blocks := nb;
                          f32_file := out; dat_file := [];
                          in_ops := ops; left_by := Some ShortRead |}
              end
    end.
End Spectrogram.


(** ** All modes *)

Inductive mode :=
| MAmplitude
| MPower (t : Power.OutputType)
| MAmplitudeSum
| MPowerSpectrum
| MIntegrated
| MSpectrogram
| MRawreader.     (* the older form of the amplitude-sum program *)

Definition run_mode (X : externals) (w : world) (m : mode) (arg : Z)
  : option run :=
  match m with
  | MAmplitude => Amplitude.main w arg
  | MPower t => Power.main w t arg
  | MAmplitudeSum => Some (AmplitudeSum.main w arg)
  | MPowerSpectrum => Some (PowerSpectrum.main X w arg)
  | MIntegrated => Integrated.main X w arg
  | MSpectrogram => Spectrogram.main X w arg
  | MRawreader => Some (Rawreader.main w arg)
  end.

(** A world in which the input file holds [s] and nothing fails. *)
Definition all_ok (w : world) (s : list spec_float) : Prop :=
  input w = Some s /\ output_ok w = true /\
  (forall bytes, malloc_ok w bytes = true) /\ plan_ok w = true.

Definition good_world (s : list spec_float) : world :=
  {| input := Some s; output_ok := true; malloc_ok := fun _ => true;
     plan_ok := true |}.

(** Stand-ins for libm and FFTW, to run the programs on examples: the
    transforms copy their input (the complex-to-real one keeps the real
    parts), [cosf] and [log10f] are constant. *)
Definition toy_externals : externals :=
  {| cosf := fun _ => F32.one;
     log10f := fun _ => F32.one;
     fftwf_dft_1d := fun _ l => l;
     fftwf_dft_c2r_1d := fun _ l => map fst l;
     fftw_dft_1d := fun _ l => l |}.

(** Small float32 values for examples. *)
Definition fl (z : Z) : spec_float := F32.of_Z z.

(** ** What the statements below speak of *)

(** The floats that a mode reads for one block. *)
Definition per_block (m : mode) (N : Z) : Z :=
  match m with
  | MSpectrogram => N
  | _ => 2 * N
  end.

(** The sizes within which the [int] arithmetic of a mode is defined.  The
    counted programs hold the block number in an [int] and index the
    buffer with [i * 2]; the integrated power spectrum program computes
    [2 * samples_per_block] and [2 * i] in [int].  The other programs count
    and index in [size_t]. *)
Definition within_int (m : mode) (N : Z) (s : list spec_float) : Prop :=
  match m with
  | MAmplitudeSum | MPowerSpectrum | MRawreader =>
      N <= 2 ^ 30 /\ Z.of_nat (length s) / (2 * N) <= INT_MAX
  | MIntegrated => N < 2 ^ 30
  | MAmplitude | MPower _ | MSpectrogram => True
  end.

(** The in-phase and quadrature values of sample [i] of block [k] of a
    file of interleaved pairs. *)
Definition in_phase_at (s : list spec_float) (N k i : Z) : spec_float :=
  at_index s (k * (2 * N) + 2 * i).
Definition quadrature_at (s : list spec_float) (N k i : Z) : spec_float :=
  at_index s (k * (2 * N) + 2 * i + 1).


(** The reads of the loop [while (fread (...) == want)] on a file [s]:
    one full read per complete block, then the short read. *)
Definition loop_ops (want : Z) (s : list spec_float) : list in_op :=
  repeat (InRead want want) (length s / Z.to_nat want)
  ++ [InRead want (Z.of_nat (length s mod Z.to_nat want))].

(** The floats obtained by the reads that filled their buffer, one entry
    per read. *)
Definition consumed (ops : list in_op) : list Z :=
  flat_map (fun o => match o with
                     | InRead want got => if got =? want then [got] else []
                     | _ => []
                     end) ops.

(** The run was ended by a read of fewer than [want] floats, after as many
    full reads as blocks were processed; it never asked for the size of
    the file and returns 0. *)
Definition ends_by_short_read (want : Z) (r : run) : Prop :=
  result r = Exit 0 /\ left_by r = Some ShortRead /\
  ~ In InSize (in_ops r) /\
  exists got, 0 <= got < want /\
    in_ops r = InOpen :: repeat (InRead want want) (Z.to_nat (num_blocks r))
                      ++ [InRead want got].

(** The run was ended by its block counter, which was bounded by the size
    of the file taken beforehand; every read was full. *)
Definition ends_by_count (want : Z) (s : list spec_float) (r : run) : Prop :=
  result r = Exit 0 /\ left_by r = Some CountReached /\
  num_blocks r = Z.of_nat (length s) / want /\
  in_ops r = [InOpen; InSize]
             ++ repeat (InRead want want) (Z.to_nat (num_blocks r)).

(** The statement that a short read of fewer than [2 * N] floats is what
    ends the loop of mode [m]. *)
Definition short_read_is_sole_exit (X : externals) (w : world) (m : mode)
           (N : Z) : Prop :=
  exists r, run_mode X w m N = Some r /\ ends_by_short_read (2 * N) r.

(** The run of mode [m] processes [k] blocks, consuming [per_block] floats
    for each, and returns 0. *)
Definition yields_blocks (X : externals) (w : world) (m : mode) (N : Z)
           (per_block k : Z) : Prop :=
  exists r, run_mode X w m N = Some r /\ result r = Exit 0 /\
            num_blocks r = k /\
            consumed (in_ops r) = repeat per_block (Z.to_nat k).

(** How the block loop of each mode is left on a file [s]. *)
Definition loop_exit_of (X : externals) (w : world) (m : mode) (N : Z)
           (s : list spec_float) : Prop :=
  exists r, run_mode X w m N = Some r /\
    match m with
    | MAmplitude | MPower _ | MIntegrated => ends_by_short_read (2 * N) r
    | MSpectrogram => ends_by_short_read N r
    | MAmplitudeSum | MPowerSpectrum | MRawreader => ends_by_count (2 * N) s r
    end.

(** The blocks each mode makes of a file of [k * 2 * N + r] floats. *)
Definition blocks_of_mode (X : externals) (w : world) (m : mode) (N k r : Z)
  : Prop :=
  match m with
  | MSpectrogram => yields_blocks X w m N N (2 * k + r / N)
  | _ => yields_blocks X w m N (2 * N) k
  end.

(** The square of the real transform output of a block at bin [i], as
    [process_block] of the integrated power spectrum computes it. *)
Definition bin_power (X : externals) (N : Z) (iq_data : list spec_float)
           (i : Z) : spec_float :=
  let out := fftwf_dft_c2r_1d X N (Integrated.fill_in N iq_data) in
  F32.mul (at_index out i) (at_index out i).

(** The float sum of the powers of the blocks at bin [i], taken in the
    order of the blocks from 0. *)
Definition summed_power (X : externals) (N : Z)
           (blocks : list (list spec_float)) (i : Z) : spec_float :=
  fold_left F32.add (map (fun b => bin_power X N b i) blocks) F32.zero.

(** Block [k] of the file [s] as the complex-to-real transform of the
    integrated power spectrum receives it, and the square of the real
    output at bin [i].  Sample [j] of the block enters as [I + i Q]: the
    product of [Q] with the imaginary unit (0, 1) is taken part by part
    and [I] is added to its real part, in [float]. *)
Definition block_as_complex (s : list spec_float) (N k : Z) : list complex :=
  map (fun j =>
         (F32.add (in_phase_at s N k j)
                  (F32.mul F32.zero (quadrature_at s N k j)),
          F32.mul F32.one (quadrature_at s N k j)))
      (Zrange N).

Definition squared_real_output (X : externals) (s : list spec_float)
           (N k i : Z) : spec_float :=
  let out := fftwf_dft_c2r_1d X N (block_as_complex s N k) in
  F32.mul (at_index out i) (at_index out i).

(** The accumulation as the specification words it: the accumulator holds
    [double] values and the power of the block, a [float], is added to it
    in [double]. *)
Definition accumulate_double (samples_per_block : Z)
           (out power_spectrum64 : list spec_float) : list spec_float :=
  map (fun i =>
         let power := F32.mul (at_index out i) (at_index out i) in
         F64.add (at_index power_spectrum64 i) (F64.of_f32 power))
      (Zrange samples_per_block).

(** The accumulator of the code agrees with the double accumulation. *)
Definition accumulates_in_double (samples_per_block : Z)
           (out power_spectrum : list spec_float) : Prop :=
  map F64.of_f32 (Integrated.accumulate samples_per_block out power_spectrum)
  = accumulate_double samples_per_block out (map F64.of_f32 power_spectrum).

(** The raw-power values of the samples of one block. *)
Definition block_powers (N : Z) (buffer : list spec_float) : list spec_float :=
  map (Power.power buffer) (Zrange N).

(** The lines of the summed-power file for blocks numbered from [k]. *)
Fixpoint sum_lines (N k : Z) (blocks : list (list spec_float)) : list item :=
  match blocks with
  | [] => []
  | b :: bs => Line k (fold_left F32.add (block_powers N b) F32.zero)
               :: sum_lines N (k + 1) bs
  end.

Definition float_of (it : item) : spec_float :=
  match it with
  | Float32 x => x
  | IntHeader _ => F32.zero
  | Line _ x => x
  end.

(** The [N] values that the raw-power file holds for block [k]. *)
Definition raw_block (N k : Z) (file : list item) : list spec_float :=
  map float_of (firstn (Z.to_nat N) (skipn (Z.to_nat k * Z.to_nat N) file)).

(** The squared magnitude [re * re + im * im] of a spectral line, in
    [float]. *)
Definition squared_magnitude (c : complex) : spec_float :=
  F32.add (F32.mul (fst c) (fst c)) (F32.mul (snd c) (snd c)).

(** Bin [i] of the forward transform of the windowed block: sample [j]
    of the block times weight [j] of the window, a real [float] in a
    complex cell. *)
Definition windowed_spectrum_at (X : externals) (window block : list spec_float)
           (n i : Z) : complex :=
  nth (Z.to_nat i)
      (fftwf_dft_1d X n
         (map (fun j => (F32.mul (at_index block j) (at_index window j),
                         F32.zero))
              (Zrange n)))
      (F32.zero, F32.zero).

(** The rows that the spectrogram program writes, one for each block. *)
Definition spectrogram_rows (X : externals) (N : Z)
           (blocks : list (list spec_float)) : list (list spec_float) :=
  map (fun b => Spectrogram.process_block X (Spectrogram.make_window X N) b N)
      blocks.

(** The statement that the binary output of the spectrogram program is
    made of rows of [N/2 + 1] floats, one for each block, and of nothing
    else. *)
Definition output_is_rows_only (X : externals) (w : world) (N : Z) : Prop :=
  exists r rows,
    Spectrogram.main X w N = Some r /\
    f32_file r = map Float32 (concat rows) /\
    Z.of_nat (length rows) = num_blocks r /\
    forall row, In row rows -> Z.of_nat (length row) = N / 2 + 1.






(** The [float] nearest to 2 pi, 6.2831854820251465. *)
Definition two_pi_f32 : spec_float := S754_finite false 13176795 (-21).

(** The angle [2 pi i / (N - 1)] of the window formula: the product and
    the quotient taken in binary64 with the [double] nearest to pi, the
    result rounded to binary32. *)
Definition hanning_angle (N i : Z) : spec_float :=
  F32.round (F64.div (F64.mul (F64.mul F64.two F64.M_PI) (F64.of_Z i))
                     (F64.of_Z (N - 1))).

(** Stand-ins that tell their arguments apart: [log10f] returns its
    argument, [cosf] is 1 at 0 and at the float nearest to 2 pi and 1/2
    elsewhere, the transforms reverse their input. *)
Definition echo_externals : externals :=
  {| cosf := fun x =>
               match x with
               | S754_zero _ => F32.one
               | _ => if SFeqb x two_pi_f32 then F32.one else F32.half
               end;
     log10f := fun x => x;
     fftwf_dft_1d := fun _ l => rev l;
     fftwf_dft_c2r_1d := fun _ l => map fst (rev l);
     fftw_dft_1d := fun _ l => rev l |}.

(** Tactics: rewrite with the facts of a world where nothing fails; settle
    bounds that mention [INT_MAX]. *)
Ltac use_world H :=
  destruct H as (Hin & Hout & Hmalloc & Hplan);
  repeat first [rewrite Hin | rewrite Hout | rewrite Hmalloc | rewrite Hplan];
  cbn [negb andb].

Ltac int_bounds := unfold INT_MAX in *; lia.

(** ** What the further statements speak of *)

(** The blocks of a file with their numbers, counted from [b]. *)
Fixpoint number_from (b : Z) (blocks : list (list spec_float))
  : list (Z * list spec_float) :=
  match blocks with
  | [] => []
  | blk :: rest => (b, blk) :: number_from (b + 1) rest
  end.

(** The amplitudes of the samples of one block. *)
Definition block_amplitudes (N : Z) (block : list spec_float)
  : list spec_float :=
  map (Amplitude.amplitude block) (Zrange N).

(** The mean amplitude of block [k] of the file [s]: for each sample the
    sum [I * I + Q * Q] is taken in [float], its root in [double]; the
    roots are added in [double] from 0 in sample order and the sum is
    divided by [N]. *)
Definition mean_root (s : list spec_float) (N k : Z) : spec_float :=
  F64.div
    (fold_left
       (fun total i =>
          F64.add total
            (F64.sqrt
               (F64.of_f32
                  (F32.add (F32.mul (in_phase_at s N k i) (in_phase_at s N k i))
                           (F32.mul (quadrature_at s N k i)
                                    (quadrature_at s N k i))))))
       (Zrange N) F64.zero)
    (F64.of_Z N).

(** Bin [i] of the forward transform of block [k] of the file [s], the
    samples taken as [double] complex values, and its power
    [re * re + im * im], computed in [double] and stored in a [float]. *)
Definition spectral_line (X : externals) (s : list spec_float) (N k i : Z)
  : complex :=
  nth (Z.to_nat i)
      (fftw_dft_1d X N
         (map (fun j => (F64.of_f32 (in_phase_at s N k j),
                         F64.of_f32 (quadrature_at s N k j)))
              (Zrange N)))
      (F64.zero, F64.zero).

Definition line_power (c : complex) : spec_float :=
  F32.round (F64.add (F64.mul (fst c) (fst c)) (F64.mul (snd c) (snd c))).

(** A zero of either sign. *)
Definition is_zero (x : spec_float) : Prop :=
  x = S754_zero false \/ x = S754_zero true.

(** The value that the amplitude-sum program and rawreader print for a
    block buffer: the [double] sum of the roots, divided by the block
    size. *)
Definition mean_amplitude (N : Z) (block : list spec_float) : spec_float :=
  F64.div (fold_left (AmplitudeSum.sample_step block) (Zrange N) F64.zero)
          (F64.of_Z N).

(** The lines of the amplitude-sum output for numbered blocks. *)
Definition amplitude_lines (N : Z) (numbered : list (Z * list spec_float))
  : list item :=
  map (fun p => Line (fst p) (mean_amplitude N (snd p))) numbered.

(** The values that the power-spectrum program writes for a block. *)
Definition spectrum_powers (X : externals) (N : Z) (block : list spec_float)
  : list spec_float :=
  map (PowerSpectrum.power
         (fftw_dft_1d X N (PowerSpectrum.fft_input N block)))
      (Zrange N).

(** ** The command line and the file names

    C strings are lists of characters, without the terminating NUL.  The
    functions of [string.h] and [stdlib.h] that the programs use are
    modelled after the C standard. *)

Definition cstring : Type := list ascii.

Module CString.
(** [strcmp (a, b) == 0]. *)
Fixpoint equal (a b : cstring) : bool :=
  match a, b with
  | [], [] => true
  | x :: a', y :: b' => Ascii.eqb x y && equal a' b'
  | _, _ => false
  end.

(** [strrchr (s, c)]: the part of [s] that starts at the last [c]. *)
Fixpoint strrchr (s : cstring) (c : ascii) : option cstring :=
  match s with
  | [] => None
  | x :: s' =>
      match strrchr s' c with
      | Some t => Some t
      | None => if Ascii.eqb x c then Some s else None
      end
  end.

Fixpoint starts_with (needle s : cstring) : bool :=
  match needle, s with
  | [], _ => true
  | x :: needle', y :: s' => Ascii.eqb x y && starts_with needle' s'
  | _ :: _, [] => false
  end.

(** [strstr (s, needle)]: the part of [s] that starts at the first
    occurrence of [needle]. *)
Fixpoint strstr (s needle : cstring) : option cstring :=
  if starts_with needle s then Some s
  else match s with
       | [] => None
       | _ :: s' => strstr s' needle
       end.

(** [strncpy (dst, s, n); dst[n] = 0]. *)
Definition strncpy (n : nat) (s : cstring) : cstring := firstn n s.

(** [snprintf (dst, size, ...)] of a text: at most [size - 1] characters
    are stored. *)
Definition snprintf (size : nat) (text : cstring) : cstring :=
  firstn (size - 1) text.

(** One call of [strtok] with the delimiter [d] on what is left of the
    string: the token and what is left after it, or [None] for a null
    token. *)
Fixpoint skip_delims (d : ascii) (s : cstring) : cstring :=
  match s with
  | c :: s' => if Ascii.eqb c d then skip_delims d s' else s
  | [] => []
  end.

Fixpoint token_end (d : ascii) (s : cstring) : cstring * cstring :=
  match s with
  | [] => ([], [])
  | c :: s' =>
      if Ascii.eqb c d then ([], s')
      else let '(t, r) := token_end d s' in (c :: t, r)
  end.

Definition strtok (d : ascii) (s : cstring) : option (cstring * cstring) :=
  match skip_delims d s with
  | [] => None
  | s' => Some (token_end d s')
  end.

(** [atoi]: white space, an optional sign, then decimal digits up to the
    first other character.  The C standard leaves the result undefined
    when the number does not fit an [int]; the model returns the number. *)
Definition isspace (c : ascii) : bool :=
  let n := Z.of_N (N_of_ascii c) in (n =? 32) || ((9 <=? n) && (n <=? 13)).

Definition digit_of (c : ascii) : option Z :=
  let n := Z.of_N (N_of_ascii c) in
  if (48 <=? n) && (n <=? 57) then Some (n - 48) else None.

Fixpoint digits_value (s : cstring) (acc : Z) : Z :=
  match s with
  | c :: s' =>
      match digit_of c with
      | Some d => digits_value s' (10 * acc + d)
      | None => acc
      end
  | [] => acc
  end.

Fixpoint skip_spaces (s : cstring) : cstring :=
  match s with
  | c :: s' => if isspace c then skip_spaces s' else s
  | [] => []
  end.

Definition atoi (s : cstring) : Z :=
  match skip_spaces s with
  | "-"%char :: t => - digits_value t 0
  | "+"%char :: t => digits_value t 0
  | t => digits_value t 0
  end.
End CString.

Module Cli.
Import CString.

Definition text (s : string) : cstring := list_ascii_of_string s.

(** [get_basename] of calculate_amplitude.c, calculate_power.c and
    calculate_spectrogram.c; the other programs write the same two lines
    in [main]. *)
Definition get_basename (path : cstring) : cstring :=
  match strrchr path "/"%char with
  | Some last_slash => tl last_slash
  | None => path
  end.

(** The loop [token = strtok (copy, "_"); while (token != NULL)
    { field_count++; if (field_count == 5) {...; break;}
      token = strtok (NULL, "_"); }]: the token met when [skip] fields
    have gone by, or [None] when the tokens run out before. *)
Fixpoint field_after (skip : nat) (s : cstring) : option cstring :=
  match strtok "_"%char s with
  | None => None
  | Some (token, rest) =>
      match skip with
      | O => Some token
      | S skip' => field_after skip' rest
      end
  end.

(** The block size that calculate_amplitude.c, calculate_spectrogram.c,
    calculate_amplitude_sum.c and calculate_power_spectrum.c take from the
    file name: the fifth field of the first 255 characters of the base
    name, through [atoi].  [None]: fewer than five fields, the programs
    print an error and return 1. *)
Definition samples_from_fields (input_file : cstring) : option Z :=
  let filename_copy := strncpy 255 (get_basename input_file) in
  option_map atoi (field_after 4 filename_copy).

(** The chain of four [strstr (.., "_")] of calculate_power.c and
    calculate_integrated_power_spectrum.c: [atoi] of what follows the
    fourth underscore of the base name; the variable keeps its initial 0
    when there are fewer. *)
Fixpoint after_underscores (n : nat) (s : cstring) : option cstring :=
  match n with
  | O => Some s
  | S n' =>
      match strstr s (text "_") with
      | Some samples_str => after_underscores n' (tl samples_str)
      | None => None
      end
  end.

Definition samples_from_underscores (input_file : cstring) : Z :=
  match after_underscores 4 (get_basename input_file) with
  | Some rest => atoi rest
  | None => 0
  end.

(** [parse_output_type] of calculate_power.c. *)
Definition parse_output_type (type_str : cstring) : Power.OutputType :=
  if equal type_str (text "sum") then Power.OUTPUT_SUM
  else if equal type_str (text "raw") then Power.OUTPUT_RAW
  else if equal type_str (text "both") then Power.OUTPUT_BOTH
  else Power.OUTPUT_SUM.

(** The search for [--output-type TYPE] in calculate_power.c, on the
    arguments after the program name: the first [--output-type] that has
    an argument after it is taken out with that argument. *)
Fixpoint take_output_type (args : list cstring)
  : option (Power.OutputType * list cstring) :=
  match args with
  | a :: ((type_str :: rest) as args') =>
      if equal a (text "--output-type")
      then Some (parse_output_type type_str, rest)
      else match take_output_type args' with
           | Some (t, l) => Some (t, a :: l)
           | None => None
           end
  | _ => None
  end.

(** The arguments of calculate_power.c after the search: the output type
    (sum when no option is found) and the arguments that stay. *)
Definition power_arguments (args : list cstring)
  : Power.OutputType * list cstring :=
  match take_output_type args with
  | Some p => p
  | None => (Power.OUTPUT_SUM, args)
  end.

(** The block size of calculate_power.c: the second argument when there
    is one, else the file name. *)
Definition power_block_size (input_file : cstring) (second : option cstring)
  : Z :=
  match second with
  | Some a => atoi a
  | None => samples_from_underscores input_file
  end.

(** The block size of calculate_integrated_power_spectrum.c: the file
    name first, the second argument only when the name gave nothing
    positive. *)
Definition integrated_block_size (input_file : cstring)
           (second : option cstring) : Z :=
  let samples_per_block := samples_from_underscores input_file in
  match second with
  | Some a => if samples_per_block <=? 0 then atoi a else samples_per_block
  | None => samples_per_block
  end.

(** The base name without [.raw], as calculate_amplitude.c,
    calculate_spectrogram.c, calculate_amplitude_sum.c and
    calculate_power_spectrum.c make it: the last dot is cut only when
    [.raw] follows it. *)
Definition without_raw (input_file : cstring) : cstring :=
  let copy := strncpy 255 (get_basename input_file) in
  match strrchr copy "."%char with
  | Some dot_position =>
      if equal dot_position (text ".raw")
      then firstn (length copy - length dot_position) copy
      else copy
  | None => copy
  end.

(** The base name without its extension, as calculate_power.c
    ([size] = 256) and calculate_integrated_power_spectrum.c
    ([size] = 512) make it in [base_noext[size]]: everything before the
    last dot, copied without a bound, or the first [size - 1] characters
    when there is no dot.  [None]: the copy writes past the buffer. *)
Definition without_extension (size : nat) (input_file : cstring)
  : option cstring :=
  let base := get_basename input_file in
  match strrchr base "."%char with
  | Some dot =>
      let n := (length base - length dot)%nat in
      if (n <? size)%nat then Some (firstn n base) else None
  | None => Some (strncpy (size - 1) base)
  end.

(** The output file names. *)
Definition amplitude_outfile (input_file : cstring) : option cstring :=
  let stem := without_raw input_file in
  let required_length :=
    (length (text "waterfall_") + length stem + length (text ".f32") + 1)%nat
  in
  if (512 <? required_length)%nat then None   (* Error: name too long *)
  else Some (snprintf 512 (text "waterfall_" ++ stem ++ text ".f32")).

Definition spectrogram_outfile (input_file : cstring) : option cstring :=
  let stem := without_raw input_file in
  let required_length :=
    (length (text "spectrogram_") + length stem + length (text ".f32") + 1)%nat
  in
  if (512 <? required_length)%nat then None
  else Some (snprintf 512 (text "spectrogram_" ++ stem ++ text ".f32")).

Definition amplitude_sum_outfile (input_file : cstring) : cstring :=
  snprintf 270 (text "amplitude_" ++ without_raw input_file ++ text ".dat").

Definition power_spectrum_outfile (input_file : cstring) : cstring :=
  snprintf 280
    (text "power_spectrum_" ++ without_raw input_file ++ text ".f32").

Definition power_outfile (ext : string) (input_file : cstring)
  : option cstring :=
  option_map (fun stem => snprintf 512 (text "power_" ++ stem ++ text ext))
             (without_extension 256 input_file).

Definition integrated_outfile (input_file : cstring) : option cstring :=
  option_map
    (fun stem =>
       snprintf 1024 (text "integrated_power_spectrum_" ++ stem ++ text ".dat"))
    (without_extension 512 input_file).

(** The programs from their arguments (those after the program name). *)
Definition usage : run := stop (Exit 1) [] [].

Definition amplitude (w : world) (args : list cstring) : option run :=
  match args with
  | [input_file] =>
      match samples_from_fields input_file with
      | Some v => Amplitude.main w v
      | None => Some (stop (Exit 1) [] [])
      end
  | [_; second] => Amplitude.main w (atoi second)
  | _ => Some usage
  end.

Definition spectrogram (X : externals) (w : world) (args : list cstring)
  : option run :=
  match args with
  | [input_file] =>
      match samples_from_fields input_file with
      | Some v => Spectrogram.main X w v
      | None => Some (stop (Exit 1) [] [])
      end
  | [_; second] => Spectrogram.main X w (atoi second)
  | _ => Some usage
  end.

Definition amplitude_sum (w : world) (args : list cstring) : run :=
  match args with
  | [input_file] =>
      match samples_from_fields input_file with
      | Some v => AmplitudeSum.main w v
      | None => stop (Exit 1) [] []
      end
  | [_; second] => AmplitudeSum.main w (atoi second)
  | _ => usage
  end.

Definition power_spectrum (X : externals) (w : world) (args : list cstring)
  : run :=
  match args with
  | [input_file] =>
      match samples_from_fields input_file with
      | Some v => PowerSpectrum.main X w v
      | None => stop (Exit 1) [] []
      end
  | [_; second] => PowerSpectrum.main X w (atoi second)
  | _ => usage
  end.

(** calculate_power.c reads [argv[1]] and, when the count of arguments
    left is above 2, [argv[2]]; when the option and its value were the
    only arguments, [argv[1]] is still the option itself. *)
Definition power (w : world) (args : list cstring) : option run :=
  match args with
  | [] => Some usage
  | _ =>
      let '(t, args') := power_arguments args in
      let input_file := hd (text "--output-type") args' in
      Power.main w t (power_block_size input_file (nth_error args' 1))
  end.

Definition integrated (X : externals) (w : world) (args : list cstring)
  : option run :=
  match args with
  | [] => Some usage
  | input_file :: rest =>
      Integrated.main X w (integrated_block_size input_file (hd_error rest))
  end.
End Cli.

(** The character of a decimal digit and the number that a list of
    digits writes. *)
Definition digit_char (d : Z) : ascii := ascii_of_N (Z.to_N (48 + d)).

Definition decimal (ds : list Z) : Z :=
  fold_left (fun acc d => 10 * acc + d) ds 0.

Definition numeral (ds : list Z) : cstring := map digit_char ds.

(** A field of a file name: not empty, without underscore or slash. *)
Definition plain_field (f : cstring) : Prop :=
  f <> [] /\ ~ In "_"%char f /\ ~ In "/"%char f.

(** What may follow the digits of the fifth field: nothing, or text that
    does not start with a digit and holds no slash. *)
Definition after_digits (tail : cstring) : Prop :=
  ~ In "/"%char tail /\
  match tail with
  | [] => True
  | c :: _ => CString.digit_of c = None
  end.

(** A base name of the form [f1_f2_f3_f4_<digits><tail>]. *)
Definition gqrx_name (f1 f2 f3 f4 : cstring) (ds : list Z) (tail : cstring)
  : cstring :=
  f1 ++ "_"%char :: f2 ++ "_"%char :: f3 ++ "_"%char :: f4
     ++ "_"%char :: numeral ds ++ tail.

(** The number of underscores of a name. *)
Definition underscores (s : cstring) : nat := count_occ ascii_dec s "_"%char.

(** ** Acquisition and release

    The buffers, plans and files that the integrated power spectrum and
    spectrogram programs acquire and release, in program order, for every
    outcome of the acquisitions. *)

Module Resources.
Inductive resource :=
| Config      (* the FFTConfig or fftw_data_t structure *)
| FftIn       (* the transform input array *)
| FftOut      (* the transform output array *)
| Window      (* the window array *)
| Plan        (* the FFTW plan *)
| Buffer      (* iq_data or block *)
| Spectrum    (* power_spectrum *)
| InFile
| OutFile.

Inductive op :=
| Get (r : resource)      (* malloc, fftwf_alloc_*, plan creation, fopen *)
| Put (r : resource).     (* free, fftwf_free, fftwf_destroy_plan, fclose *)

(** Which acquisitions succeed. *)
Definition oracle : Type := resource -> bool.

Definition same (a b : resource) : bool :=
  match a, b with
  | Config, Config | FftIn, FftIn | FftOut, FftOut | Window, Window
  | Plan, Plan | Buffer, Buffer | Spectrum, Spectrum
  | InFile, InFile | OutFile, OutFile => true
  | _, _ => false
  end.

Fixpoint take_out (r : resource) (held : list resource)
  : option (list resource) :=
  match held with
  | [] => None
  | x :: held' =>
      if same x r then Some held'
      else option_map (cons x) (take_out r held')
  end.

(** What is held after a sequence of operations; [None] when something
    is released that is not held. *)
Fixpoint held_after (ops : list op) (held : list resource)
  : option (list resource) :=
  match ops with
  | [] => Some held
  | Get r :: ops' => held_after ops' (r :: held)
  | Put r :: ops' =>
      match take_out r held with
      | Some held' => held_after ops' held'
      | None => None
      end
  end.

(** An acquisition that may fail, and [free] of a pointer that may be
    null. *)
Definition get (ok : oracle) (r : resource) : list op :=
  if ok r then [Get r] else [].
Definition put (ok : oracle) (r : resource) : list op :=
  if ok r then [Put r] else [].

(** [init_fft] of calculate_integrated_power_spectrum.c: whether it
    returns a configuration, and what it did. *)
Definition init_fft (ok : oracle) : bool * list op :=
  if negb (ok Config) then (false, [])
  else
    let allocs := [Get Config] ++ get ok FftIn ++ get ok FftOut in
    if negb (ok FftIn) || negb (ok FftOut)
    then (false, allocs ++ put ok FftIn ++ put ok FftOut ++ [Put Config])
    else if negb (ok Plan)
    then (false, allocs ++ [Put FftIn; Put FftOut; Put Config])
    else (true, allocs ++ [Get Plan]).

(** [cleanup_fft] of a configuration that is not null. *)
Definition cleanup_fft : list op :=
  [Put Plan; Put FftIn; Put FftOut; Put Config].

(** [main] of calculate_integrated_power_spectrum.c, for arguments that
    are accepted ([valid]) or not. *)
Definition integrated_main (ok : oracle) (valid : bool) : Z * list op :=
  if negb valid then (1, [])
  else
    let '(made, init) := init_fft ok in
    if negb made then (1, init)
    else
      let buffers := init ++ get ok Buffer ++ get ok Spectrum in
      if negb (ok Buffer) || negb (ok Spectrum)
      then (1, buffers ++ cleanup_fft ++ put ok Buffer ++ put ok Spectrum)
      else if negb (ok InFile)
      then (1, buffers ++ cleanup_fft ++ [Put Buffer; Put Spectrum])
      else
        let opened := buffers ++ [Get InFile] in
        if negb (ok OutFile)
        then (1, opened ++ cleanup_fft
                        ++ [Put Buffer; Put Spectrum; Put InFile])
        else (0, opened ++ [Get OutFile; Put InFile; Put OutFile]
                        ++ cleanup_fft ++ [Put Buffer; Put Spectrum]).

(** [init_fftw] of calculate_spectrogram.c. *)
Definition init_fftw (ok : oracle) : bool * list op :=
  if negb (ok Config) then (false, [])
  else
    let allocs :=
      [Get Config] ++ get ok FftIn ++ get ok FftOut ++ get ok Window in
    if negb (ok FftIn) || negb (ok FftOut) || negb (ok Window)
    then (false, allocs ++ [Put Config])
    else if negb (ok Plan)
    then (false, allocs ++ [Put FftIn; Put FftOut; Put Window; Put Config])
    else (true, allocs ++ [Get Plan]).

(** [free_fftw] of data that is not null. *)
Definition free_fftw : list op :=
  [Put Plan; Put FftIn; Put FftOut; Put Window; Put Config].

(** [main] of calculate_spectrogram.c, for arguments that are accepted
    or not and an output name that passes the length test
    ([name_fits]) or not. *)
Definition spectrogram_main (ok : oracle) (valid name_fits : bool)
  : Z * list op :=
  if negb valid then (1, [])
  else if negb (ok InFile) then (1, [])
  else if negb name_fits then (1, [Get InFile])
  else if negb (ok OutFile) then (1, [Get InFile; Put InFile])
  else
    let files := [Get InFile; Get OutFile] in
    let '(made, init) := init_fftw ok in
    if negb made then (1, files ++ init ++ [Put InFile; Put OutFile])
    else if negb (ok Buffer)
    then (1, files ++ init ++ free_fftw ++ [Put InFile; Put OutFile])
    else (0, files ++ init ++ [Get Buffer; Put Buffer] ++ free_fftw
                   ++ [Put InFile; Put OutFile]).

(** The arrays that [init_fftw] obtained. *)
Definition arrays_got (ok : oracle) : list resource :=
  (if ok Window then [Window] else [])
  ++ (if ok FftOut then [FftOut] else [])
  ++ (if ok FftIn then [FftIn] else []).
End Resources.

(** Whether the output name passed the length test of [main]. *)
Definition name_fits (name : option (list Ascii.ascii)) : bool :=
  match name with Some _ => true | None => false end.

(** Inputs for the examples: two blocks of two samples and one float
    more; a file name of the usual form. *)
Definition five_samples : list spec_float :=
  [fl 3; fl 4; fl 0; fl 0; fl 1; fl 2; fl 2; fl 0; fl 7].

Definition sun_name : cstring :=
  gqrx_name (Cli.text "gqrx") (Cli.text "20250404") (Cli.text "084805")
            (Cli.text "1419390700") [1; 8; 0; 0; 0; 0; 0]
            (Cli.text "_fc_sun.raw").

(** An outcome in which the window array cannot be allocated. *)
Definition no_window : Resources.oracle :=
  fun r => match r with Resources.Window => false | _ => true end.

(** * Properties *)

(** ** The literals of the sources *)

Example f32_eps_is_1e_10 :
  F32.div F32.one (F32.of_Z (10 ^ 10)) = F32.eps.
Proof. vm_compute. reflexivity. Qed.

Example f32_literals :
  F32.of_Z 1 = F32.one /\ F32.of_Z 10 = F32.ten /\
  F32.div F32.one (F32.of_Z 2) = F32.half /\
  F64.of_Z 2 = F64.two.
Proof. vm_compute. repeat split. Qed.


(** ** The block loops *)

Lemma all_ok_good_world s : all_ok (good_world s) s.
Proof. repeat split. Qed.

Lemma Zrange_length n : length (Zrange n) = Z.to_nat n.
Proof. unfold Zrange. now rewrite length_map, length_seq. Qed.

Lemma Zrange_nth n i d :
  0 <= i < n -> nth (Z.to_nat i) (Zrange n) d = i.
Proof.
  intros H. unfold Zrange.
  rewrite (nth_indep _ d (Z.of_nat 0)) by (rewrite length_map, length_seq; lia).
  rewrite map_nth, seq_nth by lia. lia.
Qed.

Lemma nth_map_Zrange (A : Type) (f : Z -> A) n i d :
  0 <= i < n -> nth (Z.to_nat i) (map f (Zrange n)) d = f i.
Proof.
  intros H.
  rewrite (nth_indep _ d (f 0)) by (rewrite length_map, Zrange_length; lia).
  now rewrite map_nth, Zrange_nth.
Qed.

Lemma complete_blocks_short want s :
  (length s < Z.to_nat want)%nat -> complete_blocks want s = [].
Proof.
  intros H. unfold complete_blocks. now rewrite Nat.div_small.
Qed.

Lemma complete_blocks_cons want s :
  (0 < Z.to_nat want <= length s)%nat ->
  complete_blocks want s =
  firstn (Z.to_nat want) s :: complete_blocks want (skipn (Z.to_nat want) s).
Proof.
  intros H. unfold complete_blocks. set (n := Z.to_nat want) in *.
  rewrite length_skipn.
  replace (length s / n)%nat with (S ((length s - n) / n)).
  2:{ replace (length s) with ((length s - n) + 1 * n)%nat at 2 by lia.
      rewrite Nat.div_add by lia. lia. }
  cbn [seq map]. f_equal.
  rewrite <- seq_shift, map_map. apply map_ext. intros k.
  unfold nth_block. fold n. rewrite skipn_skipn. do 2 f_equal. lia.
Qed.

Lemma complete_blocks_length want s :
  length (complete_blocks want s) = (length s / Z.to_nat want)%nat.
Proof. unfold complete_blocks. now rewrite length_map, length_seq. Qed.

Lemma complete_block_length want s blk :
  (0 < Z.to_nat want)%nat ->
  In blk (complete_blocks want s) -> length blk = Z.to_nat want.
Proof.
  intros Hw H. unfold complete_blocks in H. apply in_map_iff in H.
  destruct H as (k & <- & Hk). apply in_seq in Hk.
  unfold nth_block. rewrite length_firstn, length_skipn.
  assert (S k * Z.to_nat want <= length s)%nat; [|lia].
  transitivity ((length s / Z.to_nat want) * Z.to_nat want)%nat.
  - apply Nat.mul_le_mono_r. lia.
  - rewrite Nat.mul_comm. apply Nat.Div0.mul_div_le.
Qed.

(** The read loop processes the complete blocks in order and stops at the
    first short read, which obtains the floats that are left. *)
Lemma read_loop_spec (St : Type) (body : St -> list spec_float -> St)
      want fuel : forall s st n ops,
  0 < want -> (length s < fuel)%nat ->
  read_loop body fuel want s st n ops =
  Some (fold_left body (complete_blocks want s) st,
        n + Z.of_nat (length s / Z.to_nat want),
        ops ++ repeat (InRead want want) (length s / Z.to_nat want)
            ++ [InRead want (Z.of_nat (length s mod Z.to_nat want))]).
Proof.
  induction fuel as [|fuel IH]; intros s st n ops Hw Hf; [lia|].
  cbn [read_loop fread]. rewrite length_firstn.
  destruct (Nat.le_gt_cases (Z.to_nat want) (length s)) as [Hle|Hgt].
  - rewrite Nat.min_l by lia.
    replace (Z.of_nat (Z.to_nat want) =? want) with true
      by (symmetry; apply Z.eqb_eq; lia).
    rewrite IH by (rewrite ?length_skipn; lia).
    rewrite (complete_blocks_cons want s) by lia.
    rewrite length_skipn.
    assert (Hd : (length s / Z.to_nat want =
                  S ((length s - Z.to_nat want) / Z.to_nat want))%nat).
    { replace (length s) with ((length s - Z.to_nat want)
                               + 1 * Z.to_nat want)%nat at 1 by lia.
      rewrite Nat.div_add by lia. lia. }
    assert (Hm : ((length s - Z.to_nat want) mod Z.to_nat want =
                  length s mod Z.to_nat want)%nat).
    { replace (length s) with ((length s - Z.to_nat want)
                               + 1 * Z.to_nat want)%nat at 2 by lia.
      now rewrite Nat.Div0.mod_add. }
    rewrite Hd, Hm. cbn [fold_left repeat]. rewrite <- app_assoc.
    replace (Z.of_nat (Z.to_nat want)) with want by lia.
    do 3 f_equal. lia.
  - rewrite Nat.min_r by lia.
    replace (Z.of_nat (length s) =? want) with false
      by (symmetry; apply Z.eqb_neq; lia).
    rewrite complete_blocks_short, Nat.div_small, Nat.mod_small by lia.
    cbn. now rewrite Z.add_0_r.
Qed.

(** *** The counted loops *)

Lemma number_from_nth blocks : forall b k,
  (k < length blocks)%nat ->
  nth k (number_from b blocks) (0, []) = (b + Z.of_nat k, nth k blocks []).
Proof.
  induction blocks as [|x blocks IH]; intros b k Hk; [cbn in Hk; lia|].
  destruct k as [|k]; cbn [number_from nth].
  - now rewrite Z.add_0_r.
  - rewrite IH by (cbn in Hk; lia). f_equal. lia.
Qed.

Lemma number_from_length blocks : forall b,
  length (number_from b blocks) = length blocks.
Proof.
  induction blocks as [|x blocks IH]; intros b; [reflexivity|].
  cbn. now rewrite IH.
Qed.

Lemma map_snd_number_from (A : Type) (f : list spec_float -> A) blocks :
  forall b, map (fun p => f (snd p)) (number_from b blocks) = map f blocks.
Proof.
  induction blocks as [|x blocks IH]; intros b; [reflexivity|].
  cbn [number_from map snd]. now rewrite IH.
Qed.

Lemma firstn_complete_blocks want (s : list spec_float) :
  firstn (length s / Z.to_nat want) (complete_blocks want s)
  = complete_blocks want s.
Proof.
  apply firstn_all2. now rewrite complete_blocks_length.
Qed.

(** While the counter stays within [int], the counted loop processes
    [count] complete blocks in order, each with its number. *)
Lemma counted_loop_state (St : Type)
      (body : St -> Z -> list spec_float -> St) want count :
  forall s st b ops,
  0 < want -> (count * Z.to_nat want <= length s)%nat ->
  b + Z.of_nat count <= INT_MAX ->
  counted_loop body count want s st b ops =
  (fold_left (fun st p => body st (fst p) (snd p))
             (number_from b (firstn count (complete_blocks want s))) st,
   b + Z.of_nat count, ops ++ repeat (InRead want want) count, CountReached).
Proof.
  induction count as [|count IH]; intros s st b ops Hw Hc Hb.
  - cbn. now rewrite Z.add_0_r, app_nil_r.
  - cbn [counted_loop fread]. rewrite length_firstn, Nat.min_l by lia.
    replace (Z.of_nat (Z.to_nat want) =? want) with true
      by (symmetry; apply Z.eqb_eq; lia).
    replace (b =? INT_MAX) with false by (symmetry; apply Z.eqb_neq; lia).
    rewrite IH by (rewrite ?length_skipn; lia).
    rewrite (complete_blocks_cons want s) by lia.
    cbn [firstn number_from fold_left fst snd repeat].
    rewrite <- app_assoc. replace (Z.of_nat (Z.to_nat want)) with want by lia.
    do 3 f_equal. lia.
Qed.

(** A file of more blocks than an [int] counts: the loop stops being
    defined at the increment of [INT_MAX]. *)
Lemma counted_loop_overflow (St : Type)
      (body : St -> Z -> list spec_float -> St) want count s st ops :
  0 < want -> (0 < count)%nat -> (Z.to_nat want <= length s)%nat ->
  snd (counted_loop body count want s st INT_MAX ops) = Overflow.
Proof.
  intros Hw Hc Hs. destruct count as [|count]; [lia|].
  cbn [counted_loop fread]. rewrite length_firstn, Nat.min_l by lia.
  replace (Z.of_nat (Z.to_nat want) =? want) with true
    by (symmetry; apply Z.eqb_eq; lia).
  now rewrite Z.eqb_refl.
Qed.

Lemma rawreader_loop_state count : forall samples s temp dump blk ops,
  0 < wrap64 (4 * samples * 2) / 4 ->
  (count * Z.to_nat (wrap64 (4 * samples * 2) / 4) <= length s)%nat ->
  (length temp <= Z.to_nat (wrap64 (4 * samples * 2) / 4))%nat ->
  blk + Z.of_nat count <= INT_MAX ->
  Rawreader.loop count samples s temp dump blk ops =
  (dump ++ amplitude_lines samples
             (number_from blk
                (firstn count
                   (complete_blocks (wrap64 (4 * samples * 2) / 4) s))),
   blk + Z.of_nat count,
   ops ++ repeat (InRead (wrap64 (4 * samples * 2) / 4)
                         (wrap64 (4 * samples * 2) / 4)) count,
   CountReached).
Proof.
  induction count as [|count IH];
    intros samples s temp dump blk ops Hw Hc Ht Hb.
  - cbn. now rewrite Z.add_0_r, !app_nil_r.
  - cbn [Rawreader.loop fread].
    set (want := wrap64 (4 * samples * 2) / 4) in *.
    rewrite Nat.mul_succ_l in Hc.
    rewrite length_firstn, Nat.min_l by lia.
    replace (skipn (Z.to_nat want) temp) with (@nil spec_float)
      by (symmetry; apply skipn_all2; exact Ht).
    rewrite app_nil_r.
    replace (blk =? INT_MAX) with false by (symmetry; apply Z.eqb_neq; lia).
    rewrite IH; fold want;
      [| lia | rewrite length_skipn; lia
       | rewrite length_firstn, Nat.min_l; lia | lia].
    rewrite (complete_blocks_cons want s) by lia.
    cbn [firstn number_from amplitude_lines map fst snd repeat].
    rewrite <- !app_assoc. cbn [app].
    replace (Z.of_nat (Z.to_nat want)) with want by lia.
    now replace (blk + 1 + Z.of_nat count) with (blk + Z.of_nat (S count))
      by lia.
Qed.

(** Inside the counted loop a read that does not fill the buffer is an
    error. *)
Lemma counted_loop_short (St : Type) (body : St -> Z -> list spec_float -> St)
      want count s st b ops :
  (0 < count)%nat -> Z.of_nat (length s) < want ->
  counted_loop body count want s st b ops =
  (st, b, ops ++ [InRead want (Z.of_nat (length s))], ReadError).
Proof.
  intros Hc Hs. destruct count as [|count]; [lia|].
  cbn [counted_loop fread]. rewrite length_firstn, Nat.min_r by lia.
  now replace (Z.of_nat (length s) =? want) with false
    by (symmetry; apply Z.eqb_neq; lia).
Qed.

(** Integer facts of the block counts. *)
Lemma wrap64_small v : 0 <= v < 2 ^ 64 -> wrap64 v = v.
Proof. intros H. unfold wrap64. now apply Z.mod_small. Qed.

Lemma to_int_small v : 0 <= v <= INT_MAX -> to_int v = v.
Proof.
  unfold to_int, INT_MAX. intros H.
  rewrite Z.mod_small; lia.
Qed.

Lemma number_of_blocks_pos s N :
  1 <= N <= INT_MAX ->
  number_of_blocks s N = Some (Z.of_nat (length s) / (2 * N)).
Proof.
  unfold INT_MAX. intros H. unfold number_of_blocks, to_size_t.
  rewrite wrap64_small by lia.
  replace (N =? 0) with false by (symmetry; apply Z.eqb_neq; lia).
  f_equal. rewrite (Z.mul_comm 4), Z.div_mul by lia.
  rewrite Z.div_div by lia. f_equal. lia.
Qed.

Lemma div_to_nat a b :
  0 < b -> (Z.to_nat (Z.of_nat a / b) = a / Z.to_nat b)%nat.
Proof.
  intros H. rewrite <- (Z2Nat.id b) at 1 by lia.
  rewrite <- Nat2Z.inj_div. apply Nat2Z.id.
Qed.

Lemma div_of_nat a b :
  0 < b -> Z.of_nat (a / Z.to_nat b) = Z.of_nat a / b.
Proof.
  intros H. rewrite <- (Z2Nat.id b) at 2 by lia.
  now rewrite <- Nat2Z.inj_div.
Qed.

Lemma mod_of_nat a b :
  0 < b -> Z.of_nat (a mod Z.to_nat b) = Z.of_nat a mod b.
Proof.
  intros H. rewrite <- (Z2Nat.id b) at 2 by lia.
  now rewrite <- Nat2Z.inj_mod.
Qed.

(** Lists cut into pieces of one length. *)
Lemma chunk_of_concat (A : Type) n (ls : list (list A)) : forall k,
  (forall l, In l ls -> length l = n) -> (k < length ls)%nat ->
  firstn n (skipn (k * n) (concat ls)) = nth k ls [].
Proof.
  induction ls as [|l ls IH]; intros k Hn Hk; [cbn in Hk; lia|].
  assert (Hl : length l = n) by (apply Hn; now left).
  destruct k as [|k]; cbn [concat nth].
  - cbn [Nat.mul skipn]. rewrite firstn_app, <- Hl, firstn_all, Nat.sub_diag.
    cbn. apply app_nil_r.
  - replace (S k * n)%nat with (length l + k * n)%nat by lia.
    rewrite skipn_app, skipn_all2 by lia.
    replace (length l + k * n - length l)%nat with (k * n)%nat by lia.
    cbn [app]. apply IH; [|cbn in Hk; lia].
    intros l' Hl'. apply Hn. now right.
Qed.

Lemma nth_complete_block want (s : list spec_float) k i d :
  (k < length s / Z.to_nat want)%nat -> (i < Z.to_nat want)%nat ->
  nth i (nth k (complete_blocks want s) []) d
  = nth (k * Z.to_nat want + i) s d.
Proof.
  intros Hk Hi. unfold complete_blocks.
  rewrite (nth_indep _ [] (nth_block want s 0))
    by (now rewrite length_map, length_seq).
  rewrite map_nth, seq_nth by trivial. cbn [Nat.add]. unfold nth_block.
  rewrite nth_firstn.
  replace (i <? Z.to_nat want)%nat with true
    by (symmetry; now apply Nat.ltb_lt).
  apply nth_skipn.
Qed.

Lemma nth_concat_uniform (A : Type) n (ls : list (list A)) k i d :
  (forall l, In l ls -> length l = n) -> (k < length ls)%nat -> (i < n)%nat ->
  nth (k * n + i) (concat ls) d = nth i (nth k ls []) d.
Proof.
  intros Hn Hk Hi. rewrite <- (chunk_of_concat A n ls k Hn Hk).
  rewrite nth_firstn.
  replace (i <? n)%nat with true by (symmetry; now apply Nat.ltb_lt).
  now rewrite nth_skipn.
Qed.

Lemma at_complete_block N (s : list spec_float) k j :
  1 <= N -> 0 <= k < Z.of_nat (length s) / (2 * N) -> 0 <= j < 2 * N ->
  at_index (nth (Z.to_nat k) (complete_blocks (2 * N) s) []) j
  = at_index s (k * (2 * N) + j).
Proof.
  intros HN Hk Hj. unfold at_index.
  rewrite nth_complete_block.
  - f_equal. rewrite Z2Nat.inj_add, (Z2Nat.inj_mul k) by lia. reflexivity.
  - rewrite <- (div_to_nat (length s) (2 * N)) by lia. lia.
  - lia.
Qed.

Lemma length_concat_uniform (A : Type) n (ls : list (list A)) :
  (forall l, In l ls -> length l = n) ->
  length (concat ls) = (length ls * n)%nat.
Proof.
  induction ls as [|l ls IH]; intros Hn; [reflexivity|].
  cbn [concat length]. rewrite length_app, IH, (Hn l).
  - lia.
  - now left.
  - intros l' Hl'. apply Hn. now right.
Qed.

Lemma In_Zrange n i : In i (Zrange n) -> 0 <= i < n.
Proof.
  unfold Zrange. intros H. apply in_map_iff in H.
  destruct H as (k & <- & Hk). apply in_seq in Hk. lia.
Qed.

Lemma fold_left_ext_in (A B : Type) (f g : A -> B -> A) l : forall a,
  (forall a x, In x l -> f a x = g a x) -> fold_left f l a = fold_left g l a.
Proof.
  induction l as [|x l IH]; intros a H; [reflexivity|].
  cbn [fold_left]. rewrite (H a x) by now left.
  apply IH. intros a' y Hy. apply H. now right.
Qed.

(** The complete blocks of a file of interleaved pairs, by their
    numbers. *)
Lemma map_complete_blocks (A : Type) (f : list spec_float -> A) c
      (s : list spec_float) :
  0 < c ->
  map f (complete_blocks c s) =
  map (fun k => f (nth (Z.to_nat k) (complete_blocks c s) []))
      (Zrange (Z.of_nat (length s) / c)).
Proof.
  intros Hc. unfold Zrange. rewrite div_to_nat by lia.
  unfold complete_blocks at 1. rewrite !map_map.
  apply map_ext_in. intros j Hj. apply in_seq in Hj.
  rewrite Nat2Z.id. f_equal. unfold complete_blocks.
  rewrite (nth_indep _ [] (nth_block c s 0))
    by (rewrite length_map, length_seq; lia).
  now rewrite map_nth, seq_nth by lia.
Qed.

(** ** The runs of each program when nothing fails *)

Lemma amplitude_main_ok w N s :
  all_ok w s -> 2 <= N <= INT_MAX ->
  Amplitude.main w N =
  Some {| result := Exit 0;
          num_blocks := Z.of_nat (length s) / (2 * N);
          f32_file := fold_left (Amplitude.body N)
                                (complete_blocks (2 * N) s) [];
          dat_file := [];
          in_ops := InOpen :: loop_ops (2 * N) s;
          left_by := Some ShortRead |}.
Proof.
  intros Hw HN. unfold Amplitude.main, to_size_t.
  rewrite (wrap64_small N) by int_bounds.
  replace (N <? 2) with false by (symmetry; apply Z.ltb_ge; lia).
  use_world Hw.
  rewrite (wrap64_small (N * 2)) by int_bounds.
  replace (N * 2) with (2 * N) by lia.
  rewrite read_loop_spec by lia.
  rewrite div_of_nat by lia. reflexivity.
Qed.

Lemma power_main_ok w t N s :
  all_ok w s -> 1 <= N <= INT_MAX ->
  Power.main w t N =
  let st := fold_left (Power.body t N) (complete_blocks (2 * N) s)
                      {| Power.outfile := []; Power.sumfile := [];
                         Power.blocks := 0 |} in
  Some {| result := Exit 0;
          num_blocks := Z.of_nat (length s) / (2 * N);
          f32_file := Power.outfile st;
          dat_file := Power.sumfile st;
          in_ops := InOpen :: loop_ops (2 * N) s;
          left_by := Some ShortRead |}.
Proof.
  intros Hw HN. unfold Power.main, to_size_t.
  rewrite (wrap64_small N) by int_bounds.
  replace (N =? 0) with false by (symmetry; apply Z.eqb_neq; lia).
  use_world Hw.
  rewrite (wrap64_small (2 * N)) by int_bounds.
  rewrite read_loop_spec by lia.
  rewrite div_of_nat by lia. reflexivity.
Qed.

Lemma integrated_main_ok X w N s :
  all_ok w s -> 1 <= N <= INT_MAX ->
  Integrated.main X w N =
  let B := Z.of_nat (length s) / (2 * N) in
  let power_spectrum :=
    fold_left (Integrated.process_block X N) (complete_blocks (2 * N) s)
              (Integrated.calloc N) in
  Some {| result := Exit 0;
          num_blocks := B;
          f32_file := [];
          dat_file := Integrated.save N (Integrated.average N B power_spectrum);
          in_ops := InOpen :: loop_ops (2 * N) s;
          left_by := Some ShortRead |}.
Proof.
  intros Hw HN. unfold Integrated.main, to_size_t.
  replace (N <=? 0) with false by (symmetry; apply Z.leb_gt; lia).
  use_world Hw.
  rewrite (wrap64_small N), (wrap64_small (2 * N)) by int_bounds.
  rewrite read_loop_spec by lia.
  rewrite div_of_nat by lia. reflexivity.
Qed.

Lemma spectrogram_main_ok X w N s :
  all_ok w s -> 2 <= N <= INT_MAX ->
  Spectrogram.main X w N =
  Some {| result := Exit 0;
          num_blocks := Z.of_nat (length s) / N;
          f32_file :=
            fold_left (Spectrogram.body X (Spectrogram.make_window X N) N)
                      (complete_blocks N s) [IntHeader N];
          dat_file := [];
          in_ops := InOpen :: loop_ops N s;
          left_by := Some ShortRead |}.
Proof.
  intros Hw HN. unfold Spectrogram.main, to_size_t.
  rewrite (wrap64_small N) by int_bounds.
  replace (N <? 2) with false by (symmetry; apply Z.ltb_ge; lia).
  use_world Hw.
  rewrite (to_int_small N) by lia.
  rewrite read_loop_spec by lia.
  rewrite div_of_nat by lia. reflexivity.
Qed.

Lemma counted_want N :
  1 <= N <= INT_MAX -> wrap64 (4 * N * 2) / 4 = 2 * N.
Proof.
  intros H. rewrite wrap64_small by int_bounds.
  replace (4 * N * 2) with (2 * N * 4) by lia. apply Z.div_mul. lia.
Qed.

Lemma counted_blocks_fit (s : list spec_float) N :
  1 <= N ->
  (Z.to_nat (Z.of_nat (length s) / (2 * N)) * Z.to_nat (2 * N)
   <= length s)%nat.
Proof.
  intros H. rewrite div_to_nat by lia. rewrite Nat.mul_comm.
  apply Nat.Div0.mul_div_le.
Qed.

Lemma amplitude_sum_fold N numbered : forall out,
  fold_left (fun st p => AmplitudeSum.body N st (fst p) (snd p)) numbered out
  = out ++ amplitude_lines N numbered.
Proof.
  induction numbered as [|p numbered IH]; intros out.
  - cbn. now rewrite app_nil_r.
  - cbn [fold_left]. rewrite IH. unfold AmplitudeSum.body, amplitude_lines.
    cbn [map]. now rewrite <- app_assoc.
Qed.

Lemma power_spectrum_fold X N numbered : forall out,
  fold_left (fun st p => PowerSpectrum.body X N st (fst p) (snd p))
            numbered out
  = out ++ map Float32
             (concat (map (fun p => spectrum_powers X N (snd p)) numbered)).
Proof.
  induction numbered as [|p numbered IH]; intros out.
  - cbn. now rewrite app_nil_r.
  - cbn [fold_left map concat]. rewrite IH. unfold PowerSpectrum.body.
    rewrite map_app, app_assoc. unfold spectrum_powers.
    now rewrite map_map.
Qed.

Lemma spectrum_powers_length X N b :
  length (spectrum_powers X N b) = Z.to_nat N.
Proof. unfold spectrum_powers. now rewrite length_map, Zrange_length. Qed.

Lemma no_index_overflow N : N <= 2 ^ 30 -> index_overflows N = false.
Proof. intros H. unfold index_overflows. apply Z.ltb_ge. lia. Qed.

Lemma amplitude_sum_main_lines w N s :
  all_ok w s -> 1 <= N <= 2 ^ 30 ->
  Z.of_nat (length s) / (2 * N) <= INT_MAX ->
  AmplitudeSum.main w N =
  {| result := Exit 0;
     num_blocks := Z.of_nat (length s) / (2 * N);
     f32_file := [];
     dat_file := amplitude_lines N
                   (number_from 0 (complete_blocks (2 * N) s));
     in_ops := [InOpen; InSize]
               ++ repeat (InRead (2 * N) (2 * N))
                         (Z.to_nat (Z.of_nat (length s) / (2 * N)));
     left_by := Some CountReached |}.
Proof.
  intros Hw HN HB.
  assert (HB0 : 0 <= Z.of_nat (length s) / (2 * N))
    by (apply Z.div_pos; lia).
  unfold AmplitudeSum.main.
  use_world Hw. rewrite number_of_blocks_pos, counted_want by int_bounds.
  rewrite no_index_overflow by lia. cbn [andb].
  rewrite counted_loop_state by (try apply counted_blocks_fit; lia).
  rewrite div_to_nat, firstn_complete_blocks, amplitude_sum_fold by lia.
  cbn [app result_of]. f_equal. rewrite div_of_nat by lia. lia.
Qed.

Lemma power_spectrum_main_values X w N s :
  all_ok w s -> 1 <= N <= 2 ^ 30 ->
  Z.of_nat (length s) / (2 * N) <= INT_MAX ->
  PowerSpectrum.main X w N =
  {| result := Exit 0;
     num_blocks := Z.of_nat (length s) / (2 * N);
     f32_file := map Float32
                   (concat (map (spectrum_powers X N)
                                (complete_blocks (2 * N) s)));
     dat_file := [];
     in_ops := [InOpen; InSize]
               ++ repeat (InRead (2 * N) (2 * N))
                         (Z.to_nat (Z.of_nat (length s) / (2 * N)));
     left_by := Some CountReached |}.
Proof.
  intros Hw HN HB.
  assert (HB0 : 0 <= Z.of_nat (length s) / (2 * N))
    by (apply Z.div_pos; lia).
  unfold PowerSpectrum.main.
  use_world Hw. rewrite number_of_blocks_pos, counted_want by int_bounds.
  rewrite no_index_overflow by lia. cbn [andb].
  rewrite counted_loop_state by (try apply counted_blocks_fit; lia).
  rewrite div_to_nat, firstn_complete_blocks, power_spectrum_fold by lia.
  rewrite map_snd_number_from.
  cbn [app result_of]. f_equal. rewrite div_of_nat by lia. lia.
Qed.

Lemma rawreader_main_lines w N s :
  all_ok w s -> 1 <= N <= 2 ^ 30 ->
  Z.of_nat (length s) / (2 * N) <= INT_MAX ->
  Rawreader.main w N =
  {| result := Exit 0;
     num_blocks := Z.of_nat (length s) / (2 * N);
     f32_file := [];
     dat_file := amplitude_lines N
                   (number_from 0 (complete_blocks (2 * N) s));
     in_ops := [InOpen; InSize]
               ++ repeat (InRead (2 * N) (2 * N))
                         (Z.to_nat (Z.of_nat (length s) / (2 * N)));
     left_by := Some CountReached |}.
Proof.
  intros Hw HN HB.
  assert (HB0 : 0 <= Z.of_nat (length s) / (2 * N))
    by (apply Z.div_pos; lia).
  unfold Rawreader.main. use_world Hw.
  rewrite number_of_blocks_pos by int_bounds. cbn [andb].
  rewrite no_index_overflow by lia. cbn [andb].
  rewrite rawreader_loop_state;
    rewrite ?counted_want by int_bounds;
    [| lia | apply counted_blocks_fit; lia | cbn; lia | lia].
  rewrite div_to_nat, firstn_complete_blocks by lia.
  cbn [app result_of]. f_equal. rewrite div_of_nat by lia. lia.
Qed.

(** A block of more than 2^30 samples: the three counted programs index
    their buffer past [INT_MAX] in the first block, before they write. *)
Lemma counted_index_overflow X w N s :
  all_ok w s -> 2 ^ 30 < N <= INT_MAX -> 2 * N <= Z.of_nat (length s) ->
  AmplitudeSum.main w N
  = stop Undefined [] [InOpen; InSize; InRead (2 * N) (2 * N)] /\
  PowerSpectrum.main X w N
  = stop Undefined [] [InOpen; InSize; InRead (2 * N) (2 * N)] /\
  Rawreader.main w N
  = stop Undefined [] [InOpen; InSize; InRead (2 * N) (2 * N)].
Proof.
  intros Hw HN Hlen.
  assert (HB : 1 <= Z.of_nat (length s) / (2 * N))
    by (apply Z.div_le_lower_bound; lia).
  assert (Ho : index_overflows N = true)
    by (unfold index_overflows; apply Z.ltb_lt; lia).
  unfold AmplitudeSum.main, PowerSpectrum.main, Rawreader.main.
  use_world Hw. rewrite number_of_blocks_pos, counted_want, Ho by lia.
  replace (0 <? _) with true by (symmetry; apply Z.ltb_lt; lia).
  repeat split.
Qed.

(** The example of one block of two samples (3, 4) and (0, 0): the
    amplitudes written are 5 and 0. *)
Example amplitude_of_3_4 :
  option_map f32_file (Amplitude.main (good_world [fl 3; fl 4; fl 0; fl 0]) 2)
  = Some [Float32 (fl 5); Float32 F32.zero].
Proof. vm_compute. reflexivity. Qed.

(** ** How the loops end (C1) and how many blocks they make (C2) *)

Lemma consumed_app a b : consumed (a ++ b) = consumed a ++ consumed b.
Proof. apply flat_map_app. Qed.

Lemma consumed_full want k :
  consumed (repeat (InRead want want) k) = repeat want k.
Proof.
  induction k as [|k IH]; [reflexivity|].
  cbn [repeat]. change (InRead want want :: ?l) with ([InRead want want] ++ l).
  rewrite consumed_app, IH. cbn. now rewrite Z.eqb_refl.
Qed.

Lemma consumed_loop_ops want (s : list spec_float) :
  0 < want ->
  consumed (InOpen :: loop_ops want s) =
  repeat want (length s / Z.to_nat want).
Proof.
  intros H. unfold loop_ops.
  change (InOpen :: ?l) with ([InOpen] ++ l).
  rewrite !consumed_app, consumed_full. cbn.
  replace (_ =? want) with false; [now rewrite app_nil_r|].
  symmetry. apply Z.eqb_neq. rewrite mod_of_nat by lia.
  pose proof (Z.mod_pos_bound (Z.of_nat (length s)) want H). lia.
Qed.

Lemma consumed_counted want k :
  consumed ([InOpen; InSize] ++ repeat (InRead want want) k) = repeat want k.
Proof. now rewrite consumed_app, consumed_full. Qed.

Lemma loop_ops_short_read want (s : list spec_float) r :
  0 < want ->
  result r = Exit 0 -> left_by r = Some ShortRead ->
  num_blocks r = Z.of_nat (length s) / want ->
  in_ops r = InOpen :: loop_ops want s ->
  ends_by_short_read want r.
Proof.
  intros Hw Hr Hl Hn Ho. unfold ends_by_short_read.
  repeat split; trivial.
  - rewrite Ho. unfold loop_ops. intros [H|H]; [discriminate|].
    apply in_app_or in H. destruct H as [H|[H|[]]]; [|discriminate].
    apply repeat_spec in H. discriminate.
  - exists (Z.of_nat (length s mod Z.to_nat want)). split.
    + rewrite mod_of_nat by lia. now apply Z.mod_pos_bound.
    + rewrite Ho, Hn, div_to_nat by lia. reflexivity.
Qed.

Lemma blocks_of_length (s : list spec_float) c k r :
  Z.of_nat (length s) = k * c + r -> 0 <= r < c ->
  Z.of_nat (length s) / c = k.
Proof.
  intros E H. symmetry. apply (Z.div_unique_pos _ _ k r); lia.
Qed.

(** C1 as stated fails: the amplitude-sum program, on a file of one block
    of two samples, leaves its loop through the block counter. *)
Lemma amplitude_sum_not_left_by_short_read :
  ~ short_read_is_sole_exit toy_externals
      (good_world [fl 3; fl 4; fl 0; fl 0]) MAmplitudeSum 2.
Proof.
  intros (r & E & _ & L & _).
  vm_compute in E. injection E as <-. discriminate L.
Qed.

(** C1 (amended): in the amplitude, power and integrated power spectrum
    modes a read of fewer than [2 * N] floats ([N] floats in spectrogram
    mode) is the only way out of the block loop, the run returns 0 and the
    size of the file is never taken; the amplitude-sum and power-spectrum
    programs (and rawreader) take the size of the file first, bound their
    loop by the number of blocks computed from it and leave the loop
    through the counter, after full reads only.  The sizes are those
    within which the [int] arithmetic of the mode is defined. *)
Theorem loop_exit_by_mode X w m N s :
  all_ok w s -> 2 <= N <= INT_MAX -> within_int m N s ->
  loop_exit_of X w m N s.
Proof.
  intros Hw HN Hi.
  unfold loop_exit_of. destruct m; cbn [run_mode within_int] in *.
  - rewrite (amplitude_main_ok w N s) by (trivial; lia).
    eexists; split; [reflexivity|].
    apply (loop_ops_short_read _ s);
      cbn [result left_by num_blocks in_ops]; try reflexivity; lia.
  - rewrite (power_main_ok w t N s) by (trivial; lia).
    eexists; split; [reflexivity|].
    apply (loop_ops_short_read _ s);
      cbn [result left_by num_blocks in_ops]; try reflexivity; lia.
  - rewrite (amplitude_sum_main_lines w N s) by (trivial; lia).
    eexists; split; [reflexivity|]. now repeat split.
  - rewrite (power_spectrum_main_values X w N s) by (trivial; lia).
    eexists; split; [reflexivity|]. now repeat split.
  - rewrite (integrated_main_ok X w N s) by (trivial; lia).
    eexists; split; [reflexivity|].
    apply (loop_ops_short_read _ s);
      cbn [result left_by num_blocks in_ops]; try reflexivity; lia.
  - rewrite (spectrogram_main_ok X w N s) by (trivial; lia).
    eexists; split; [reflexivity|].
    apply (loop_ops_short_read _ s);
      cbn [result left_by num_blocks in_ops]; try reflexivity; lia.
  - rewrite (rawreader_main_lines w N s) by (trivial; lia).
    eexists; split; [reflexivity|]. now repeat split.
Qed.

Lemma loop_exit_by_mode_witness :
  loop_exit_of toy_externals (good_world five_samples) MAmplitudeSum 2
               five_samples.
Proof.
  apply (loop_exit_by_mode toy_externals (good_world five_samples)
                           MAmplitudeSum 2 five_samples).
  - repeat split.
  - unfold INT_MAX. lia.
  - cbn. unfold INT_MAX. lia.
Defined.

(** C2 as stated fails: the spectrogram program reads [N] floats for a
    block, so a file of 1 * 2 * 2 + 1 floats makes two blocks, not one. *)
Lemma spectrogram_blocks_of_five_floats :
  ~ yields_blocks toy_externals
      (good_world [fl 1; fl 2; fl 3; fl 4; fl 5]) MSpectrogram 2 (2 * 2) 1.
Proof.
  intros (r & E & _ & Hn & _).
  vm_compute in E. injection E as <-. discriminate Hn.
Qed.

(** C2 (amended): on a file of [k * 2 * N + r] floats, [0 < r < 2 * N],
    every mode but the spectrogram consumes [2 * N] floats for each block
    and processes exactly [k] blocks; the spectrogram program consumes [N]
    floats for each block and processes [2 * k + r / N] blocks.  In every
    mode the floats left over are dropped and the run returns 0.  The
    sizes are those within which the [int] arithmetic of the mode is
    defined. *)
Theorem blocks_of_file X w m N s k r :
  all_ok w s -> 2 <= N <= INT_MAX -> within_int m N s ->
  Z.of_nat (length s) = k * (2 * N) + r -> 0 < r < 2 * N ->
  blocks_of_mode X w m N k r.
Proof.
  intros Hw HN Hi Hlen Hr.
  assert (Hk : Z.of_nat (length s) / (2 * N) = k)
    by (apply (blocks_of_length s _ k r); lia).
  assert (Hk0 : 0 <= k) by nia.
  unfold blocks_of_mode, yields_blocks.
  destruct m; cbn [run_mode within_int] in *.
  - rewrite (amplitude_main_ok w N s) by (trivial; lia).
    eexists; split; [reflexivity|]. cbn [result num_blocks in_ops].
    rewrite Hk. repeat split.
    rewrite consumed_loop_ops, <- div_to_nat, Hk by lia. reflexivity.
  - rewrite (power_main_ok w t N s) by (trivial; lia).
    eexists; split; [reflexivity|]. cbn [result num_blocks in_ops].
    rewrite Hk. repeat split.
    rewrite consumed_loop_ops, <- div_to_nat, Hk by lia. reflexivity.
  - rewrite (amplitude_sum_main_lines w N s) by (trivial; lia).
    eexists; split; [reflexivity|]. cbn [result num_blocks in_ops].
    rewrite Hk. repeat split. apply consumed_counted.
  - rewrite (power_spectrum_main_values X w N s) by (trivial; lia).
    eexists; split; [reflexivity|]. cbn [result num_blocks in_ops].
    rewrite Hk. repeat split. apply consumed_counted.
  - rewrite (integrated_main_ok X w N s) by (trivial; lia).
    eexists; split; [reflexivity|]. cbn [result num_blocks in_ops].
    rewrite Hk. repeat split.
    rewrite consumed_loop_ops, <- div_to_nat, Hk by lia. reflexivity.
  - assert (HkN : Z.of_nat (length s) / N = 2 * k + r / N).
    { rewrite Hlen. replace (k * (2 * N) + r) with (r + (2 * k) * N) by lia.
      rewrite Z.div_add by lia. lia. }
    rewrite (spectrogram_main_ok X w N s) by (trivial; lia).
    eexists; split; [reflexivity|]. cbn [result num_blocks in_ops].
    rewrite HkN. repeat split.
    rewrite consumed_loop_ops, <- div_to_nat, HkN by lia. reflexivity.
  - rewrite (rawreader_main_lines w N s) by (trivial; lia).
    eexists; split; [reflexivity|]. cbn [result num_blocks in_ops].
    rewrite Hk. repeat split. apply consumed_counted.
Qed.

Lemma blocks_of_file_witness :
  blocks_of_mode toy_externals (good_world five_samples) MPowerSpectrum 2 2 1.
Proof.
  apply (blocks_of_file toy_externals (good_world five_samples)
                        MPowerSpectrum 2 five_samples 2 1).
  - repeat split.
  - unfold INT_MAX. lia.
  - cbn. unfold INT_MAX. lia.
  - reflexivity.
  - lia.
Defined.

(** ** The integrated power spectrum (C3, C5, C10) *)

Lemma at_index_map_Zrange (f : Z -> spec_float) n i :
  0 <= i < n -> at_index (map f (Zrange n)) i = f i.
Proof. apply nth_map_Zrange. Qed.

Lemma list_as_map_at_index l n :
  length l = Z.to_nat n -> l = map (at_index l) (Zrange n).
Proof.
  intros H. apply (nth_ext _ _ F32.zero F32.zero).
  - now rewrite length_map, Zrange_length.
  - intros k Hk.
    rewrite <- (Nat2Z.id k) at 2. rewrite nth_map_Zrange by lia.
    unfold at_index. now rewrite Nat2Z.id.
Qed.

Lemma accumulate_length N out ps :
  length (Integrated.accumulate N out ps) = Z.to_nat N.
Proof. unfold Integrated.accumulate. now rewrite length_map, Zrange_length. Qed.

Lemma calloc_at N i : 0 <= i < N -> at_index (Integrated.calloc N) i = F32.zero.
Proof.
  intros H. unfold Integrated.calloc. now rewrite at_index_map_Zrange.
Qed.

(** The accumulator after a sequence of blocks: at every bin the float
    additions of the squares, in block order, onto what was there. *)
Lemma accumulator_after X N blocks : forall ps,
  length ps = Z.to_nat N ->
  fold_left (Integrated.process_block X N) blocks ps =
  map (fun i => fold_left F32.add (map (fun b => bin_power X N b i) blocks)
                          (at_index ps i))
      (Zrange N).
Proof.
  induction blocks as [|b blocks IH]; intros ps Hps.
  - cbn. now apply list_as_map_at_index.
  - cbn [fold_left map]. rewrite IH.
    2:{ unfold Integrated.process_block. apply accumulate_length. }
    apply map_ext_in. intros i Hi.
    unfold Zrange in Hi. apply in_map_iff in Hi.
    destruct Hi as (k & <- & Hk). apply in_seq in Hk.
    unfold Integrated.process_block, Integrated.accumulate.
    rewrite at_index_map_Zrange by lia. reflexivity.
Qed.

(** The transform input of the program for a complete block is the block
    of the file, sample by sample. *)
Lemma fill_in_of_block N (s : list spec_float) k :
  1 <= N -> 0 <= k < Z.of_nat (length s) / (2 * N) ->
  Integrated.fill_in N (nth (Z.to_nat k) (complete_blocks (2 * N) s) [])
  = block_as_complex s N k.
Proof.
  intros HN Hk. unfold Integrated.fill_in, block_as_complex.
  apply map_ext_in. intros j Hj. apply In_Zrange in Hj.
  rewrite (at_complete_block N s k (2 * j)),
    (at_complete_block N s k (2 * j + 1)) by lia.
  unfold in_phase_at, quadrature_at.
  now replace (k * (2 * N) + (2 * j + 1)) with (k * (2 * N) + 2 * j + 1)
    by lia.
Qed.

(** C3: when the run of the integrated power spectrum processes [B >= 1]
    complete blocks, it writes one line for each of the [N] bins, and the
    value for bin [i] is the mean over the blocks of the squared real
    transform output at bin [i]: for each block [k] of the file, in order,
    the [N] samples of the block go to the transform as complex values and
    the square of its real output at [i] is added to a sum that starts at
    0; the sum is divided by [B] once, before it is written. *)
Theorem integrated_emits_mean X w N s :
  all_ok w s -> 1 <= N < 2 ^ 30 -> 2 * N <= Z.of_nat (length s) ->
  exists r,
    Integrated.main X w N = Some r /\
    result r = Exit 0 /\
    num_blocks r = Z.of_nat (length s) / (2 * N) /\
    1 <= num_blocks r /\
    Z.of_nat (length (dat_file r)) = N /\
    forall i, 0 <= i < N ->
      nth (Z.to_nat i) (dat_file r) (Line 0 F32.zero) =
      Line i (F32.div
                (fold_left F32.add
                   (map (fun k => squared_real_output X s N k i)
                        (Zrange (num_blocks r)))
                   F32.zero)
                (F32.of_Z (num_blocks r))).
Proof.
  intros Hw HN Hlen.
  rewrite integrated_main_ok with (s := s) by (trivial; int_bounds).
  cbv zeta. eexists; split; [reflexivity|].
  cbn [result num_blocks dat_file].
  assert (H1 : 1 <= Z.of_nat (length s) / (2 * N)).
  { apply Z.div_le_lower_bound; lia. }
  do 3 (split; [trivial|]).
  unfold Integrated.save, Integrated.average.
  replace (0 <? _) with true by (symmetry; apply Z.ltb_lt; lia).
  split.
  - rewrite length_map, Zrange_length. lia.
  - intros i Hi. rewrite nth_map_Zrange by lia.
    rewrite at_index_map_Zrange by lia.
    rewrite accumulator_after.
    2:{ unfold Integrated.calloc. now rewrite length_map, Zrange_length. }
    rewrite at_index_map_Zrange, calloc_at by lia.
    do 3 f_equal.
    rewrite (map_complete_blocks _ (fun b => bin_power X N b i)) by lia.
    apply map_ext_in. intros k Hk. apply In_Zrange in Hk.
    unfold bin_power, squared_real_output.
    now rewrite fill_in_of_block by lia.
Qed.

Lemma integrated_emits_mean_witness :
  exists r,
    Integrated.main echo_externals (good_world five_samples) 2 = Some r /\
    result r = Exit 0 /\
    num_blocks r = Z.of_nat (length five_samples) / (2 * 2) /\
    1 <= num_blocks r /\
    Z.of_nat (length (dat_file r)) = 2 /\
    forall i, 0 <= i < 2 ->
      nth (Z.to_nat i) (dat_file r) (Line 0 F32.zero) =
      Line i (F32.div
                (fold_left F32.add
                   (map (fun k => squared_real_output echo_externals
                                    five_samples 2 k i)
                        (Zrange (num_blocks r)))
                   F32.zero)
                (F32.of_Z (num_blocks r))).
Proof.
  apply (integrated_emits_mean echo_externals (good_world five_samples) 2
                               five_samples).
  - repeat split.
  - lia.
  - cbn. lia.
Defined.

(** With the stand-in transform (real parts), two blocks whose first bins
    hold 3 and 1 give the mean (9 + 1) / 2 = 5 at bin 0. *)
Example integrated_two_blocks :
  option_map dat_file
    (Integrated.main toy_externals
       (good_world [fl 3; fl 4; fl 1; fl 0; fl 1; fl 2; fl 2; fl 0]) 2)
  = Some [Line 0 (fl 5); Line 1 (F32.div (fl 5) (fl 2))].
Proof. vm_compute. reflexivity. Qed.



(** C5 as stated fails: the accumulator is an array of [float] and the
    addition is a float addition.  Adding the power 1 to an accumulator
    that holds 2^24 leaves 2^24, where a double accumulator would hold
    2^24 + 1. *)
Lemma accumulator_is_not_double :
  ~ accumulates_in_double 1 [fl 1] [fl 16777216].
Proof.
  unfold accumulates_in_double. vm_compute. discriminate.
Qed.

(** C5 (amended): in the integrated power spectrum mode the power of a
    block and its accumulation are both single precision: after any
    sequence of blocks the accumulator at bin [i] is the binary32 sum, in
    block order, of the binary32 squares of the transform output. *)
Theorem accumulator_single_precision X N blocks i :
  0 <= i < N ->
  at_index (fold_left (Integrated.process_block X N) blocks
                      (Integrated.calloc N)) i
  = summed_power X N blocks i.
Proof.
  intros Hi. rewrite accumulator_after.
  - rewrite at_index_map_Zrange, calloc_at by lia. reflexivity.
  - unfold Integrated.calloc. now rewrite length_map, Zrange_length.
Qed.

Lemma accumulator_single_precision_witness :
  at_index (fold_left (Integrated.process_block toy_externals 1)
                      [[fl 4096; fl 0]; [fl 1; fl 0]; [fl 1; fl 0]]
                      (Integrated.calloc 1)) 0
  = summed_power toy_externals 1
                 [[fl 4096; fl 0]; [fl 1; fl 0]; [fl 1; fl 0]] 0.
Proof.
  apply (accumulator_single_precision toy_externals 1
           [[fl 4096; fl 0]; [fl 1; fl 0]; [fl 1; fl 0]] 0).
  lia.
Defined.

(** Three blocks whose powers are 2^24, 1 and 1: the float accumulator
    stays at 2^24. *)
Example accumulator_saturates :
  summed_power toy_externals 1
               [[fl 4096; fl 0]; [fl 1; fl 0]; [fl 1; fl 0]] 0
  = fl 16777216.
Proof. vm_compute. reflexivity. Qed.

(** ** Raw and summed power (C8) *)

Lemma power_samples t buffer idxs : forall raw sum,
  fold_left (Power.sample_step t buffer) idxs (raw, sum) =
  (if Power.writes_raw t
   then raw ++ map (fun i => Float32 (Power.power buffer i)) idxs else raw,
   if Power.writes_sum t
   then fold_left F32.add (map (Power.power buffer) idxs) sum else sum).
Proof.
  induction idxs as [|i idxs IH]; intros raw sum.
  - cbn. destruct t; cbn; now rewrite ?app_nil_r.
  - cbn [fold_left map]. unfold Power.sample_step at 2. cbn [fst snd].
    rewrite IH. destruct t; cbn [Power.writes_raw Power.writes_sum];
      now rewrite <- ?app_assoc.
Qed.

Lemma power_body t N st b :
  Power.body t N st b =
  {| Power.outfile :=
       Power.outfile st ++
       (if Power.writes_raw t then map Float32 (block_powers N b) else []);
     Power.sumfile :=
       Power.sumfile st ++
       (if Power.writes_sum t
        then [Line (Power.blocks st)
                   (fold_left F32.add (block_powers N b) F32.zero)]
        else []);
     Power.blocks := Power.blocks st + 1 |}.
Proof.
  unfold Power.body. rewrite power_samples. unfold block_powers.
  destruct t; cbn [Power.writes_raw Power.writes_sum app];
    now rewrite ?app_nil_r, ?map_map.
Qed.

Lemma power_blocks t N blocks : forall st,
  fold_left (Power.body t N) blocks st =
  {| Power.outfile :=
       Power.outfile st ++
       (if Power.writes_raw t
        then map Float32 (concat (map (block_powers N) blocks)) else []);
     Power.sumfile :=
       Power.sumfile st ++
       (if Power.writes_sum t
        then sum_lines N (Power.blocks st) blocks else []);
     Power.blocks := Power.blocks st + Z.of_nat (length blocks) |}.
Proof.
  induction blocks as [|b blocks IH]; intros st.
  - cbn. destruct st, t; cbn; now rewrite ?app_nil_r, Z.add_0_r.
  - cbn [fold_left]. rewrite IH, power_body.
    destruct t; cbn [Power.writes_raw Power.writes_sum Power.outfile
                     Power.sumfile Power.blocks map concat sum_lines
                     length app];
      rewrite ?app_nil_r, ?map_app, <- ?app_assoc;
      f_equal; lia.
Qed.

Lemma sum_lines_nth N blocks : forall k0 k d,
  (k < length blocks)%nat ->
  nth k (sum_lines N k0 blocks) d =
  Line (k0 + Z.of_nat k)
       (fold_left F32.add (block_powers N (nth k blocks [])) F32.zero).
Proof.
  induction blocks as [|b blocks IH]; intros k0 k d Hk; [cbn in Hk; lia|].
  destruct k as [|k]; cbn [sum_lines nth].
  - now rewrite Z.add_0_r.
  - rewrite IH by (cbn in Hk; lia). f_equal. lia.
Qed.

Lemma block_powers_length N b : length (block_powers N b) = Z.to_nat N.
Proof. unfold block_powers. now rewrite length_map, Zrange_length. Qed.

(** The raw file of the power program, by block and sample. *)
Lemma raw_power_at N (s : list spec_float) k i :
  1 <= N -> 0 <= k < Z.of_nat (length s) / (2 * N) -> 0 <= i < N ->
  nth (Z.to_nat (k * N + i))
      (map Float32 (concat (map (block_powers N) (complete_blocks (2 * N) s))))
      (Float32 F32.zero)
  = Float32 (F32.add (F32.mul (in_phase_at s N k i) (in_phase_at s N k i))
                     (F32.mul (quadrature_at s N k i)
                              (quadrature_at s N k i))).
Proof.
  intros HN Hk Hi.
  assert (Hu : forall l, In l (map (block_powers N)
                                   (complete_blocks (2 * N) s)) ->
                         length l = Z.to_nat N).
  { intros l Hl. apply in_map_iff in Hl. destruct Hl as (b & <- & _).
    apply block_powers_length. }
  assert (Hkn : (Z.to_nat k < length (complete_blocks (2 * N) s))%nat).
  { rewrite complete_blocks_length.
    rewrite <- (div_to_nat (length s) (2 * N)) by lia. lia. }
  rewrite map_nth. f_equal.
  rewrite Z2Nat.inj_add, (Z2Nat.inj_mul k) by lia.
  rewrite (nth_concat_uniform _ _ _ _ _ _ Hu)
    by (rewrite ?length_map; trivial; lia).
  rewrite (nth_indep _ [] (block_powers N []))
    by (now rewrite length_map).
  rewrite map_nth. unfold block_powers.
  rewrite nth_map_Zrange by lia. unfold Power.power.
  rewrite (at_complete_block N s k (2 * i)),
    (at_complete_block N s k (2 * i + 1)) by lia.
  unfold in_phase_at, quadrature_at.
  now replace (k * (2 * N) + (2 * i + 1)) with (k * (2 * N) + 2 * i + 1)
    by lia.
Qed.

(** C8: for every input, the raw-power output holds [N] values for each
    processed block, the value of sample [i] of block [k] being
    [I * I + Q * Q]; the summed-power output holds one line for each block,
    and the value on line [k] is the float sum, taken from 0 in sample
    order, of the [N] values that the raw-power output holds for block
    [k]. *)
Theorem summed_power_is_sum_of_raw w N s ts tr :
  all_ok w s -> 1 <= N <= INT_MAX ->
  Power.writes_sum ts = true -> Power.writes_raw tr = true ->
  exists rs rr,
    Power.main w ts N = Some rs /\ Power.main w tr N = Some rr /\
    num_blocks rs = Z.of_nat (length s) / (2 * N) /\
    num_blocks rr = Z.of_nat (length s) / (2 * N) /\
    Z.of_nat (length (dat_file rs)) = num_blocks rs /\
    Z.of_nat (length (f32_file rr)) = N * num_blocks rr /\
    (forall k i, 0 <= k < num_blocks rr -> 0 <= i < N ->
       nth (Z.to_nat (k * N + i)) (f32_file rr) (Float32 F32.zero) =
       Float32 (F32.add (F32.mul (in_phase_at s N k i) (in_phase_at s N k i))
                        (F32.mul (quadrature_at s N k i)
                                 (quadrature_at s N k i)))) /\
    forall k, 0 <= k < num_blocks rs ->
      nth (Z.to_nat k) (dat_file rs) (Line 0 F32.zero) =
      Line k (fold_left F32.add (raw_block N k (f32_file rr)) F32.zero).
Proof.
  intros Hw HN Hs Hr.
  rewrite !power_main_ok with (s := s) by trivial. cbv zeta.
  do 2 eexists. split; [reflexivity|]. split; [reflexivity|].
  cbn [num_blocks dat_file f32_file]. do 2 (split; [reflexivity|]).
  rewrite !power_blocks. cbn [Power.outfile Power.sumfile Power.blocks app].
  rewrite Hs, Hr.
  assert (Hu : forall l, In l (map (block_powers N)
                                   (complete_blocks (2 * N) s)) ->
                         length l = Z.to_nat N).
  { intros l Hl. apply in_map_iff in Hl. destruct Hl as (b & <- & _).
    apply block_powers_length. }
  assert (Hsl : forall blocks k0,
             length (sum_lines N k0 blocks) = length blocks).
  { induction blocks as [|b blocks IH]; intros k0; [reflexivity|].
    cbn. now rewrite IH. }
  split; [|split; [|split]].
  - rewrite Hsl, complete_blocks_length. apply div_of_nat. lia.
  - rewrite length_map, (length_concat_uniform _ _ _ Hu), length_map,
      complete_blocks_length, Nat2Z.inj_mul, div_of_nat by lia. lia.
  - intros k i Hk Hi. now apply raw_power_at.
  - intros k Hk.
    assert (Hlen : (Z.to_nat k < length (complete_blocks (2 * N) s))%nat).
    { rewrite complete_blocks_length.
      rewrite <- (div_to_nat (length s) (2 * N)) by lia. lia. }
    rewrite sum_lines_nth by trivial.
    rewrite Z2Nat.id by lia. cbn [Z.add]. do 2 f_equal.
    unfold raw_block. rewrite skipn_map, firstn_map, map_map. cbn [float_of].
    rewrite map_id, chunk_of_concat.
    + rewrite <- (map_nth (block_powers N)). apply nth_indep.
      now rewrite length_map.
    + exact Hu.
    + now rewrite length_map.
Qed.

Lemma summed_power_is_sum_of_raw_witness :
  exists rs rr,
    Power.main (good_world five_samples) Power.OUTPUT_SUM 2 = Some rs /\
    Power.main (good_world five_samples) Power.OUTPUT_RAW 2 = Some rr /\
    num_blocks rs = Z.of_nat (length five_samples) / (2 * 2) /\
    num_blocks rr = Z.of_nat (length five_samples) / (2 * 2) /\
    Z.of_nat (length (dat_file rs)) = num_blocks rs /\
    Z.of_nat (length (f32_file rr)) = 2 * num_blocks rr /\
    (forall k i, 0 <= k < num_blocks rr -> 0 <= i < 2 ->
       nth (Z.to_nat (k * 2 + i)) (f32_file rr) (Float32 F32.zero) =
       Float32 (F32.add (F32.mul (in_phase_at five_samples 2 k i)
                                 (in_phase_at five_samples 2 k i))
                        (F32.mul (quadrature_at five_samples 2 k i)
                                 (quadrature_at five_samples 2 k i)))) /\
    forall k, 0 <= k < num_blocks rs ->
      nth (Z.to_nat k) (dat_file rs) (Line 0 F32.zero) =
      Line k (fold_left F32.add (raw_block 2 k (f32_file rr)) F32.zero).
Proof.
  apply (summed_power_is_sum_of_raw (good_world five_samples) 2
           five_samples Power.OUTPUT_SUM Power.OUTPUT_RAW).
  - repeat split.
  - unfold INT_MAX. lia.
  - reflexivity.
  - reflexivity.
Defined.

(** The block (3, 4), (0, 0) of two samples: raw powers 25 and 0, summed
    power 25. *)
Example power_of_3_4 :
  option_map (fun r => (f32_file r, dat_file r))
    (Power.main (good_world [fl 3; fl 4; fl 0; fl 0]) Power.OUTPUT_BOTH 2)
  = Some ([Float32 (fl 25); Float32 F32.zero], [Line 0 (fl 25)]).
Proof. vm_compute. reflexivity. Qed.

(** ** The spectrogram (C4, C9) *)

Lemma spectrogram_row_length X window block n :
  2 <= n ->
  length (Spectrogram.process_block X window block n) = Z.to_nat (n / 2 + 1).
Proof.
  intros Hn. unfold Spectrogram.process_block.
  rewrite Z.quot_div_nonneg by lia.
  now rewrite length_map, Zrange_length.
Qed.

(** C4: in spectrogram mode every processed block gives exactly
    [N/2 + 1] values, for the bins 0 to [N/2], and value [i] is
    [10 * log10f (p + 1e-10)] with [p] the squared magnitude of bin [i] of
    the forward transform of the windowed block; the constant is added for
    every value of [p], without a test for zero. *)
Theorem spectrogram_row X window block n :
  2 <= n ->
  length (Spectrogram.process_block X window block n)
  = Z.to_nat (n / 2 + 1) /\
  forall i, 0 <= i <= n / 2 ->
    at_index (Spectrogram.process_block X window block n) i =
    F32.mul F32.ten
      (log10f X (F32.add (squared_magnitude
                            (windowed_spectrum_at X window block n i))
                         F32.eps)).
Proof.
  intros Hn. split; [now apply spectrogram_row_length|].
  intros i Hi. unfold Spectrogram.process_block.
  rewrite Z.quot_div_nonneg by lia.
  rewrite at_index_map_Zrange by lia.
  unfold Spectrogram.db_at, windowed_spectrum_at, squared_magnitude.
  now destruct (nth _ _ _).
Qed.

Lemma spectrogram_row_witness :
  length (Spectrogram.process_block echo_externals
            (Spectrogram.make_window echo_externals 4)
            [fl 1; fl 2; fl 3; fl 4] 4)
  = Z.to_nat (4 / 2 + 1) /\
  forall i, 0 <= i <= 4 / 2 ->
    at_index (Spectrogram.process_block echo_externals
                (Spectrogram.make_window echo_externals 4)
                [fl 1; fl 2; fl 3; fl 4] 4) i =
    F32.mul F32.ten
      (log10f echo_externals
         (F32.add (squared_magnitude
                     (windowed_spectrum_at echo_externals
                        (Spectrogram.make_window echo_externals 4)
                        [fl 1; fl 2; fl 3; fl 4] 4 i))
                  F32.eps)).
Proof.
  apply (spectrogram_row echo_externals
           (Spectrogram.make_window echo_externals 4)
           [fl 1; fl 2; fl 3; fl 4] 4).
  lia.
Defined.

Lemma spectrogram_blocks X window n blocks : forall out,
  fold_left (Spectrogram.body X window n) blocks out =
  out ++ map Float32
           (concat (map (fun b => Spectrogram.process_block X window b n)
                        blocks)).
Proof.
  induction blocks as [|b blocks IH]; intros out.
  - cbn. now rewrite app_nil_r.
  - cbn [fold_left map concat]. rewrite IH. unfold Spectrogram.body.
    now rewrite map_app, app_assoc.
Qed.

(** C9 as stated fails: the program first writes [samples_per_block] as a
    header of [sizeof(int)] bytes.  On an empty input with [N = 2] the
    output holds that header and no row. *)
Lemma spectrogram_output_has_header :
  ~ output_is_rows_only toy_externals (good_world []) 2.
Proof.
  intros (r & rows & E & F & _).
  vm_compute in E. injection E as <-. cbn [f32_file] in F.
  destruct (concat rows); discriminate F.
Qed.

(** C9 (amended): the binary output of the spectrogram program is the
    header holding [samples_per_block], followed by consecutive rows of
    [N/2 + 1] float32 values, one row for each processed block, and
    nothing else. *)
Theorem spectrogram_output X w N s :
  all_ok w s -> 2 <= N <= INT_MAX ->
  exists r,
    Spectrogram.main X w N = Some r /\
    f32_file r =
    IntHeader N
    :: map Float32 (concat (spectrogram_rows X N (complete_blocks N s))) /\
    Z.of_nat (length (spectrogram_rows X N (complete_blocks N s)))
    = num_blocks r /\
    forall row, In row (spectrogram_rows X N (complete_blocks N s)) ->
                Z.of_nat (length row) = N / 2 + 1.
Proof.
  intros Hw HN. rewrite spectrogram_main_ok with (s := s) by trivial.
  eexists; split; [reflexivity|]. cbn [f32_file num_blocks].
  repeat split.
  - now rewrite spectrogram_blocks.
  - unfold spectrogram_rows.
    rewrite length_map, complete_blocks_length. apply div_of_nat. lia.
  - intros row Hrow. unfold spectrogram_rows in Hrow.
    apply in_map_iff in Hrow. destruct Hrow as (b & <- & _).
    rewrite spectrogram_row_length by lia.
    rewrite Z2Nat.id; [reflexivity|].
    pose proof (Z.div_pos N 2). lia.
Qed.

Lemma spectrogram_output_witness :
  exists r,
    Spectrogram.main toy_externals (good_world [fl 1; fl 2; fl 3]) 2
    = Some r /\
    f32_file r =
    IntHeader 2
    :: map Float32
         (concat (spectrogram_rows toy_externals 2
                    (complete_blocks 2 [fl 1; fl 2; fl 3]))) /\
    Z.of_nat (length (spectrogram_rows toy_externals 2
                        (complete_blocks 2 [fl 1; fl 2; fl 3])))
    = num_blocks r /\
    forall row, In row (spectrogram_rows toy_externals 2
                          (complete_blocks 2 [fl 1; fl 2; fl 3])) ->
                Z.of_nat (length row) = 2 / 2 + 1.
Proof.
  apply (spectrogram_output toy_externals (good_world [fl 1; fl 2; fl 3]) 2
                            [fl 1; fl 2; fl 3]).
  - repeat split.
  - unfold INT_MAX. lia.
Defined.

(** ** Validation of samples_per_block (C6) *)





(** A negative argument is not below 2 once stored in the [size_t] of the
    amplitude program: the check lets it through and the run ends on the
    allocation of the block buffer, after the input was opened. *)
Example amplitude_negative_argument :
  Amplitude.main {| input := Some []; output_ok := true;
                    malloc_ok := fun bytes => bytes <? 2 ^ 40;
                    plan_ok := true |} (-1)
  = Some (stop (Exit 1) [] [InOpen]).
Proof. vm_compute. reflexivity. Qed.

(** Without a check, [samples_per_block = 0] reaches the division that
    computes the number of blocks. *)
Example amplitude_sum_zero_argument :
  result (AmplitudeSum.main (good_world [fl 3; fl 4]) 0) = Crash.
Proof. vm_compute. reflexivity. Qed.

(** ** The Hanning window (C7)

    Bounds on the roundings of [SpecFloat] in binary64, to follow the
    angle [2 pi i / (N - 1)] at the two ends of the window. *)

Lemma digits2_pos_log2 p : Zpos (digits2_pos p) = Z.log2 (Zpos p) + 1.
Proof.
  assert (H : forall q, digits2_pos q = Pos.size q)
    by (induction q; cbn; congruence).
  destruct p; cbn [Z.log2]; rewrite ?H; cbn [Pos.size]; lia.
Qed.

Lemma digits_of_bounds p d :
  2 ^ (d - 1) <= Zpos p < 2 ^ d -> 1 <= d -> Zpos (digits2_pos p) = d.
Proof.
  intros H Hd. rewrite digits2_pos_log2.
  assert (E : Z.log2 (Zpos p) = d - 1).
  { apply Z.log2_unique; [lia|].
    now replace (Z.succ (d - 1)) with d by lia. }
  lia.
Qed.

Lemma shr_1_m r : 0 <= shr_m r -> shr_m (shr_1 r) = shr_m r / 2.
Proof.
  destruct r as [m b s]. cbn [shr_m]. intros H.
  rewrite <- Z.div2_div.
  destruct m as [|[p|p|]|p]; try reflexivity. lia.
Qed.

Lemma pow2_xO p : 2 ^ Zpos p~0 = 2 ^ Zpos p * 2 ^ Zpos p.
Proof. rewrite <- Z.pow_add_r by lia. f_equal. lia. Qed.

Lemma pow2_xI p : 2 ^ Zpos p~1 = 2 * (2 ^ Zpos p * 2 ^ Zpos p).
Proof.
  rewrite <- Z.pow_add_r, <- Z.pow_succ_r by lia. f_equal. lia.
Qed.

Lemma iter_shr_1_m p : forall r,
  0 <= shr_m r ->
  0 <= shr_m (iter_pos shr_1 p r) /\
  shr_m (iter_pos shr_1 p r) = shr_m r / 2 ^ Zpos p.
Proof.
  induction p as [p IH|p IH|]; intros r Hr; cbn [iter_pos].
  - assert (H2 : 0 < 2 ^ Zpos p) by (apply Z.pow_pos_nonneg; lia).
    assert (H1 : 0 <= shr_m (shr_1 r))
      by (rewrite shr_1_m by trivial; apply Z.div_pos; lia).
    destruct (IH _ H1) as (Ha & Ea). destruct (IH _ Ha) as (Hb & Eb).
    split; [trivial|].
    rewrite Eb, Ea, shr_1_m, !Z.div_div, pow2_xI by lia. reflexivity.
  - assert (H2 : 0 < 2 ^ Zpos p) by (apply Z.pow_pos_nonneg; lia).
    destruct (IH _ Hr) as (Ha & Ea). destruct (IH _ Ha) as (Hb & Eb).
    split; [trivial|].
    rewrite Eb, Ea, !Z.div_div, pow2_xO by lia. reflexivity.
  - rewrite shr_1_m by trivial. split; [apply Z.div_pos; lia | reflexivity].
Qed.

Lemma round_nearest_even_bounds m l :
  m <= round_nearest_even m l <= m + 1.
Proof.
  destruct l as [|[| |]]; cbn; try lia. destruct (Z.even m); lia.
Qed.

Lemma div_pow2_bounds m j :
  0 <= j -> 2 ^ (52 + j) <= m < 2 ^ (53 + j) ->
  2 ^ 52 <= m / 2 ^ j < 2 ^ 53.
Proof.
  intros Hj. rewrite !Z.pow_add_r by lia. intros H.
  assert (H2 : 0 < 2 ^ j) by (apply Z.pow_pos_nonneg; lia).
  split.
  - apply Z.div_le_lower_bound; lia.
  - apply Z.div_lt_upper_bound; lia.
Qed.

Lemma shr_fexp_53 m e l j :
  0 <= j -> 2 ^ (52 + j) <= Zpos m < 2 ^ (53 + j) -> -1074 <= e + j ->
  exists mrs,
    shr_fexp 53 1024 (Zpos m) e l = (mrs, e + j) /\
    shr_m mrs = Zpos m / 2 ^ j.
Proof.
  intros Hj Hm He. unfold shr_fexp, Zdigits2.
  rewrite (digits_of_bounds m (53 + j))
    by (trivial; replace (53 + j - 1) with (52 + j) by lia; lia).
  replace (fexp 53 1024 (53 + j + e) - e) with j
    by (unfold fexp, emin; lia).
  destruct j as [|p|p]; [| |lia].
  - cbn [shr]. eexists; split; [f_equal; lia|].
    rewrite Z.pow_0_r, Z.div_1_r. now destruct l as [|[| |]].
  - cbn [shr]. eexists; split; [reflexivity|].
    assert (Hl : shr_m (shr_record_of_loc (Zpos m) l) = Zpos m)
      by (now destruct l as [|[| |]]).
    rewrite <- Hl at 2. apply iter_shr_1_m. rewrite Hl. lia.
Qed.

Lemma binary_round_aux_53 m e l j :
  0 <= j -> 2 ^ (52 + j) <= Zpos m < 2 ^ (53 + j) ->
  -1074 <= e + j -> e + j + 1 <= 971 ->
  exists m' e',
    binary_round_aux 53 1024 false (Zpos m) e l = S754_finite false m' e' /\
    2 ^ 52 <= Zpos m' < 2 ^ 53 /\
    ((e' = e + j /\ Zpos m / 2 ^ j <= Zpos m' <= Zpos m / 2 ^ j + 1) \/
     (e' = e + j + 1 /\ Zpos m' = 2 ^ 52 /\ Zpos m / 2 ^ j = 2 ^ 53 - 1)).
Proof.
  intros Hj Hm He1 He2. unfold binary_round_aux.
  destruct (shr_fexp_53 m e l j Hj Hm He1) as (mrs & E & Em). rewrite E.
  pose proof (div_pow2_bounds (Zpos m) j Hj Hm) as Hx. rewrite <- Em in Hx.
  pose proof (round_nearest_even_bounds (shr_m mrs) (loc_of_shr_record mrs))
    as Hr.
  destruct (round_nearest_even (shr_m mrs) (loc_of_shr_record mrs))
    as [|p1|p1] eqn:E1; [lia| |lia].
  destruct (Z.eq_dec (Zpos p1) (2 ^ 53)) as [Hc|Hc].
  - destruct (shr_fexp_53 p1 (e + j) loc_Exact 1) as (mrs2 & E2 & Em2);
      [lia | rewrite Hc; cbn; lia | lia |].
    rewrite E2, Em2, Hc. change (2 ^ 53 / 2 ^ 1) with (Zpos 4503599627370496).
    replace (e + j + 1 <=? 1024 - 53) with true
      by (symmetry; apply Z.leb_le; lia).
    do 2 eexists; split; [reflexivity|]. split; [cbn; lia|].
    right. rewrite <- Em. repeat split; lia.
  - destruct (shr_fexp_53 p1 (e + j) loc_Exact 0) as (mrs2 & E2 & Em2);
      [lia | cbn [Z.add]; lia | lia |].
    rewrite Z.add_0_r in E2. rewrite E2, Em2, Z.pow_0_r, Z.div_1_r.
    replace (e + j <=? 1024 - 53) with true
      by (symmetry; apply Z.leb_le; lia).
    do 2 eexists; split; [reflexivity|]. split; [lia|].
    left. rewrite <- Em. split; lia.
Qed.

Lemma iter_xO_pow2 p q : Zpos (Pos.iter xO p q) = Zpos p * 2 ^ Zpos q.
Proof.
  induction q as [|q IH] using Pos.peano_ind.
  - cbn. lia.
  - rewrite Pos.iter_succ, Pos2Z.inj_xO, IH, Pos2Z.inj_succ, Z.pow_succ_r by lia.
    lia.
Qed.

(** The conversion of a positive [int] to [double] is a normal number. *)
Lemma f64_of_Z_pos k :
  1 <= k < 2 ^ 31 ->
  exists K ek,
    F64.of_Z k = S754_finite false K ek /\
    2 ^ 52 <= Zpos K < 2 ^ 53 /\ -52 <= ek <= -21.
Proof.
  intros Hk. destruct k as [|p|p]; [lia| |lia].
  unfold F64.of_Z, F64.prec, F64.emax, binary_normalize, binary_round.
  set (d := Zpos (digits2_pos p)).
  assert (Hd : 2 ^ (d - 1) <= Zpos p < 2 ^ d /\ 1 <= d <= 31).
  { unfold d. rewrite digits2_pos_log2.
    pose proof (Z.log2_spec (Zpos p) eq_refl) as Hs.
    pose proof (Z.log2_nonneg (Zpos p)) as Hn.
    assert (Z.log2 (Zpos p) < 31)
      by (apply (proj1 (Z.log2_lt_pow2 (Zpos p) 31 eq_refl)); apply Hk).
    replace (Z.log2 (Zpos p) + 1 - 1) with (Z.log2 (Zpos p)) by lia.
    replace (Z.log2 (Zpos p) + 1) with (Z.succ (Z.log2 (Zpos p))) by lia.
    split; [exact Hs | lia]. }
  destruct Hd as (Hp & Hd).
  replace (fexp 53 1024 (d + 0)) with (d - 53) by (unfold fexp, emin; lia).
  unfold shl_align. destruct (d - 53 - 0) as [|q|q] eqn:Eq; [lia|lia|].
  assert (Hm : 2 ^ (52 + 0) <= Zpos (Pos.iter xO p q) < 2 ^ (53 + 0)).
  { assert (H52 : 2 ^ (52 + 0) = 2 ^ (d - 1) * 2 ^ Zpos q)
      by (rewrite <- Z.pow_add_r by lia; f_equal; lia).
    assert (H53 : 2 ^ (53 + 0) = 2 ^ d * 2 ^ Zpos q)
      by (rewrite <- Z.pow_add_r by lia; f_equal; lia).
    assert (0 < 2 ^ Zpos q) by (apply Z.pow_pos_nonneg; lia).
    rewrite iter_xO_pow2, H52, H53. split.
    - apply Z.mul_le_mono_nonneg_r; [lia | apply Hp].
    - apply Z.mul_lt_mono_pos_r; [lia | apply Hp]. }
  destruct (binary_round_aux_53 (Pos.iter xO p q) (d - 53) loc_Exact 0)
    as (K & ek & E & HK & He); [lia | exact Hm | lia | lia |].
  exists K, ek. split; [exact E|]. split; [exact HK|].
  destruct He as [(-> & _)|(-> & _)]; lia.
Qed.

Lemma div_core_53 my ey K ek :
  2 ^ 52 <= Zpos my < 2 ^ 53 -> 2 ^ 52 <= Zpos K < 2 ^ 53 ->
  -1021 <= ey - ek ->
  SFdiv_core_binary 53 1024 (Zpos my) ey (Zpos K) ek =
  (Zpos my * 2 ^ 53 / Zpos K, ey - ek - 53,
   new_location (Zpos K) (Zpos my * 2 ^ 53 mod Zpos K)).
Proof.
  intros Hy HK He. unfold SFdiv_core_binary, Zdigits2.
  rewrite (digits_of_bounds my 53), (digits_of_bounds K 53) by (cbn; lia).
  replace (fexp 53 1024 (53 + ey - (53 + ek))) with (ey - ek - 53)
    by (unfold fexp, emin; lia).
  replace (Z.min (ey - ek - 53) (ey - ek)) with (ey - ek - 53) by lia.
  replace (ey - ek - (ey - ek - 53)) with 53 by lia.
  rewrite Z.shiftl_mul_pow2 by lia.
  unfold Z.div, Z.modulo.
  now destruct (Z.div_eucl (Zpos my * 2 ^ 53) (Zpos K)).
Qed.

(** Rounding to [float] a [double] within three units in the last place
    of 2 pi gives the [float] nearest to 2 pi. *)
Lemma round_near_two_pi mz :
  7074237752028440 - 3 <= Zpos mz <= 7074237752028440 + 3 ->
  F32.round (S754_finite false mz (-50)) = two_pi_f32.
Proof.
  intros H.
  assert (C : (mz = 7074237752028437 \/ mz = 7074237752028438 \/
               mz = 7074237752028439 \/ mz = 7074237752028440 \/
               mz = 7074237752028441 \/ mz = 7074237752028442 \/
               mz = 7074237752028443)%positive) by lia.
  destruct C as [C|[C|[C|[C|[C|[C|C]]]]]]; subst mz; vm_compute; reflexivity.
Qed.

(** The product of 2 pi and a normal [double]. *)
Lemma two_pi_times K ek :
  2 ^ 52 <= Zpos K < 2 ^ 53 -> -52 <= ek <= -21 ->
  exists my ey j,
    F64.mul (S754_finite false 7074237752028440 (-50))
            (S754_finite false K ek)
    = S754_finite false my ey /\
    (j = 52 \/ j = 53) /\
    2 ^ (52 + j) <= 7074237752028440 * Zpos K < 2 ^ (53 + j) /\
    2 ^ 52 <= Zpos my < 2 ^ 53 /\
    ((ey = -50 + ek + j /\
      7074237752028440 * Zpos K / 2 ^ j <= Zpos my
      <= 7074237752028440 * Zpos K / 2 ^ j + 1) \/
     (ey = -50 + ek + j + 1 /\ Zpos my = 2 ^ 52 /\
      7074237752028440 * Zpos K / 2 ^ j = 2 ^ 53 - 1)).
Proof.
  intros HK He.
  unfold F64.mul, F64.prec, F64.emax, SFmul. cbn [xorb].
  assert (HP : 2 ^ 104 <= Zpos (7074237752028440 * K) < 2 ^ 106)
    by (rewrite Pos2Z.inj_mul; lia).
  destruct (Z.lt_ge_cases (Zpos (7074237752028440 * K)) (2 ^ 105))
    as [Hlt|Hge].
  - destruct (binary_round_aux_53 (7074237752028440 * K) (-50 + ek)
                                  loc_Exact 52)
      as (my & ey & E & Hy & Hc); [lia | cbn [Z.add]; lia | lia | lia |].
    exists my, ey, 52. rewrite Pos2Z.inj_mul in *. cbn [Z.add].
    repeat split; try tauto; try lia. 
  - destruct (binary_round_aux_53 (7074237752028440 * K) (-50 + ek)
                                  loc_Exact 53)
      as (my & ey & E & Hy & Hc); [lia | cbn [Z.add]; lia | lia | lia |].
    exists my, ey, 53. rewrite Pos2Z.inj_mul in *. cbn [Z.add].
    repeat split; try tauto; try lia.
Qed.

(** The quotient of two normal [double]s. *)
Lemma normal_quotient my ey K ek :
  2 ^ 52 <= Zpos my < 2 ^ 53 -> 2 ^ 52 <= Zpos K < 2 ^ 53 ->
  -1020 <= ey - ek <= 1020 ->
  exists mz ez j,
    F64.div (S754_finite false my ey) (S754_finite false K ek)
    = S754_finite false mz ez /\
    (j = 0 \/ j = 1) /\
    2 ^ (52 + j) <= Zpos my * 2 ^ 53 / Zpos K < 2 ^ (53 + j) /\
    ((ez = ey - ek - 53 + j /\
      Zpos my * 2 ^ 53 / Zpos K / 2 ^ j <= Zpos mz
      <= Zpos my * 2 ^ 53 / Zpos K / 2 ^ j + 1) \/
     (ez = ey - ek - 53 + j + 1 /\ Zpos mz = 2 ^ 52 /\
      Zpos my * 2 ^ 53 / Zpos K / 2 ^ j = 2 ^ 53 - 1)).
Proof.
  intros Hy HK He.
  unfold F64.div, F64.prec, F64.emax, SFdiv. cbn [xorb].
  rewrite div_core_53 by (trivial; lia).
  assert (Hq : 2 ^ 52 <= Zpos my * 2 ^ 53 / Zpos K < 2 ^ 54).
  { split.
    - apply Z.div_le_lower_bound; lia.
    - apply Z.div_lt_upper_bound; lia. }
  destruct (Zpos my * 2 ^ 53 / Zpos K) as [|q|q] eqn:Eq; [lia| |lia].
  destruct (Z.lt_ge_cases (Zpos q) (2 ^ 53)) as [Hlt|Hge].
  - destruct (binary_round_aux_53 q (ey - ek - 53)
                (new_location (Zpos K) (Zpos my * 2 ^ 53 mod Zpos K)) 0)
      as (mz & ez & E & Hz & Hc); [lia | cbn [Z.add]; lia | lia | lia |].
    exists mz, ez, 0. cbn [Z.add]. repeat split; try tauto; lia.
  - destruct (binary_round_aux_53 q (ey - ek - 53)
                (new_location (Zpos K) (Zpos my * 2 ^ 53 mod Zpos K)) 1)
      as (mz & ez & E & Hz & Hc); [lia | cbn [Z.add]; lia | lia | lia |].
    exists mz, ez, 1. cbn [Z.add]. repeat split; try tauto; lia.
Qed.

(** In [double], [(2 pi * k) / k] stays within three units in the last
    place of 2 pi, for every normal [k]. *)
Lemma times_over_two_pi K ek :
  2 ^ 52 <= Zpos K < 2 ^ 53 -> -52 <= ek <= -21 ->
  exists mz,
    F64.div (F64.mul (S754_finite false 7074237752028440 (-50))
                     (S754_finite false K ek))
            (S754_finite false K ek)
    = S754_finite false mz (-50) /\
    7074237752028440 - 3 <= Zpos mz <= 7074237752028440 + 3.
Proof.
  intros HK He.
  destruct (two_pi_times K ek HK He) as (my & ey & j & E & Hj & HP & Hy & Hc).
  rewrite E.
  destruct (normal_quotient my ey K ek Hy HK)
    as (mz & ez & j' & E' & Hj' & Hq & Hc');
    [destruct Hj, Hc as [(-> & _)|(-> & _)]; lia|].
  rewrite E'. exists mz.
  assert (G : ez = -50 /\
              7074237752028440 - 3 <= Zpos mz <= 7074237752028440 + 3).
  2:{ destruct G as (-> & G). now split. }
  clear E E'.
  set (k := Zpos K) in *. set (y := Zpos my) in *. set (z := Zpos mz) in *.
  clearbody k y z. clear K my mz.
  destruct Hj as [-> | ->], Hj' as [-> | ->];
    change (2 ^ (52 + 52)) with 20282409603651670423947251286016 in *;
    change (2 ^ (53 + 52)) with 40564819207303340847894502572032 in *;
    change (2 ^ (53 + 53)) with 81129638414606681695789005144064 in *;
    change (2 ^ (52 + 53)) with 40564819207303340847894502572032 in *;
    change (2 ^ (52 + 0)) with 4503599627370496 in *;
    change (2 ^ (53 + 0)) with 9007199254740992 in *;
    change (2 ^ (52 + 1)) with 9007199254740992 in *;
    change (2 ^ (53 + 1)) with 18014398509481984 in *;
    change (2 ^ 52) with 4503599627370496 in *;
    change (2 ^ 53) with 9007199254740992 in *;
    change (2 ^ 0) with 1 in *; change (2 ^ 1) with 2 in *;
    destruct Hc as [Hc|Hc], Hc' as [Hc'|Hc'];
    Z.div_mod_to_equations; nia.
Qed.

Lemma hanning_angle_first N :
  2 <= N <= INT_MAX -> hanning_angle N 0 = F32.zero.
Proof.
  intros HN. unfold hanning_angle.
  destruct (f64_of_Z_pos (N - 1)) as (K & ek & E & _); [int_bounds|].
  rewrite E. reflexivity.
Qed.

Lemma hanning_angle_last N :
  2 <= N <= INT_MAX -> hanning_angle N (N - 1) = two_pi_f32.
Proof.
  intros HN. unfold hanning_angle.
  destruct (f64_of_Z_pos (N - 1)) as (K & ek & E & HK & He); [int_bounds|].
  rewrite E.
  change (F64.mul F64.two F64.M_PI)
    with (S754_finite false 7074237752028440 (-50)).
  destruct (times_over_two_pi K ek HK He) as (mz & E2 & Hz).
  rewrite E2. now apply round_near_two_pi.
Qed.

(** C7: for every [N >= 2] the window made by [init_fftw] has [N]
    weights, and the weight at every index [i] of [0, N-1] is
    [0.5 * (1 - cos (2 pi i / (N - 1)))]: the angle is taken in [double]
    and rounded to [float], the cosine is libm's [cosf], the difference and
    the product are taken in [float].  At the two ends the angle is exactly
    0 and the [float] nearest to 2 pi, so with a [cosf] that returns 1 at
    both, [window[0]] and [window[N-1]] are exactly 0. *)
Theorem hanning_window X N :
  2 <= N <= INT_MAX ->
  cosf X F32.zero = F32.one -> cosf X two_pi_f32 = F32.one ->
  length (Spectrogram.make_window X N) = Z.to_nat N /\
  (forall i, 0 <= i < N ->
     at_index (Spectrogram.make_window X N) i =
     F32.mul F32.half (F32.sub F32.one (cosf X (hanning_angle N i)))) /\
  hanning_angle N 0 = F32.zero /\
  hanning_angle N (N - 1) = two_pi_f32 /\
  at_index (Spectrogram.make_window X N) 0 = F32.zero /\
  at_index (Spectrogram.make_window X N) (N - 1) = F32.zero.
Proof.
  intros HN H0 H2pi.
  assert (Hat : forall i, 0 <= i < N ->
            at_index (Spectrogram.make_window X N) i =
            F32.mul F32.half (F32.sub F32.one (cosf X (hanning_angle N i)))).
  { intros i Hi. unfold Spectrogram.make_window.
    rewrite at_index_map_Zrange by trivial.
    unfold Spectrogram.window_at, Spectrogram.window_angle, hanning_angle.
    reflexivity. }
  repeat split.
  - unfold Spectrogram.make_window. now rewrite length_map, Zrange_length.
  - exact Hat.
  - now apply hanning_angle_first.
  - now apply hanning_angle_last.
  - rewrite Hat, hanning_angle_first, H0 by lia. reflexivity.
  - rewrite Hat, hanning_angle_last, H2pi by lia. reflexivity.
Qed.

Lemma hanning_window_witness :
  length (Spectrogram.make_window echo_externals 8) = Z.to_nat 8 /\
  (forall i, 0 <= i < 8 ->
     at_index (Spectrogram.make_window echo_externals 8) i =
     F32.mul F32.half
             (F32.sub F32.one (cosf echo_externals (hanning_angle 8 i)))) /\
  hanning_angle 8 0 = F32.zero /\
  hanning_angle 8 (8 - 1) = two_pi_f32 /\
  at_index (Spectrogram.make_window echo_externals 8) 0 = F32.zero /\
  at_index (Spectrogram.make_window echo_externals 8) (8 - 1) = F32.zero.
Proof.
  apply (hanning_window echo_externals 8).
  - unfold INT_MAX. lia.
  - reflexivity.
  - reflexivity.
Defined.

(** The window of four weights with the stand-in [cosf], which is 1/2
    away from 0 and 2 pi: the ends are 0 and the inner weights 1/4; and the
    angle at the last index for some sizes. *)
Example window_of_four :
  Spectrogram.make_window echo_externals 4
  = [F32.zero; F32.div F32.one (fl 4); F32.div F32.one (fl 4); F32.zero].
Proof. vm_compute. reflexivity. Qed.

Example window_angle_last_examples :
  Spectrogram.window_angle 2 1 = two_pi_f32 /\
  Spectrogram.window_angle 7 6 = two_pi_f32 /\
  Spectrogram.window_angle 1024 1023 = two_pi_f32 /\
  Spectrogram.window_angle 1800000 1799999 = two_pi_f32.
Proof. vm_compute. repeat split. Qed.

(** * Further properties of the programs *)

(** ** Positions in the stream and in the outputs *)

Lemma amplitude_blocks N blocks : forall out,
  fold_left (Amplitude.body N) blocks out =
  out ++ map Float32 (concat (map (block_amplitudes N) blocks)).
Proof.
  induction blocks as [|b blocks IH]; intros out.
  - cbn. now rewrite app_nil_r.
  - cbn [fold_left map concat]. rewrite IH. unfold Amplitude.body.
    rewrite map_app, app_assoc. unfold block_amplitudes.
    now rewrite map_map.
Qed.

Lemma block_amplitudes_length N b :
  length (block_amplitudes N b) = Z.to_nat N.
Proof. unfold block_amplitudes. now rewrite length_map, Zrange_length. Qed.

(** X1: the amplitude program writes exactly [N] values for each block it
    processes, and the value at position [k * N + i] is
    [sqrtf (I * I + Q * Q)] of sample [i] of block [k] of the input, the
    floats [k * 2N + 2i] and [k * 2N + 2i + 1] of the file. *)
Theorem amplitude_of_stream w N s :
  all_ok w s -> 2 <= N <= INT_MAX ->
  exists r,
    Amplitude.main w N = Some r /\
    Z.of_nat (length (f32_file r)) = N * num_blocks r /\
    forall k i, 0 <= k < num_blocks r -> 0 <= i < N ->
      nth (Z.to_nat (k * N + i)) (f32_file r) (Float32 F32.zero) =
      Float32 (F32.sqrt
                 (F32.add (F32.mul (in_phase_at s N k i) (in_phase_at s N k i))
                          (F32.mul (quadrature_at s N k i)
                                   (quadrature_at s N k i)))).
Proof.
  intros Hw HN. rewrite amplitude_main_ok with (s := s) by trivial.
  eexists; split; [reflexivity|]. cbn [f32_file num_blocks].
  rewrite amplitude_blocks. cbn [app].
  assert (Hu : forall l, In l (map (block_amplitudes N)
                                   (complete_blocks (2 * N) s)) ->
                         length l = Z.to_nat N).
  { intros l Hl. apply in_map_iff in Hl. destruct Hl as (b & <- & _).
    apply block_amplitudes_length. }
  assert (HB : 0 <= Z.of_nat (length s) / (2 * N))
    by (apply Z.div_pos; lia).
  split.
  - rewrite length_map, (length_concat_uniform _ _ _ Hu), length_map,
      complete_blocks_length, Nat2Z.inj_mul, div_of_nat by lia. lia.
  - intros k i Hk Hi.
    assert (Hkn : (Z.to_nat k < length (complete_blocks (2 * N) s))%nat).
    { rewrite complete_blocks_length.
      rewrite <- (div_to_nat (length s) (2 * N)) by lia. lia. }
    rewrite map_nth. f_equal.
    rewrite Z2Nat.inj_add, (Z2Nat.inj_mul k) by lia.
    rewrite (nth_concat_uniform _ _ _ _ _ _ Hu)
      by (rewrite ?length_map; trivial; lia).
    rewrite (nth_indep _ [] (block_amplitudes N []))
      by (now rewrite length_map).
    rewrite map_nth. unfold block_amplitudes.
    rewrite nth_map_Zrange by lia. unfold Amplitude.amplitude.
    rewrite (at_complete_block N s k (i * 2)),
      (at_complete_block N s k (i * 2 + 1)) by lia.
    unfold in_phase_at, quadrature_at.
    replace (k * (2 * N) + i * 2) with (k * (2 * N) + 2 * i) by lia.
    now replace (k * (2 * N) + (i * 2 + 1)) with (k * (2 * N) + 2 * i + 1)
      by lia.
Qed.

(** X2: with raw output on, the power program writes exactly [N] values
    for each block it processes, and the value at position [k * N + i] is
    [I * I + Q * Q] of sample [i] of block [k] of the input. *)
Theorem power_of_stream w t N s :
  all_ok w s -> 1 <= N <= INT_MAX -> Power.writes_raw t = true ->
  exists r,
    Power.main w t N = Some r /\
    Z.of_nat (length (f32_file r)) = N * num_blocks r /\
    forall k i, 0 <= k < num_blocks r -> 0 <= i < N ->
      nth (Z.to_nat (k * N + i)) (f32_file r) (Float32 F32.zero) =
      Float32 (F32.add (F32.mul (in_phase_at s N k i) (in_phase_at s N k i))
                       (F32.mul (quadrature_at s N k i)
                                (quadrature_at s N k i))).
Proof.
  intros Hw HN Ht. rewrite power_main_ok with (s := s) by trivial. cbv zeta.
  eexists; split; [reflexivity|]. cbn [f32_file num_blocks].
  rewrite power_blocks. cbn [Power.outfile app]. rewrite Ht.
  assert (Hu : forall l, In l (map (block_powers N)
                                   (complete_blocks (2 * N) s)) ->
                         length l = Z.to_nat N).
  { intros l Hl. apply in_map_iff in Hl. destruct Hl as (b & <- & _).
    apply block_powers_length. }
  assert (HB : 0 <= Z.of_nat (length s) / (2 * N))
    by (apply Z.div_pos; lia).
  split.
  - rewrite length_map, (length_concat_uniform _ _ _ Hu), length_map,
      complete_blocks_length, Nat2Z.inj_mul, div_of_nat by lia. lia.
  - intros k i Hk Hi.
    assert (Hkn : (Z.to_nat k < length (complete_blocks (2 * N) s))%nat).
    { rewrite complete_blocks_length.
      rewrite <- (div_to_nat (length s) (2 * N)) by lia. lia. }
    rewrite map_nth. f_equal.
    rewrite Z2Nat.inj_add, (Z2Nat.inj_mul k) by lia.
    rewrite (nth_concat_uniform _ _ _ _ _ _ Hu)
      by (rewrite ?length_map; trivial; lia).
    rewrite (nth_indep _ [] (block_powers N []))
      by (now rewrite length_map).
    rewrite map_nth. unfold block_powers.
    rewrite nth_map_Zrange by lia. unfold Power.power.
    rewrite (at_complete_block N s k (2 * i)),
      (at_complete_block N s k (2 * i + 1)) by lia.
    unfold in_phase_at, quadrature_at.
    now replace (k * (2 * N) + (2 * i + 1)) with (k * (2 * N) + 2 * i + 1)
      by lia.
Qed.

(** X3: the output type [both] writes the raw file of [raw] and the sum
    file of [sum]; [raw] writes no sum file and [sum] no raw file. *)
Theorem power_both_is_raw_and_sum w N s :
  all_ok w s -> 1 <= N <= INT_MAX ->
  exists rb rr rs,
    Power.main w Power.OUTPUT_BOTH N = Some rb /\
    Power.main w Power.OUTPUT_RAW N = Some rr /\
    Power.main w Power.OUTPUT_SUM N = Some rs /\
    f32_file rb = f32_file rr /\ dat_file rb = dat_file rs /\
    dat_file rr = [] /\ f32_file rs = [] /\
    num_blocks rb = num_blocks rr /\ num_blocks rb = num_blocks rs.
Proof.
  intros Hw HN. rewrite !power_main_ok with (s := s) by trivial. cbv zeta.
  do 3 eexists. do 3 (split; [reflexivity|]).
  cbn [f32_file dat_file num_blocks]. rewrite !power_blocks.
  cbn [Power.outfile Power.sumfile Power.writes_raw Power.writes_sum app].
  repeat split.
Qed.

(** ** Samples that are all zero *)

Lemma at_index_is_zero l j :
  (forall x, In x l -> is_zero x) -> is_zero (at_index l j).
Proof.
  intros H. unfold at_index.
  destruct (nth_in_or_default (Z.to_nat j) l F32.zero) as [Hin | ->].
  - now apply H.
  - now left.
Qed.

Lemma complete_block_in_stream want (s : list spec_float) blk x :
  In blk (complete_blocks want s) -> In x blk -> In x s.
Proof.
  intros Hb Hx. unfold complete_blocks in Hb. apply in_map_iff in Hb.
  destruct Hb as (k & <- & _). unfold nth_block in Hx.
  rewrite <- (firstn_skipn (k * Z.to_nat want) s). apply in_or_app. right.
  rewrite <- (firstn_skipn (Z.to_nat want) (skipn _ s)). apply in_or_app.
  now left.
Qed.

Lemma power_of_zeros buffer i :
  (forall x, In x buffer -> is_zero x) -> Power.power buffer i = F32.zero.
Proof.
  intros H. unfold Power.power.
  destruct (at_index_is_zero buffer (2 * i) H) as [-> | ->],
           (at_index_is_zero buffer (2 * i + 1) H) as [-> | ->];
    reflexivity.
Qed.

Lemma amplitude_of_zeros block i :
  (forall x, In x block -> is_zero x) ->
  Amplitude.amplitude block i = F32.zero.
Proof.
  intros H. unfold Amplitude.amplitude.
  destruct (at_index_is_zero block (i * 2) H) as [-> | ->],
           (at_index_is_zero block (i * 2 + 1) H) as [-> | ->];
    reflexivity.
Qed.

Lemma sum_of_zeros l :
  (forall x, In x l -> x = F32.zero) -> fold_left F32.add l F32.zero = F32.zero.
Proof.
  induction l as [|x l IH]; intros H; [reflexivity|].
  cbn [fold_left]. rewrite (H x) by now left.
  apply IH. intros y Hy. apply H. now right.
Qed.

Lemma sum_lines_in N blocks : forall k0 it,
  In it (sum_lines N k0 blocks) ->
  exists k b, In b blocks /\
              it = Line k (fold_left F32.add (block_powers N b) F32.zero).
Proof.
  induction blocks as [|b blocks IH]; intros k0 it H; [destruct H|].
  destruct H as [<- | H].
  - exists k0, b. split; [now left | reflexivity].
  - destruct (IH _ _ H) as (k & b' & Hb & E).
    exists k, b'. split; [now right | exact E].
Qed.

(** X4: when every float of the input is a zero (of either sign), every
    value that the amplitude program and the power program write is exactly
    +0: the amplitudes, the raw powers and the block sums, whatever the
    block size and the number of blocks. *)
Theorem zero_samples_give_zero w t N s :
  all_ok w s -> 2 <= N <= INT_MAX ->
  (forall x, In x s -> is_zero x) ->
  exists ra rp,
    Amplitude.main w N = Some ra /\ Power.main w t N = Some rp /\
    (forall it, In it (f32_file ra) -> it = Float32 F32.zero) /\
    (forall it, In it (f32_file rp) -> it = Float32 F32.zero) /\
    (forall it, In it (dat_file rp) -> exists k, it = Line k F32.zero).
Proof.
  intros Hw HN Hz.
  rewrite amplitude_main_ok with (s := s) by trivial.
  rewrite power_main_ok with (s := s) by (trivial; lia). cbv zeta.
  do 2 eexists. do 2 (split; [reflexivity|]).
  cbn [f32_file dat_file]. rewrite amplitude_blocks, power_blocks.
  cbn [Power.outfile Power.sumfile Power.blocks app].
  assert (Hblk : forall b, In b (complete_blocks (2 * N) s) ->
                           forall x, In x b -> is_zero x).
  { intros b Hb x Hx. apply Hz. eapply complete_block_in_stream; eauto. }
  repeat split.
  - intros it Hit. apply in_map_iff in Hit. destruct Hit as (v & <- & Hv).
    apply in_concat in Hv. destruct Hv as (l & Hl & Hv).
    apply in_map_iff in Hl. destruct Hl as (b & <- & Hb).
    unfold block_amplitudes in Hv. apply in_map_iff in Hv.
    destruct Hv as (i & <- & _). f_equal.
    apply amplitude_of_zeros. now apply Hblk.
  - intros it Hit. destruct (Power.writes_raw t); [|destruct Hit].
    apply in_map_iff in Hit. destruct Hit as (v & <- & Hv).
    apply in_concat in Hv. destruct Hv as (l & Hl & Hv).
    apply in_map_iff in Hl. destruct Hl as (b & <- & Hb).
    unfold block_powers in Hv. apply in_map_iff in Hv.
    destruct Hv as (i & <- & _). f_equal.
    apply power_of_zeros. now apply Hblk.
  - intros it Hit. destruct (Power.writes_sum t); [|destruct Hit].
    apply sum_lines_in in Hit. destruct Hit as (k & b & Hb & ->).
    exists k. f_equal. apply sum_of_zeros.
    intros x Hx. unfold block_powers in Hx. apply in_map_iff in Hx.
    destruct Hx as (i & <- & _). apply power_of_zeros. now apply Hblk.
Qed.

(** ** The counted loops *)

Lemma mean_amplitude_of_block N (s : list spec_float) k :
  1 <= N -> 0 <= k < Z.of_nat (length s) / (2 * N) ->
  mean_amplitude N (nth (Z.to_nat k) (complete_blocks (2 * N) s) [])
  = mean_root s N k.
Proof.
  intros HN Hk. unfold mean_amplitude, mean_root. f_equal.
  apply fold_left_ext_in. intros total i Hi. apply In_Zrange in Hi.
  unfold AmplitudeSum.sample_step.
  rewrite (at_complete_block N s k (i * 2 + 0)),
    (at_complete_block N s k (i * 2 + 1)) by lia.
  unfold in_phase_at, quadrature_at.
  replace (k * (2 * N) + (i * 2 + 0)) with (k * (2 * N) + 2 * i) by lia.
  now replace (k * (2 * N) + (i * 2 + 1)) with (k * (2 * N) + 2 * i + 1)
    by lia.
Qed.

Lemma amplitude_line_at N (s : list spec_float) k :
  1 <= N -> 0 <= k < Z.of_nat (length s) / (2 * N) ->
  nth (Z.to_nat k)
      (amplitude_lines N (number_from 0 (complete_blocks (2 * N) s)))
      (Line 0 F64.zero)
  = Line k (mean_root s N k).
Proof.
  intros HN Hk.
  assert (Hkn : (Z.to_nat k < length (complete_blocks (2 * N) s))%nat).
  { rewrite complete_blocks_length.
    rewrite <- (div_to_nat (length s) (2 * N)) by lia. lia. }
  unfold amplitude_lines.
  set (f := fun p : Z * list spec_float =>
              Line (fst p) (mean_amplitude N (snd p))).
  rewrite (nth_indep _ _ (f (0, [])))
    by (now rewrite length_map, number_from_length).
  rewrite (map_nth f). unfold f.
  rewrite number_from_nth by trivial. cbn [fst snd].
  rewrite mean_amplitude_of_block by lia. f_equal. lia.
Qed.

(** X5: on a file whose blocks an [int] counts, with at most 2^30 samples
    in a block, the amplitude-sum program returns 0 and writes one line
    for each complete block of the input, in order; line [k] carries the
    block number [k] and the mean amplitude of block [k] of the file: the
    [double] sum of the [N] roots of [I * I + Q * Q], divided by [N]. *)
Theorem amplitude_sum_lines w N s :
  all_ok w s -> 1 <= N <= 2 ^ 30 ->
  Z.of_nat (length s) / (2 * N) <= INT_MAX ->
  result (AmplitudeSum.main w N) = Exit 0 /\
  num_blocks (AmplitudeSum.main w N) = Z.of_nat (length s) / (2 * N) /\
  Z.of_nat (length (dat_file (AmplitudeSum.main w N)))
  = Z.of_nat (length s) / (2 * N) /\
  forall k, 0 <= k < Z.of_nat (length s) / (2 * N) ->
    nth (Z.to_nat k) (dat_file (AmplitudeSum.main w N)) (Line 0 F64.zero)
    = Line k (mean_root s N k).
Proof.
  intros Hw HN HB. rewrite amplitude_sum_main_lines with (s := s) by trivial.
  cbn [result num_blocks dat_file]. do 2 (split; [reflexivity|]).
  split.
  - unfold amplitude_lines.
    rewrite length_map, number_from_length, complete_blocks_length.
    apply div_of_nat. lia.
  - intros k Hk. apply amplitude_line_at; lia.
Qed.

(** X6: on a file whose blocks an [int] counts, with at most 2^30 samples
    in a block, rawreader, the older program, and the amplitude-sum program
    return 0 and write the same numbers for the same input and block size:
    one line for each complete block, with the same block numbers and the
    same mean amplitudes. *)
Theorem rawreader_same_as_amplitude_sum w N s :
  all_ok w s -> 1 <= N <= 2 ^ 30 ->
  Z.of_nat (length s) / (2 * N) <= INT_MAX ->
  result (Rawreader.main w N) = Exit 0 /\
  result (AmplitudeSum.main w N) = Exit 0 /\
  dat_file (Rawreader.main w N) = dat_file (AmplitudeSum.main w N) /\
  num_blocks (Rawreader.main w N) = num_blocks (AmplitudeSum.main w N) /\
  Z.of_nat (length (dat_file (Rawreader.main w N)))
  = Z.of_nat (length s) / (2 * N) /\
  forall k, 0 <= k < Z.of_nat (length s) / (2 * N) ->
    nth (Z.to_nat k) (dat_file (Rawreader.main w N)) (Line 0 F64.zero)
    = Line k (mean_root s N k).
Proof.
  intros Hw HN HB.
  rewrite amplitude_sum_main_lines with (s := s) by trivial.
  rewrite rawreader_main_lines with (s := s) by trivial.
  cbn [result dat_file num_blocks]. do 4 (split; [reflexivity|]).
  split.
  - unfold amplitude_lines.
    rewrite length_map, number_from_length, complete_blocks_length.
    apply div_of_nat. lia.
  - intros k Hk. apply amplitude_line_at; lia.
Qed.

Lemma fft_input_of_block N (s : list spec_float) k :
  1 <= N -> 0 <= k < Z.of_nat (length s) / (2 * N) ->
  PowerSpectrum.fft_input N (nth (Z.to_nat k) (complete_blocks (2 * N) s) [])
  = map (fun j => (F64.of_f32 (in_phase_at s N k j),
                   F64.of_f32 (quadrature_at s N k j)))
        (Zrange N).
Proof.
  intros HN Hk. unfold PowerSpectrum.fft_input.
  apply map_ext_in. intros j Hj. apply In_Zrange in Hj.
  rewrite (at_complete_block N s k (j * 2)),
    (at_complete_block N s k (j * 2 + 1)) by lia.
  unfold in_phase_at, quadrature_at.
  replace (k * (2 * N) + j * 2) with (k * (2 * N) + 2 * j) by lia.
  now replace (k * (2 * N) + (j * 2 + 1)) with (k * (2 * N) + 2 * j + 1)
    by lia.
Qed.

(** X7: on a file whose blocks an [int] counts, with at most 2^30 samples
    in a block, the power-spectrum program returns 0 and writes exactly
    [N] values for each complete block; the value at position [k * N + i]
    is [re * re + im * im] of bin [i] of the transform of block [k] of the
    file alone: nothing is carried from one block to the next. *)
Theorem power_spectrum_per_block X w N s :
  all_ok w s -> 1 <= N <= 2 ^ 30 ->
  Z.of_nat (length s) / (2 * N) <= INT_MAX ->
  result (PowerSpectrum.main X w N) = Exit 0 /\
  num_blocks (PowerSpectrum.main X w N) = Z.of_nat (length s) / (2 * N) /\
  Z.of_nat (length (f32_file (PowerSpectrum.main X w N)))
  = N * (Z.of_nat (length s) / (2 * N)) /\
  forall k i, 0 <= k < Z.of_nat (length s) / (2 * N) -> 0 <= i < N ->
    nth (Z.to_nat (k * N + i)) (f32_file (PowerSpectrum.main X w N))
        (Float32 F32.zero)
    = Float32 (line_power (spectral_line X s N k i)).
Proof.
  intros Hw HN HB.
  rewrite power_spectrum_main_values with (s := s) by trivial.
  cbn [result num_blocks f32_file]. do 2 (split; [reflexivity|]).
  assert (Hu : forall l, In l (map (spectrum_powers X N)
                                   (complete_blocks (2 * N) s)) ->
                         length l = Z.to_nat N).
  { intros l Hl. apply in_map_iff in Hl. destruct Hl as (b & <- & _).
    apply spectrum_powers_length. }
  split.
  - rewrite length_map, (length_concat_uniform _ _ _ Hu), length_map,
      complete_blocks_length, Nat2Z.inj_mul, div_of_nat by lia. lia.
  - intros k i Hk Hi.
    assert (Hkn : (Z.to_nat k < length (complete_blocks (2 * N) s))%nat).
    { rewrite complete_blocks_length.
      rewrite <- (div_to_nat (length s) (2 * N)) by lia. lia. }
    rewrite map_nth. f_equal.
    rewrite Z2Nat.inj_add, (Z2Nat.inj_mul k) by lia.
    rewrite (nth_concat_uniform _ _ _ _ _ _ Hu)
      by (rewrite ?length_map; trivial; lia).
    rewrite (nth_indep _ [] (spectrum_powers X N []))
      by (now rewrite length_map).
    rewrite map_nth. unfold spectrum_powers.
    rewrite nth_map_Zrange by lia.
    rewrite fft_input_of_block by lia.
    unfold PowerSpectrum.power, line_power, spectral_line.
    now destruct (nth _ _ _).
Qed.

(** ** The floats after the last complete block *)

Lemma complete_blocks_app c (s tail : list spec_float) k :
  0 < c -> Z.of_nat (length s) = k * c -> Z.of_nat (length tail) < c ->
  complete_blocks c (s ++ tail) = complete_blocks c s /\
  Z.of_nat (length (s ++ tail)) / c = Z.of_nat (length s) / c.
Proof.
  intros Hc Hs Ht.
  assert (Hk : 0 <= k) by nia.
  assert (Hd : Z.of_nat (length (s ++ tail)) / c = Z.of_nat (length s) / c).
  { rewrite length_app, Nat2Z.inj_add, Hs.
    rewrite Z.div_add_l, Z.div_mul, Z.div_small by lia. lia. }
  split; [|exact Hd].
  unfold complete_blocks.
  rewrite <- !div_to_nat, Hd by lia.
  apply map_ext_in. intros j Hj. apply in_seq in Hj.
  rewrite Hs, Z.div_mul in Hj by lia.
  unfold nth_block.
  assert (Hjc : (j * Z.to_nat c + Z.to_nat c <= length s)%nat) by nia.
  rewrite skipn_app, firstn_app, length_skipn.
  replace (j * Z.to_nat c - length s)%nat with 0%nat by lia.
  replace (Z.to_nat c - (length s - j * Z.to_nat c))%nat with 0%nat by lia.
  cbn [skipn firstn]. now rewrite app_nil_r.
Qed.

(** X8: in every mode, the floats that follow the last complete block
    never reach an output: a file and the same file followed by less than
    one block of further floats give the same exit status, the same number
    of blocks and the same output files.  The sizes are those within which
    the [int] arithmetic of the mode is defined. *)
Theorem tail_is_dropped X w w' m N s tail k :
  all_ok w s -> all_ok w' (s ++ tail) -> 2 <= N <= INT_MAX ->
  within_int m N (s ++ tail) ->
  Z.of_nat (length s) = k * per_block m N ->
  Z.of_nat (length tail) < per_block m N ->
  exists r r',
    run_mode X w m N = Some r /\ run_mode X w' m N = Some r' /\
    result r' = result r /\ num_blocks r' = num_blocks r /\
    f32_file r' = f32_file r /\ dat_file r' = dat_file r.
Proof.
  intros Hw Hw' HN Hi Hs Ht.
  assert (H1 : 1 <= N <= INT_MAX) by lia.
  assert (Hc : 0 < per_block m N) by (destruct m; cbn [per_block]; lia).
  destruct (complete_blocks_app (per_block m N) s tail k Hc Hs Ht)
    as (Eb & Ed).
  destruct m; cbn [run_mode per_block within_int] in *.
  - rewrite (amplitude_main_ok w N s), (amplitude_main_ok w' N (s ++ tail))
      by trivial.
    do 2 eexists. do 2 (split; [reflexivity|]).
    cbn [result num_blocks f32_file dat_file]. now rewrite Eb, Ed.
  - rewrite (power_main_ok w t N s), (power_main_ok w' t N (s ++ tail))
      by trivial. cbv zeta.
    do 2 eexists. do 2 (split; [reflexivity|]).
    cbn [result num_blocks f32_file dat_file]. now rewrite Eb, Ed.
  - rewrite (amplitude_sum_main_lines w N s),
      (amplitude_sum_main_lines w' N (s ++ tail)) by (trivial; lia).
    do 2 eexists. do 2 (split; [reflexivity|]).
    cbn [result num_blocks f32_file dat_file]. now rewrite Eb, Ed.
  - rewrite (power_spectrum_main_values X w N s),
      (power_spectrum_main_values X w' N (s ++ tail)) by (trivial; lia).
    do 2 eexists. do 2 (split; [reflexivity|]).
    cbn [result num_blocks f32_file dat_file]. now rewrite Eb, Ed.
  - rewrite (integrated_main_ok X w N s),
      (integrated_main_ok X w' N (s ++ tail)) by trivial. cbv zeta.
    do 2 eexists. do 2 (split; [reflexivity|]).
    cbn [result num_blocks f32_file dat_file]. now rewrite Eb, Ed.
  - rewrite (spectrogram_main_ok X w N s),
      (spectrogram_main_ok X w' N (s ++ tail)) by trivial.
    do 2 eexists. do 2 (split; [reflexivity|]).
    cbn [result num_blocks f32_file dat_file]. now rewrite Eb, Ed.
  - rewrite (rawreader_main_lines w N s),
      (rawreader_main_lines w' N (s ++ tail)) by (trivial; lia).
    do 2 eexists. do 2 (split; [reflexivity|]).
    cbn [result num_blocks f32_file dat_file]. now rewrite Eb, Ed.
Qed.

(** ** Failures before the block loop *)

(** X9: when the input file cannot be opened, the six calculate programs
    return 1 without processing a block or writing a value, whatever the
    block size; rawreader does not test the result of [fopen] and crashes
    on the null stream. *)
Theorem missing_input_file X w m arg :
  input w = None ->
  exists r,
    run_mode X w m arg = Some r /\
    result r = match m with MRawreader => Crash | _ => Exit 1 end /\
    num_blocks r = 0 /\ f32_file r = [] /\ dat_file r = [] /\
    left_by r = None.
Proof.
  intros Hin. destruct m; cbn [run_mode].
  - unfold Amplitude.main. rewrite Hin.
    destruct (to_size_t arg <? 2); eexists; split; try reflexivity;
      now repeat split.
  - unfold Power.main. rewrite Hin.
    eexists; split; [reflexivity|]. now repeat split.
  - unfold AmplitudeSum.main. rewrite Hin.
    destruct (malloc_ok w _); eexists; split; try reflexivity;
      now repeat split.
  - unfold PowerSpectrum.main. rewrite Hin.
    destruct (malloc_ok w (wrap64 (4 * arg * 2))),
             (malloc_ok w (wrap64 (16 * arg)));
      eexists; split; try reflexivity; now repeat split.
  - unfold Integrated.main. rewrite Hin.
    destruct (arg <=? 0), (malloc_ok w (wrap64 (8 * arg))),
             (malloc_ok w (wrap64 (4 * arg))), (plan_ok w),
             (malloc_ok w (wrap64 (to_int (2 * arg) * 4))),
             (malloc_ok w (wrap64 (arg * 4)));
      eexists; split; try reflexivity; now repeat split.
  - unfold Spectrogram.main. rewrite Hin.
    destruct (to_size_t arg <? 2); eexists; split; try reflexivity;
      now repeat split.
  - unfold Rawreader.main. rewrite Hin.
    eexists; split; [reflexivity|]. now repeat split.
Qed.

(** X10: the three programs that do not check [samples_per_block] divide
    by it when they compute the number of blocks: with the value 0 and an
    input that opens, the amplitude-sum, power-spectrum and rawreader
    programs crash on that division, after the input was opened and sized
    and before anything is written. *)
Theorem zero_block_size_divides_by_zero X w s :
  all_ok w s ->
  AmplitudeSum.main w 0 = stop Crash [] [InOpen; InSize] /\
  PowerSpectrum.main X w 0 = stop Crash [] [InOpen; InSize] /\
  Rawreader.main w 0 = stop Crash [] [InOpen; InSize].
Proof.
  intros Hw.
  unfold AmplitudeSum.main, PowerSpectrum.main, Rawreader.main.
  use_world Hw. repeat split.
Qed.

(** X11: a negative [samples_per_block] is not below 2 once stored in the
    [size_t] of the amplitude and spectrogram programs.  The test lets it
    through, the input is opened (the spectrogram program also writes its
    header) and no block can be read, the request being larger than any
    file; the run returns 1 when the allocation of the huge buffer fails,
    as it must in practice, and 0 otherwise. *)
Theorem negative_block_size_passes_check X w v s :
  - 2 ^ 31 <= v < 0 -> input w = Some s -> output_ok w = true ->
  Z.of_nat (length s) < 2 ^ 63 ->
  exists ra rs,
    Amplitude.main w v = Some ra /\ Spectrogram.main X w v = Some rs /\
    hd InSize (in_ops ra) = InOpen /\ hd InSize (in_ops rs) = InOpen /\
    num_blocks ra = 0 /\ num_blocks rs = 0 /\
    f32_file ra = [] /\ f32_file rs = [IntHeader v] /\
    (malloc_ok w (2 ^ 64 + 8 * v) = false -> result ra = Exit 1) /\
    (malloc_ok w (2 ^ 64 + 4 * v) = false -> result rs = Exit 1).
Proof.
  intros Hv Hin Hout Hlen.
  assert (Hsz : to_size_t v = 2 ^ 64 + v).
  { unfold to_size_t, wrap64.
    symmetry. apply (Z.mod_unique_pos _ _ (-1)); lia. }
  assert (Hint : to_int (2 ^ 64 + v) = v).
  { unfold to_int.
    replace (2 ^ 64 + v + 2 ^ 31) with (v + 2 ^ 31 + 2 ^ 32 * 2 ^ 32) by lia.
    rewrite Z.mod_add, Z.mod_small by lia. lia. }
  assert (Ha : wrap64 ((2 ^ 64 + v) * 2 * 4) = 2 ^ 64 + 8 * v).
  { unfold wrap64. symmetry. apply (Z.mod_unique_pos _ _ 7); lia. }
  assert (Hw2 : wrap64 ((2 ^ 64 + v) * 2) = 2 ^ 64 + 2 * v).
  { unfold wrap64. symmetry. apply (Z.mod_unique_pos _ _ 1); lia. }
  assert (Hs4 : wrap64 ((2 ^ 64 + v) * 4) = 2 ^ 64 + 4 * v).
  { unfold wrap64. symmetry. apply (Z.mod_unique_pos _ _ 3); lia. }
  unfold Amplitude.main, Spectrogram.main.
  rewrite Hsz, Hin, Hout, Hint, Ha, Hw2, Hs4. cbn [negb].
  replace (2 ^ 64 + v <? 2) with false by (symmetry; apply Z.ltb_ge; lia).
  assert (Ra : forall St (body : St -> list spec_float -> St) st0 ops want,
             Z.of_nat (length s) < want ->
             read_loop body (S (length s)) want s st0 0 ops =
             Some (st0, 0, ops ++ [InRead want (Z.of_nat (length s))])).
  { intros St body st0 ops want Hwant. cbn [read_loop fread].
    rewrite length_firstn, Nat.min_r by lia.
    now replace (Z.of_nat (length s) =? want) with false
      by (symmetry; apply Z.eqb_neq; lia). }
  rewrite !Ra by lia.
  destruct (malloc_ok w (2 ^ 64 + 8 * v)) eqn:Ma;
    destruct (malloc_ok w (wrap64 (8 * to_size_t v))
              && malloc_ok w (wrap64 (to_size_t v * 4))) eqn:Mi;
    destruct (plan_ok w) eqn:Pl;
    destruct (malloc_ok w (2 ^ 64 + 4 * v)) eqn:Mb;
    cbn [negb andb]; do 2 eexists;
    (split; [reflexivity|]); (split; [reflexivity|]);
    cbn [in_ops hd num_blocks f32_file result stop app];
    repeat split; try reflexivity; intros; congruence.
Qed.

(** ** File names and arguments *)

Section Names.
Import CString Cli.

Lemma equal_eq a : forall b, equal a b = true <-> a = b.
Proof.
  induction a as [|x a IH]; intros [|y b]; cbn; split; intros H;
    try discriminate; try reflexivity.
  - apply andb_prop in H. destruct H as (Hx & Ha).
    apply Ascii.eqb_eq in Hx. apply IH in Ha. now subst.
  - injection H as -> ->. rewrite Ascii.eqb_refl. cbn. now apply IH.
Qed.

Lemma strrchr_none s c : strrchr s c = None <-> ~ In c s.
Proof.
  induction s as [|x s IH]; cbn; [tauto|].
  destruct (strrchr s c) as [t|].
  - split; [discriminate|]. intros H. exfalso. apply H. right.
    destruct (in_dec ascii_dec c s) as [Hin|Hn]; [trivial|].
    apply IH in Hn. discriminate.
  - destruct (Ascii.eqb x c) eqn:E.
    + apply Ascii.eqb_eq in E. split; [discriminate|]. intros H. tauto.
    + apply Ascii.eqb_neq in E. split; [|reflexivity].
      intros _ [H|H]; [congruence|]. now apply IH in H.
Qed.

Lemma strrchr_some s c t :
  strrchr s c = Some t ->
  exists pre rest, s = pre ++ c :: rest /\ t = c :: rest /\ ~ In c rest.
Proof.
  revert t. induction s as [|x s IH]; intros t H; cbn in H; [discriminate|].
  destruct (strrchr s c) as [t'|] eqn:E.
  - injection H as <-. destruct (IH t' eq_refl) as (pre & rest & -> & -> & Hn).
    exists (x :: pre), rest. now repeat split.
  - destruct (Ascii.eqb x c) eqn:Ex; [|discriminate].
    apply Ascii.eqb_eq in Ex. injection H as <-. subst x.
    exists [], s. repeat split. now apply strrchr_none.
Qed.

Lemma strrchr_last pre c rest :
  ~ In c rest -> strrchr (pre ++ c :: rest) c = Some (c :: rest).
Proof.
  intros Hn. induction pre as [|x pre IH].
  - cbn. apply strrchr_none in Hn. rewrite Hn. now rewrite Ascii.eqb_refl.
  - cbn [app strrchr]. now rewrite IH.
Qed.

Lemma get_basename_of_name name :
  ~ In "/"%char name -> get_basename name = name.
Proof.
  intros H. unfold get_basename. apply strrchr_none in H. now rewrite H.
Qed.

Lemma get_basename_of_path dir name :
  ~ In "/"%char name -> get_basename (dir ++ "/"%char :: name) = name.
Proof.
  intros H. unfold get_basename. now rewrite strrchr_last.
Qed.

(** X12: [get_basename] returns the part of the path after its last
    slash: the result holds no slash, and the path is a directory part,
    empty or ending in a slash, followed by the result.  Applied again it
    changes nothing. *)
Theorem get_basename_spec path :
  ~ In "/"%char (get_basename path) /\
  (exists dir, path = dir ++ get_basename path /\
               (dir = [] \/ exists d, dir = d ++ ["/"%char])) /\
  get_basename (get_basename path) = get_basename path.
Proof.
  assert (H : ~ In "/"%char (get_basename path) /\
              exists dir, path = dir ++ get_basename path /\
                          (dir = [] \/ exists d, dir = d ++ ["/"%char])).
  { unfold get_basename. destruct (strrchr path "/"%char) as [t|] eqn:E.
    - destruct (strrchr_some _ _ _ E) as (pre & rest & -> & -> & Hn).
      cbn [tl]. split; [exact Hn|].
      exists (pre ++ ["/"%char]). rewrite <- app_assoc. split; [reflexivity|].
      right. now exists pre.
    - split; [now apply strrchr_none|]. exists []. split; [reflexivity|].
      now left. }
  destruct H as (Hn & Hd). repeat split; trivial.
  now apply get_basename_of_name.
Qed.

(** X13: [parse_output_type] gives raw for the string raw alone and both
    for the string both alone; every other string, sum included, gives
    the sum output. *)
Theorem parse_output_type_spec type_str :
  (parse_output_type type_str = Power.OUTPUT_RAW <-> type_str = text "raw") /\
  (parse_output_type type_str = Power.OUTPUT_BOTH
   <-> type_str = text "both") /\
  (type_str <> text "raw" -> type_str <> text "both" ->
   parse_output_type type_str = Power.OUTPUT_SUM).
Proof.
  unfold parse_output_type.
  destruct (equal type_str (text "sum")) eqn:Es;
    [apply equal_eq in Es; subst; cbn; repeat split; intros; try discriminate;
     reflexivity|].
  destruct (equal type_str (text "raw")) eqn:Er.
  - apply equal_eq in Er. subst. repeat split; intros; try discriminate;
      try reflexivity; congruence.
  - destruct (equal type_str (text "both")) eqn:Eb.
    + apply equal_eq in Eb. subst. repeat split; intros; try discriminate;
        try reflexivity; congruence.
    + assert (type_str <> text "raw")
        by (intros E; apply equal_eq in E; congruence).
      assert (type_str <> text "both")
        by (intros E; apply equal_eq in E; congruence).
      repeat split; intros; try discriminate; try reflexivity; congruence.
Qed.
End Names.

Section Fields.
Import CString Cli.

Lemma digit_of_digit_char d :
  0 <= d <= 9 -> digit_of (digit_char d) = Some d.
Proof.
  intros H.
  assert (C : d = 0 \/ d = 1 \/ d = 2 \/ d = 3 \/ d = 4 \/ d = 5 \/ d = 6 \/
              d = 7 \/ d = 8 \/ d = 9) by lia.
  repeat (destruct C as [C | C]; [subst d; reflexivity|]). now subst d.
Qed.

Lemma digit_char_plain d :
  0 <= d <= 9 ->
  digit_char d <> "_"%char /\ digit_char d <> "/"%char /\
  isspace (digit_char d) = false /\
  digit_char d <> "-"%char /\ digit_char d <> "+"%char.
Proof.
  intros H.
  assert (C : d = 0 \/ d = 1 \/ d = 2 \/ d = 3 \/ d = 4 \/ d = 5 \/ d = 6 \/
              d = 7 \/ d = 8 \/ d = 9) by lia.
  repeat (destruct C as [C | C]; [subst d; repeat split; discriminate|]).
  subst d. repeat split; discriminate.
Qed.

Lemma numeral_plain ds c :
  Forall (fun d => 0 <= d <= 9) ds ->
  c = "_"%char \/ c = "/"%char -> ~ In c (numeral ds).
Proof.
  intros Hd Hc Hin. unfold numeral in Hin. apply in_map_iff in Hin.
  destruct Hin as (d & E & Hin).
  rewrite Forall_forall in Hd. specialize (Hd d Hin).
  destruct (digit_char_plain d Hd) as (H1 & H2 & _).
  destruct Hc; congruence.
Qed.

Lemma digits_value_numeral ds tail : forall acc,
  Forall (fun d => 0 <= d <= 9) ds ->
  match tail with [] => True | c :: _ => digit_of c = None end ->
  digits_value (numeral ds ++ tail) acc
  = fold_left (fun a d => 10 * a + d) ds acc.
Proof.
  induction ds as [|d ds IH]; intros acc Hd Ht.
  - cbn. destruct tail as [|c tail]; [reflexivity|]. cbn. now rewrite Ht.
  - inversion Hd as [|? ? Hd1 Hd2]; subst. cbn [numeral map app digits_value].
    rewrite digit_of_digit_char by trivial. cbn [fold_left].
    now apply IH.
Qed.

(** [atoi] reads a numeral up to the first character that is not a
    digit. *)
Lemma atoi_numeral ds tail :
  ds <> [] -> Forall (fun d => 0 <= d <= 9) ds ->
  match tail with [] => True | c :: _ => digit_of c = None end ->
  atoi (numeral ds ++ tail) = decimal ds.
Proof.
  intros Hne Hd Ht. destruct ds as [|d ds]; [congruence|].
  pose proof (digits_value_numeral (d :: ds) tail 0 Hd Ht) as E.
  inversion Hd as [|? ? Hd1 Hd2]; subst.
  destruct (digit_char_plain d Hd1) as (_ & _ & Hs & Hm & Hp).
  unfold atoi. cbn [numeral map app skip_spaces] in *. rewrite Hs.
  destruct (digit_char d) as [b0 b1 b2 b3 b4 b5 b6 b7] eqn:Ec.
  unfold decimal. rewrite <- E.
  destruct b0, b1, b2, b3, b4, b5, b6, b7; try reflexivity; congruence.
Qed.

Lemma token_end_plain d c s :
  c <> d -> token_end d (c :: s)
            = (c :: fst (token_end d s), snd (token_end d s)).
Proof.
  intros H. cbn. apply Ascii.eqb_neq in H. rewrite H.
  now destruct (token_end d s).
Qed.

Lemma token_end_field d f rest :
  ~ In d f -> token_end d (f ++ d :: rest) = (f, rest).
Proof.
  induction f as [|c f IH]; intros H.
  - cbn. now rewrite Ascii.eqb_refl.
  - cbn [app]. rewrite token_end_plain by (intros ->; apply H; now left).
    rewrite IH by (intros Hin; apply H; now right). reflexivity.
Qed.

Lemma strtok_field d f rest :
  f <> [] -> ~ In d f -> strtok d (f ++ d :: rest) = Some (f, rest).
Proof.
  intros Hne Hn. destruct f as [|c f]; [congruence|].
  unfold strtok. cbn [app skip_delims].
  assert (Hc : c <> d) by (intros ->; apply Hn; now left).
  apply Ascii.eqb_neq in Hc. rewrite Hc.
  change (c :: f ++ d :: rest) with ((c :: f) ++ d :: rest).
  now rewrite token_end_field.
Qed.

Lemma token_end_numeral ds tail :
  Forall (fun d => 0 <= d <= 9) ds ->
  match tail with [] => True | c :: _ => digit_of c = None end ->
  exists tail' rest,
    token_end "_"%char (numeral ds ++ tail) = (numeral ds ++ tail', rest) /\
    match tail' with [] => True | c :: _ => digit_of c = None end.
Proof.
  intros Hd Ht. induction ds as [|d ds IH].
  - cbn [numeral map app]. destruct tail as [|c tail].
    + exists [], []. now split.
    + destruct (Ascii.eqb c "_"%char) eqn:E.
      * exists [], tail. cbn. rewrite E. now split.
      * apply Ascii.eqb_neq in E. rewrite token_end_plain by trivial.
        exists (c :: fst (token_end "_"%char tail)),
               (snd (token_end "_"%char tail)).
        now split.
  - inversion Hd as [|? ? Hd1 Hd2]; subst.
    destruct (IH Hd2) as (tail' & rest & E & Ht').
    destruct (digit_char_plain d Hd1) as (Hu & _).
    cbn [numeral map app]. rewrite token_end_plain by trivial.
    fold (numeral ds). rewrite E. cbn [fst snd].
    exists tail', rest. now split.
Qed.

(** The token that starts with a numeral is the numeral followed by text
    that does not start with a digit. *)
Lemma token_of_numeral ds tail :
  ds <> [] -> Forall (fun d => 0 <= d <= 9) ds ->
  match tail with [] => True | c :: _ => digit_of c = None end ->
  exists tail' rest,
    strtok "_"%char (numeral ds ++ tail) = Some (numeral ds ++ tail', rest) /\
    match tail' with [] => True | c :: _ => digit_of c = None end.
Proof.
  intros Hne Hd Ht.
  destruct (token_end_numeral ds tail Hd Ht) as (tail' & rest & E & Ht').
  exists tail', rest. split; [|exact Ht'].
  destruct ds as [|d ds]; [congruence|].
  inversion Hd as [|? ? Hd1 Hd2]; subst.
  destruct (digit_char_plain d Hd1) as (Hu & _).
  unfold strtok. cbn [numeral map app skip_delims] in *.
  apply Ascii.eqb_neq in Hu. rewrite Hu. now rewrite E.
Qed.

Lemma strstr_underscore f rest :
  ~ In "_"%char f ->
  strstr (f ++ "_"%char :: rest) (text "_") = Some ("_"%char :: rest).
Proof.
  induction f as [|c f IH]; intros H.
  - reflexivity.
  - cbn [app]. unfold strstr; fold strstr. cbn [starts_with text
      list_ascii_of_string].
    assert (Hc : "_"%char <> c) by (intros <-; apply H; now left).
    apply Ascii.eqb_neq in Hc. rewrite Hc. cbn [andb].
    apply IH. intros Hin. apply H. now right.
Qed.

Lemma gqrx_name_length_fields f1 f2 f3 f4 ds tail :
  plain_field f1 -> plain_field f2 -> plain_field f3 -> plain_field f4 ->
  Forall (fun d => 0 <= d <= 9) ds -> after_digits tail ->
  ~ In "/"%char (gqrx_name f1 f2 f3 f4 ds tail).
Proof.
  intros (_ & _ & H1) (_ & _ & H2) (_ & _ & H3) (_ & _ & H4) Hd (Ht & _).
  unfold gqrx_name. intros Hin.
  repeat (apply in_app_or in Hin; destruct Hin as [Hin|Hin]; [tauto|];
          destruct Hin as [Hin|Hin]; [discriminate|]).
  apply in_app_or in Hin. destruct Hin as [Hin|Hin]; [|tauto].
  revert Hin. apply numeral_plain; [trivial | now right].
Qed.

(** Both ways of reading the block size from a name of the usual form. *)
Lemma samples_of_gqrx_name dir f1 f2 f3 f4 ds tail :
  plain_field f1 -> plain_field f2 -> plain_field f3 -> plain_field f4 ->
  ds <> [] -> Forall (fun d => 0 <= d <= 9) ds -> after_digits tail ->
  (length (gqrx_name f1 f2 f3 f4 ds tail) <= 255)%nat ->
  dir = [] \/ (exists d, dir = d ++ ["/"%char]) ->
  samples_from_fields (dir ++ gqrx_name f1 f2 f3 f4 ds tail)
  = Some (decimal ds) /\
  samples_from_underscores (dir ++ gqrx_name f1 f2 f3 f4 ds tail)
  = decimal ds.
Proof.
  intros F1 F2 F3 F4 Hne Hd Ht Hlen Hdir.
  assert (Hb : get_basename (dir ++ gqrx_name f1 f2 f3 f4 ds tail)
               = gqrx_name f1 f2 f3 f4 ds tail).
  { pose proof (gqrx_name_length_fields f1 f2 f3 f4 ds tail F1 F2 F3 F4 Hd Ht).
    destruct Hdir as [-> | (d & ->)].
    - now apply get_basename_of_name.
    - rewrite <- app_assoc. now apply get_basename_of_path. }
  destruct F1 as (N1 & U1 & _), F2 as (N2 & U2 & _), F3 as (N3 & U3 & _),
           F4 as (N4 & U4 & _). destruct Ht as (_ & Ht).
  unfold samples_from_fields, samples_from_underscores. rewrite Hb.
  unfold strncpy. rewrite firstn_all2 by exact Hlen. unfold gqrx_name.
  split.
  - cbn [field_after]. rewrite !strtok_field by trivial.
    destruct (token_of_numeral ds tail Hne Hd Ht) as (tail' & rest & E & Ht').
    rewrite E. cbn [option_map]. f_equal. now apply atoi_numeral.
  - cbn [after_underscores]. rewrite !strstr_underscore by trivial.
    cbn [tl]. rewrite strstr_underscore by trivial. cbn [tl].
    rewrite strstr_underscore by trivial. cbn [tl].
    rewrite strstr_underscore by trivial. cbn [tl].
    now apply atoi_numeral.
Qed.

(** X14: for a file whose base name is [f1_f2_f3_f4_<digits><tail>], with
    four fields that are not empty, at most 255 characters in all and
    digits that write a number an [int] can hold, the two ways of the
    programs to find the block size agree: the fifth [strtok] field read
    by [atoi] (amplitude, amplitude-sum, power-spectrum, spectrogram) and
    [atoi] after the fourth underscore (power, integrated power spectrum)
    both give the number that the digits write, whatever directory part
    precedes the name. *)
Theorem block_size_from_name dir f1 f2 f3 f4 ds tail :
  plain_field f1 -> plain_field f2 -> plain_field f3 -> plain_field f4 ->
  ds <> [] -> Forall (fun d => 0 <= d <= 9) ds -> after_digits tail ->
  (length (gqrx_name f1 f2 f3 f4 ds tail) <= 255)%nat ->
  dir = [] \/ (exists d, dir = d ++ ["/"%char]) ->
  decimal ds <= INT_MAX ->
  samples_from_fields (dir ++ gqrx_name f1 f2 f3 f4 ds tail)
  = Some (decimal ds) /\
  samples_from_underscores (dir ++ gqrx_name f1 f2 f3 f4 ds tail)
  = decimal ds.
Proof.
  intros F1 F2 F3 F4 Hne Hd Ht Hlen Hdir _.
  now apply samples_of_gqrx_name.
Qed.
End Fields.

Section FewFields.
Import CString Cli.

Lemma underscores_app a b : underscores (a ++ b) = (underscores a + underscores b)%nat.
Proof. apply count_occ_app. Qed.

Lemma underscores_firstn n s : (underscores (firstn n s) <= underscores s)%nat.
Proof.
  rewrite <- (firstn_skipn n s) at 2. rewrite underscores_app. lia.
Qed.

Lemma skip_delims_underscores s :
  (underscores (skip_delims "_"%char s) <= underscores s)%nat.
Proof.
  induction s as [|c s IH]; [cbn; lia|].
  cbn [skip_delims]. destruct (Ascii.eqb c "_"%char) eqn:E; [|lia].
  apply Ascii.eqb_eq in E. subst c. unfold underscores in *.
  rewrite count_occ_cons_eq by reflexivity. lia.
Qed.

Lemma token_end_underscores s :
  snd (token_end "_"%char s) = [] \/
  (underscores (snd (token_end "_"%char s)) < underscores s)%nat.
Proof.
  induction s as [|c s IH]; [now left|].
  cbn [token_end]. destruct (Ascii.eqb c "_"%char) eqn:E.
  - apply Ascii.eqb_eq in E. subst c. right. cbn [snd]. unfold underscores.
    rewrite count_occ_cons_eq by reflexivity. lia.
  - destruct (token_end "_"%char s) as (t, r). cbn [snd] in *.
    destruct IH as [IH|IH]; [now left|right].
    apply Ascii.eqb_neq in E. unfold underscores in *.
    rewrite count_occ_cons_neq by trivial. exact IH.
Qed.

Lemma strtok_underscores s t r :
  strtok "_"%char s = Some (t, r) ->
  r = [] \/ (underscores r < underscores s)%nat.
Proof.
  unfold strtok. pose proof (skip_delims_underscores s) as Hs.
  destruct (skip_delims "_"%char s) as [|c s'] eqn:E; [discriminate|].
  intros H.
  assert (H' : token_end "_"%char (c :: s') = (t, r)) by congruence.
  pose proof (token_end_underscores (c :: s')) as Ht. rewrite H' in Ht.
  cbn [snd] in Ht. destruct Ht as [Ht|Ht]; [now left | right; lia].
Qed.

Lemma field_after_underscores n : forall s t,
  field_after n s = Some t -> (n <= underscores s)%nat.
Proof.
  induction n as [|n IH]; intros s t H; [lia|].
  cbn [field_after] in H.
  destruct (strtok "_"%char s) as [(t', r)|] eqn:E; [|discriminate].
  destruct (strtok_underscores s t' r E) as [-> | Hr].
  - destruct n; discriminate H.
  - apply IH in H. lia.
Qed.

Lemma strstr_underscore_some s t :
  strstr s (text "_") = Some t ->
  exists rest, t = "_"%char :: rest /\ (underscores rest < underscores s)%nat.
Proof.
  induction s as [|c s IH]; intros H; [discriminate|].
  unfold strstr in H; fold strstr in H.
  cbn [starts_with text list_ascii_of_string] in H.
  destruct (Ascii.eqb "_"%char c) eqn:E; cbn [andb] in H.
  - apply Ascii.eqb_eq in E. subst c. injection H as <-.
    exists s. split; [reflexivity|]. unfold underscores.
    rewrite count_occ_cons_eq by reflexivity. lia.
  - destruct (IH H) as (rest & -> & Hr). exists rest. split; [reflexivity|].
    apply Ascii.eqb_neq in E. unfold underscores in *.
    rewrite count_occ_cons_neq by congruence. exact Hr.
Qed.

Lemma after_underscores_some n : forall s r,
  after_underscores n s = Some r -> (n <= underscores s)%nat.
Proof.
  induction n as [|n IH]; intros s r H; [lia|].
  cbn [after_underscores] in H.
  destruct (strstr s (text "_")) as [t|] eqn:E; [|discriminate].
  destruct (strstr_underscore_some s t E) as (rest & -> & Hr).
  cbn [tl] in H. apply IH in H. lia.
Qed.

(** X15: when the base name of the only argument holds fewer than four
    underscores, no program finds a block size in it: the four programs
    that split the name into fields stop with status 1 before they touch
    the input, the integrated power spectrum program finds 0 and stops the
    same way, and the power program, which has opened the input by then,
    finds 0 and returns 1 without reading. *)
Theorem too_few_fields X w path :
  (underscores (get_basename path) < 4)%nat ->
  samples_from_fields path = None /\
  samples_from_underscores path = 0 /\
  Cli.amplitude w [path] = Some (stop (Exit 1) [] []) /\
  Cli.spectrogram X w [path] = Some (stop (Exit 1) [] []) /\
  Cli.amplitude_sum w [path] = stop (Exit 1) [] [] /\
  Cli.power_spectrum X w [path] = stop (Exit 1) [] [] /\
  Cli.integrated X w [path] = Some (stop (Exit 1) [] []) /\
  Cli.power w [path] = Some (stop (Exit 1) [] [InOpen]).
Proof.
  intros Hu.
  assert (Hf : samples_from_fields path = None).
  { unfold samples_from_fields.
    destruct (field_after 4 (strncpy 255 (get_basename path))) as [t|] eqn:E;
      [|reflexivity].
    apply field_after_underscores in E.
    pose proof (underscores_firstn 255 (get_basename path)).
    unfold strncpy in E. lia. }
  assert (Hs : samples_from_underscores path = 0).
  { unfold samples_from_underscores.
    destruct (after_underscores 4 (get_basename path)) as [r|] eqn:E;
      [|reflexivity].
    apply after_underscores_some in E. lia. }
  repeat split; trivial.
  - unfold Cli.amplitude. now rewrite Hf.
  - unfold Cli.spectrogram. now rewrite Hf.
  - unfold Cli.amplitude_sum. now rewrite Hf.
  - unfold Cli.power_spectrum. now rewrite Hf.
  - unfold Cli.integrated, integrated_block_size. cbn [hd_error]. now rewrite Hs.
  - unfold Cli.power, power_arguments. cbn [take_output_type hd nth_error].
    unfold power_block_size. rewrite Hs. unfold Power.main.
    now destruct (input w).
Qed.
End FewFields.

Section Arguments.
Import CString Cli.

Lemma take_output_type_cons a b l :
  take_output_type (a :: b :: l) =
  if equal a (text "--output-type") then Some (parse_output_type b, l)
  else match take_output_type (b :: l) with
       | Some (t, l') => Some (t, a :: l')
       | None => None
       end.
Proof. reflexivity. Qed.

Lemma take_output_type_none args :
  ~ In (text "--output-type") (removelast args) ->
  take_output_type args = None.
Proof.
  induction args as [|a args IH]; intros H; [reflexivity|].
  destruct args as [|b args]; [reflexivity|].
  rewrite take_output_type_cons.
  destruct (equal a (text "--output-type")) eqn:E.
  - apply equal_eq in E. subst a. exfalso. apply H. now left.
  - rewrite IH; [reflexivity|]. intros Hin. apply H. now right.
Qed.

Lemma take_output_type_found pre type_str post :
  ~ In (text "--output-type") pre ->
  take_output_type (pre ++ text "--output-type" :: type_str :: post)
  = Some (parse_output_type type_str, pre ++ post).
Proof.
  induction pre as [|a pre IH]; intros H.
  - cbn [app]. rewrite take_output_type_cons.
    now rewrite (proj2 (equal_eq _ _) eq_refl).
  - cbn [app]. destruct (pre ++ text "--output-type" :: type_str :: post)
      as [|b l] eqn:El; [now destruct pre|].
    rewrite take_output_type_cons.
    destruct (equal a (text "--output-type")) eqn:E.
    + apply equal_eq in E. subst a. exfalso. apply H. now left.
    + rewrite IH; [reflexivity|]. intros Hin. apply H. now right.
Qed.

(** X16: the option [--output-type TYPE] of calculate_power.c may stand
    anywhere among the arguments: the first one that has a value after it
    sets the output type and is taken out with its value, and the other
    arguments keep their order.  Without it, or when it is the last
    argument and has no value, the output type is sum and the arguments
    are left as they are. *)
Theorem output_type_option :
  (forall pre type_str post,
      ~ In (text "--output-type") pre ->
      power_arguments (pre ++ text "--output-type" :: type_str :: post)
      = (parse_output_type type_str, pre ++ post)) /\
  (forall args,
      ~ In (text "--output-type") (removelast args) ->
      power_arguments args = (Power.OUTPUT_SUM, args)).
Proof.
  split.
  - intros pre type_str post H. unfold power_arguments.
    now rewrite take_output_type_found.
  - intros args H. unfold power_arguments.
    now rewrite take_output_type_none.
Qed.

Lemma gqrx_name_not_option f1 f2 f3 f4 ds tail dir :
  dir ++ gqrx_name f1 f2 f3 f4 ds tail <> text "--output-type".
Proof.
  intros E.
  assert (H : In "_"%char (dir ++ gqrx_name f1 f2 f3 f4 ds tail)).
  { apply in_or_app. right. unfold gqrx_name. apply in_or_app. right.
    now left. }
  rewrite E in H. cbn in H.
  repeat (destruct H as [H|H]; [discriminate|]). exact H.
Qed.

(** X17: when a second argument is given next to a file named
    [f1_f2_f3_f4_<digits>...] whose digits write a positive number (both
    numbers such that an [int] holds them), the integrated power spectrum
    program takes its block size from the file name and does not look at
    the argument, while the power and amplitude programs take the argument
    and do not look at the name.  Without a second argument the three
    programs take the block size from the name. *)
Theorem block_size_argument_or_name X w dir f1 f2 f3 f4 ds tail second :
  plain_field f1 -> plain_field f2 -> plain_field f3 -> plain_field f4 ->
  ds <> [] -> Forall (fun d => 0 <= d <= 9) ds -> after_digits tail ->
  (length (gqrx_name f1 f2 f3 f4 ds tail) <= 255)%nat ->
  dir = [] \/ (exists d, dir = d ++ ["/"%char]) ->
  0 < decimal ds <= INT_MAX -> - 2 ^ 31 <= atoi second <= INT_MAX ->
  Cli.integrated X w [dir ++ gqrx_name f1 f2 f3 f4 ds tail; second]
  = Integrated.main X w (decimal ds) /\
  Cli.power w [dir ++ gqrx_name f1 f2 f3 f4 ds tail; second]
  = Power.main w Power.OUTPUT_SUM (atoi second) /\
  Cli.amplitude w [dir ++ gqrx_name f1 f2 f3 f4 ds tail; second]
  = Amplitude.main w (atoi second) /\
  Cli.integrated X w [dir ++ gqrx_name f1 f2 f3 f4 ds tail]
  = Integrated.main X w (decimal ds) /\
  Cli.power w [dir ++ gqrx_name f1 f2 f3 f4 ds tail]
  = Power.main w Power.OUTPUT_SUM (decimal ds) /\
  Cli.amplitude w [dir ++ gqrx_name f1 f2 f3 f4 ds tail]
  = Amplitude.main w (decimal ds).
Proof.
  intros F1 F2 F3 F4 Hne Hd Ht Hlen Hdir Hpos _.
  destruct (samples_of_gqrx_name dir f1 f2 f3 f4 ds tail
              F1 F2 F3 F4 Hne Hd Ht Hlen Hdir) as (Ef & Eu).
  repeat split.
  - unfold Cli.integrated, integrated_block_size. cbn [hd_error]. rewrite Eu.
    now replace (decimal ds <=? 0) with false
      by (symmetry; apply Z.leb_gt; lia).
  - unfold Cli.power, power_arguments.
    rewrite take_output_type_none; [reflexivity|].
    cbn [removelast]. intros [H|[]].
    now apply (gqrx_name_not_option f1 f2 f3 f4 ds tail dir).
  - unfold Cli.integrated, integrated_block_size. cbn [hd_error].
    now rewrite Eu.
  - unfold Cli.power, power_arguments.
    rewrite take_output_type_none by (cbn [removelast]; tauto).
    cbn [hd nth_error]. unfold power_block_size, samples_from_underscores in *.
    now rewrite Eu.
  - unfold Cli.amplitude. now rewrite Ef.
Qed.
End Arguments.

Section OutputNames.
Import CString Cli.

Lemma without_raw_length path : (length (without_raw path) <= 255)%nat.
Proof.
  unfold without_raw, strncpy.
  pose proof (firstn_le_length 255 (get_basename path)) as H1.
  assert (H2 : (length (firstn 255 (get_basename path)) <= 255)%nat)
    by (rewrite length_firstn; lia).
  destruct (strrchr _ _) as [dot|]; [|exact H2].
  destruct (equal dot (text ".raw")); [|exact H2].
  rewrite length_firstn. lia.
Qed.

Lemma without_extension_length size path stem :
  without_extension size path = Some stem -> (0 < size)%nat ->
  (length stem < size)%nat.
Proof.
  unfold without_extension, strncpy. intros H Hs.
  destruct (strrchr _ _) as [dot|].
  - destruct (_ <? size)%nat eqn:E; [|discriminate].
    apply Nat.ltb_lt in E. injection H as <-. rewrite length_firstn. lia.
  - injection H as <-. rewrite length_firstn. lia.
Qed.

Lemma snprintf_fits size t :
  (length t < size)%nat -> snprintf size t = t.
Proof. intros H. unfold snprintf. apply firstn_all2. lia. Qed.

Lemma output_names_fit_aux path :
  amplitude_outfile path
  = Some (text "waterfall_" ++ without_raw path ++ text ".f32") /\
  spectrogram_outfile path
  = Some (text "spectrogram_" ++ without_raw path ++ text ".f32") /\
  amplitude_sum_outfile path
  = text "amplitude_" ++ without_raw path ++ text ".dat" /\
  power_spectrum_outfile path
  = text "power_spectrum_" ++ without_raw path ++ text ".f32" /\
  (forall stem,
      without_extension 256 path = Some stem ->
      power_outfile ".f32" path = Some (text "power_" ++ stem ++ text ".f32") /\
      power_outfile ".dat" path = Some (text "power_" ++ stem ++ text ".dat")) /\
  (forall stem,
      without_extension 512 path = Some stem ->
      integrated_outfile path
      = Some (text "integrated_power_spectrum_" ++ stem ++ text ".dat")).
Proof.
  pose proof (without_raw_length path) as Hl.
  unfold amplitude_outfile, spectrogram_outfile, amplitude_sum_outfile,
    power_spectrum_outfile.
  repeat split.
  - replace (512 <? _)%nat with false
      by (symmetry; apply Nat.ltb_ge; cbn; lia).
    rewrite snprintf_fits; [reflexivity|]. rewrite !length_app. cbn. lia.
  - replace (512 <? _)%nat with false
      by (symmetry; apply Nat.ltb_ge; cbn; lia).
    rewrite snprintf_fits; [reflexivity|]. rewrite !length_app. cbn. lia.
  - rewrite snprintf_fits; [reflexivity|]. rewrite !length_app. cbn. lia.
  - rewrite snprintf_fits; [reflexivity|]. rewrite !length_app. cbn. lia.
  - unfold power_outfile. rewrite H. cbn [option_map].
    apply without_extension_length in H; [|lia].
    rewrite snprintf_fits; [reflexivity|]. rewrite !length_app. cbn. lia.
  - unfold power_outfile. rewrite H. cbn [option_map].
    apply without_extension_length in H; [|lia].
    rewrite snprintf_fits; [reflexivity|]. rewrite !length_app. cbn. lia.
  - intros stem H. unfold integrated_outfile. rewrite H. cbn [option_map].
    apply without_extension_length in H; [|lia].
    rewrite snprintf_fits; [reflexivity|]. rewrite !length_app. cbn. lia.
Qed.


(** X18: the output names always fit.  The test on the length of the name
    in calculate_amplitude.c and calculate_spectrogram.c cannot fail, since
    the base name was cut to 255 characters before, and [snprintf] never
    shortens the name in any of the six programs: not in the 270 and 280
    byte buffers of the amplitude-sum and power-spectrum programs, and not
    in the power and integrated programs whenever the copy of the base
    name stayed inside its buffer. *)
Theorem output_names_fit path :
  amplitude_outfile path
  = Some (text "waterfall_" ++ without_raw path ++ text ".f32") /\
  spectrogram_outfile path
  = Some (text "spectrogram_" ++ without_raw path ++ text ".f32") /\
  amplitude_sum_outfile path
  = text "amplitude_" ++ without_raw path ++ text ".dat" /\
  power_spectrum_outfile path
  = text "power_spectrum_" ++ without_raw path ++ text ".f32" /\
  (forall stem,
      without_extension 256 path = Some stem ->
      power_outfile ".f32" path = Some (text "power_" ++ stem ++ text ".f32") /\
      power_outfile ".dat" path = Some (text "power_" ++ stem ++ text ".dat")) /\
  (forall stem,
      without_extension 512 path = Some stem ->
      integrated_outfile path
      = Some (text "integrated_power_spectrum_" ++ stem ++ text ".dat")).
Proof. apply output_names_fit_aux. Qed.

(** X19: for an input [dir/stem.raw] whose base name has at most 255
    characters, the six programs put the same stem in their output names:
    the four that cut only [.raw] and the two that cut any extension give
    waterfall_stem.f32, spectrogram_stem.f32, amplitude_stem.dat,
    power_spectrum_stem.f32, power_stem.f32 and .dat, and
    integrated_power_spectrum_stem.dat. *)
Theorem output_names_of_raw dir stem :
  ~ In "/"%char stem -> (length stem + 4 <= 255)%nat ->
  dir = [] \/ (exists d, dir = d ++ ["/"%char]) ->
  let path := dir ++ stem ++ text ".raw" in
  amplitude_outfile path = Some (text "waterfall_" ++ stem ++ text ".f32") /\
  spectrogram_outfile path
  = Some (text "spectrogram_" ++ stem ++ text ".f32") /\
  amplitude_sum_outfile path = text "amplitude_" ++ stem ++ text ".dat" /\
  power_spectrum_outfile path
  = text "power_spectrum_" ++ stem ++ text ".f32" /\
  power_outfile ".f32" path = Some (text "power_" ++ stem ++ text ".f32") /\
  power_outfile ".dat" path = Some (text "power_" ++ stem ++ text ".dat") /\
  integrated_outfile path
  = Some (text "integrated_power_spectrum_" ++ stem ++ text ".dat").
Proof.
  intros Hs Hlen Hdir path.
  assert (Hb : get_basename path = stem ++ text ".raw").
  { assert (Hn : ~ In "/"%char (stem ++ text ".raw")).
    { intros Hin. apply in_app_or in Hin. destruct Hin as [Hin|Hin]; [tauto|].
      cbn in Hin. repeat (destruct Hin as [Hin|Hin]; [discriminate|]).
      exact Hin. }
    unfold path. destruct Hdir as [-> | (d & ->)].
    - now apply get_basename_of_name.
    - rewrite <- app_assoc. now apply get_basename_of_path. }
  assert (Hdot : strrchr (stem ++ text ".raw") "."%char = Some (text ".raw")).
  { change (text ".raw") with ("."%char :: text "raw").
    apply strrchr_last. cbn. intros H.
    repeat (destruct H as [H|H]; [discriminate|]). exact H. }
  assert (Hraw : without_raw path = stem).
  { unfold without_raw, strncpy. rewrite Hb.
    rewrite firstn_all2 by (rewrite length_app; cbn; lia).
    rewrite Hdot. rewrite (proj2 (equal_eq _ _) eq_refl).
    rewrite length_app. cbn [length text list_ascii_of_string].
    replace (length stem + 4 - 4)%nat with (length stem) by lia.
    rewrite firstn_app, firstn_all, Nat.sub_diag. cbn. apply app_nil_r. }
  assert (Hext : forall size, (256 <= size)%nat ->
                              without_extension size path = Some stem).
  { intros size Hsz. unfold without_extension. rewrite Hb, Hdot.
    rewrite length_app. cbn [length text list_ascii_of_string].
    replace (length stem + 4 - 4)%nat with (length stem) by lia.
    replace (length stem <? size)%nat with true
      by (symmetry; apply Nat.ltb_lt; lia).
    rewrite firstn_app, firstn_all, Nat.sub_diag. cbn.
    now rewrite app_nil_r. }
  destruct (output_names_fit_aux path) as (A & B & C & D & E & F).
  rewrite A, B, C, D, Hraw.
  destruct (E stem (Hext 256%nat (Nat.le_refl _))) as (E1 & E2).
  rewrite E1, E2, (F stem (Hext 512%nat ltac:(lia))).
  repeat split.
Qed.
End OutputNames.

(** ** What is released *)

Section Release.
Import Resources.

(** X20: [init_fft] never leaves anything behind when it fails: whichever
    of the structure, the two arrays and the plan cannot be had, what was
    obtained before is freed, and nothing is freed that was not obtained.
    When it succeeds, exactly the structure, the two arrays and the plan
    are held, and [cleanup_fft] releases the four. *)
Theorem init_fft_releases_on_failure ok :
  (fst (init_fft ok) = false -> held_after (snd (init_fft ok)) [] = Some []) /\
  (fst (init_fft ok) = true ->
   held_after (snd (init_fft ok)) [] = Some [Plan; FftOut; FftIn; Config] /\
   held_after (snd (init_fft ok) ++ cleanup_fft) [] = Some []).
Proof.
  unfold init_fft, get, put.
  destruct (ok Config), (ok FftIn), (ok FftOut), (ok Plan);
    cbn; repeat split; intros; try reflexivity; discriminate.
Qed.

(** X21: the integrated power spectrum program releases everything it
    acquired on every way out of [main], for every combination of failing
    allocations and files, and releases nothing twice; it returns 0 only
    when every acquisition succeeded. *)
Theorem integrated_main_releases_all ok valid :
  held_after (snd (integrated_main ok valid)) [] = Some [] /\
  (fst (integrated_main ok valid) = 0 <->
   valid = true /\ ok Config = true /\ ok FftIn = true /\ ok FftOut = true /\
   ok Plan = true /\ ok Buffer = true /\ ok Spectrum = true /\
   ok InFile = true /\ ok OutFile = true).
Proof.
  unfold integrated_main, init_fft, cleanup_fft, get, put.
  destruct valid, (ok Config), (ok FftIn), (ok FftOut), (ok Plan),
           (ok Buffer), (ok Spectrum), (ok InFile), (ok OutFile); cbn;
    (split; [reflexivity | split; [intros; try discriminate; tauto
                                  | intros; try reflexivity;
                                    intuition discriminate]]).
Qed.

(** X22: [init_fftw] frees only the structure when one of its three
    arrays cannot be allocated: the arrays that were obtained stay
    allocated.  When the three arrays are there and the plan cannot be
    made, everything is freed. *)
Theorem init_fftw_keeps_arrays ok :
  ok Config = true ->
  (ok FftIn && ok FftOut && ok Window = false ->
   fst (init_fftw ok) = false /\
   held_after (snd (init_fftw ok)) [] = Some (arrays_got ok)) /\
  (ok FftIn && ok FftOut && ok Window = true -> ok Plan = false ->
   fst (init_fftw ok) = false /\
   held_after (snd (init_fftw ok)) [] = Some []).
Proof.
  intros Hc. unfold init_fftw, arrays_got, get. rewrite Hc.
  destruct (ok FftIn), (ok FftOut), (ok Window), (ok Plan);
    cbn; repeat split; intros; try reflexivity; discriminate.
Qed.

(** X23: the spectrogram program releases everything it acquired on every
    way out of [main] on which the three arrays of [init_fftw] were
    obtained or never asked for, and releases nothing twice; what stays
    allocated otherwise is exactly what [init_fftw] left.  The way out
    that would leave the input file open, the test on the length of the
    output name, is never taken, whatever the path. *)
Theorem spectrogram_main_releases ok valid path :
  held_after
    (snd (spectrogram_main ok valid
            (name_fits (Cli.spectrogram_outfile path)))) [] =
  Some (if valid && ok InFile && ok OutFile && ok Config
           && negb (ok FftIn && ok FftOut && ok Window)
        then arrays_got ok else []).
Proof.
  destruct (output_names_fit_aux path) as (_ & E & _). rewrite E.
  unfold spectrogram_main, init_fftw, free_fftw, arrays_got, get.
  destruct valid, (ok Config), (ok FftIn), (ok FftOut), (ok Window),
           (ok Plan), (ok Buffer), (ok InFile), (ok OutFile); reflexivity.
Qed.
End Release.

(** ** Instances *)

Lemma amplitude_of_stream_witness :
  exists r,
    Amplitude.main (good_world five_samples) 2 = Some r /\
    Z.of_nat (length (f32_file r)) = 2 * num_blocks r /\
    forall k i, 0 <= k < num_blocks r -> 0 <= i < 2 ->
      nth (Z.to_nat (k * 2 + i)) (f32_file r) (Float32 F32.zero) =
      Float32 (F32.sqrt
                 (F32.add (F32.mul (in_phase_at five_samples 2 k i)
                                   (in_phase_at five_samples 2 k i))
                          (F32.mul (quadrature_at five_samples 2 k i)
                                   (quadrature_at five_samples 2 k i)))).
Proof.
  apply (amplitude_of_stream (good_world five_samples) 2 five_samples).
  - repeat split.
  - unfold INT_MAX. lia.
Defined.

Lemma power_of_stream_witness :
  exists r,
    Power.main (good_world five_samples) Power.OUTPUT_RAW 2 = Some r /\
    Z.of_nat (length (f32_file r)) = 2 * num_blocks r /\
    forall k i, 0 <= k < num_blocks r -> 0 <= i < 2 ->
      nth (Z.to_nat (k * 2 + i)) (f32_file r) (Float32 F32.zero) =
      Float32 (F32.add (F32.mul (in_phase_at five_samples 2 k i)
                                (in_phase_at five_samples 2 k i))
                       (F32.mul (quadrature_at five_samples 2 k i)
                                (quadrature_at five_samples 2 k i))).
Proof.
  apply (power_of_stream (good_world five_samples) Power.OUTPUT_RAW 2
                         five_samples).
  - repeat split.
  - unfold INT_MAX. lia.
  - reflexivity.
Defined.

Lemma power_both_is_raw_and_sum_witness :
  exists rb rr rs,
    Power.main (good_world five_samples) Power.OUTPUT_BOTH 2 = Some rb /\
    Power.main (good_world five_samples) Power.OUTPUT_RAW 2 = Some rr /\
    Power.main (good_world five_samples) Power.OUTPUT_SUM 2 = Some rs /\
    f32_file rb = f32_file rr /\ dat_file rb = dat_file rs /\
    dat_file rr = [] /\ f32_file rs = [] /\
    num_blocks rb = num_blocks rr /\ num_blocks rb = num_blocks rs.
Proof.
  apply (power_both_is_raw_and_sum (good_world five_samples) 2 five_samples).
  - repeat split.
  - unfold INT_MAX. lia.
Defined.

Lemma zero_samples_give_zero_witness :
  exists ra rp,
    Amplitude.main (good_world [F32.zero; S754_zero true; F32.zero; F32.zero])
                   2 = Some ra /\
    Power.main (good_world [F32.zero; S754_zero true; F32.zero; F32.zero])
               Power.OUTPUT_BOTH 2 = Some rp /\
    (forall it, In it (f32_file ra) -> it = Float32 F32.zero) /\
    (forall it, In it (f32_file rp) -> it = Float32 F32.zero) /\
    (forall it, In it (dat_file rp) -> exists k, it = Line k F32.zero).
Proof.
  apply (zero_samples_give_zero
           (good_world [F32.zero; S754_zero true; F32.zero; F32.zero])
           Power.OUTPUT_BOTH 2
           [F32.zero; S754_zero true; F32.zero; F32.zero]).
  - repeat split.
  - unfold INT_MAX. lia.
  - intros x Hx. cbn in Hx. unfold is_zero, F32.zero.
    destruct Hx as [<-|[<-|[<-|[<-|[]]]]]; auto.
Defined.

Lemma amplitude_sum_lines_witness :
  result (AmplitudeSum.main (good_world five_samples) 2) = Exit 0 /\
  num_blocks (AmplitudeSum.main (good_world five_samples) 2)
  = Z.of_nat (length five_samples) / (2 * 2) /\
  Z.of_nat (length (dat_file (AmplitudeSum.main (good_world five_samples) 2)))
  = Z.of_nat (length five_samples) / (2 * 2) /\
  forall k, 0 <= k < Z.of_nat (length five_samples) / (2 * 2) ->
    nth (Z.to_nat k) (dat_file (AmplitudeSum.main (good_world five_samples) 2))
        (Line 0 F64.zero)
    = Line k (mean_root five_samples 2 k).
Proof.
  apply (amplitude_sum_lines (good_world five_samples) 2 five_samples).
  - repeat split.
  - lia.
  - cbn. unfold INT_MAX. lia.
Defined.

Lemma rawreader_same_as_amplitude_sum_witness :
  result (Rawreader.main (good_world five_samples) 2) = Exit 0 /\
  result (AmplitudeSum.main (good_world five_samples) 2) = Exit 0 /\
  dat_file (Rawreader.main (good_world five_samples) 2)
  = dat_file (AmplitudeSum.main (good_world five_samples) 2) /\
  num_blocks (Rawreader.main (good_world five_samples) 2)
  = num_blocks (AmplitudeSum.main (good_world five_samples) 2) /\
  Z.of_nat (length (dat_file (Rawreader.main (good_world five_samples) 2)))
  = Z.of_nat (length five_samples) / (2 * 2) /\
  forall k, 0 <= k < Z.of_nat (length five_samples) / (2 * 2) ->
    nth (Z.to_nat k) (dat_file (Rawreader.main (good_world five_samples) 2))
        (Line 0 F64.zero)
    = Line k (mean_root five_samples 2 k).
Proof.
  apply (rawreader_same_as_amplitude_sum (good_world five_samples) 2
                                         five_samples).
  - repeat split.
  - lia.
  - cbn. unfold INT_MAX. lia.
Defined.

Lemma power_spectrum_per_block_witness :
  result (PowerSpectrum.main echo_externals (good_world five_samples) 2)
  = Exit 0 /\
  num_blocks (PowerSpectrum.main echo_externals (good_world five_samples) 2)
  = Z.of_nat (length five_samples) / (2 * 2) /\
  Z.of_nat (length (f32_file (PowerSpectrum.main echo_externals
                                (good_world five_samples) 2)))
  = 2 * (Z.of_nat (length five_samples) / (2 * 2)) /\
  forall k i, 0 <= k < Z.of_nat (length five_samples) / (2 * 2) ->
              0 <= i < 2 ->
    nth (Z.to_nat (k * 2 + i))
        (f32_file (PowerSpectrum.main echo_externals
                     (good_world five_samples) 2))
        (Float32 F32.zero)
    = Float32 (line_power (spectral_line echo_externals five_samples 2 k i)).
Proof.
  apply (power_spectrum_per_block echo_externals (good_world five_samples) 2
                                  five_samples).
  - repeat split.
  - lia.
  - cbn. unfold INT_MAX. lia.
Defined.

Lemma tail_is_dropped_witness :
  exists r r',
    run_mode toy_externals (good_world (firstn 8 five_samples))
             MAmplitudeSum 2 = Some r /\
    run_mode toy_externals (good_world (firstn 8 five_samples ++ [fl 7]))
             MAmplitudeSum 2 = Some r' /\
    result r' = result r /\ num_blocks r' = num_blocks r /\
    f32_file r' = f32_file r /\ dat_file r' = dat_file r.
Proof.
  apply (tail_is_dropped toy_externals
           (good_world (firstn 8 five_samples))
           (good_world (firstn 8 five_samples ++ [fl 7]))
           MAmplitudeSum 2 (firstn 8 five_samples) [fl 7] 2).
  - repeat split.
  - repeat split.
  - unfold INT_MAX. lia.
  - cbn. unfold INT_MAX. lia.
  - reflexivity.
  - cbn. lia.
Defined.

Lemma missing_input_file_witness :
  exists r,
    run_mode toy_externals
             {| input := None; output_ok := true;
                malloc_ok := fun _ => true; plan_ok := true |}
             MSpectrogram 1024 = Some r /\
    result r = Exit 1 /\
    num_blocks r = 0 /\ f32_file r = [] /\ dat_file r = [] /\
    left_by r = None.
Proof.
  apply (missing_input_file toy_externals
           {| input := None; output_ok := true;
              malloc_ok := fun _ => true; plan_ok := true |}
           MSpectrogram 1024).
  reflexivity.
Defined.

Lemma zero_block_size_divides_by_zero_witness :
  AmplitudeSum.main (good_world five_samples) 0
  = stop Crash [] [InOpen; InSize] /\
  PowerSpectrum.main toy_externals (good_world five_samples) 0
  = stop Crash [] [InOpen; InSize] /\
  Rawreader.main (good_world five_samples) 0
  = stop Crash [] [InOpen; InSize].
Proof.
  apply (zero_block_size_divides_by_zero toy_externals
                                         (good_world five_samples)
                                         five_samples).
  repeat split.
Defined.

Lemma negative_block_size_passes_check_witness :
  exists ra rs,
    Amplitude.main (good_world five_samples) (-1) = Some ra /\
    Spectrogram.main toy_externals (good_world five_samples) (-1) = Some rs /\
    hd InSize (in_ops ra) = InOpen /\ hd InSize (in_ops rs) = InOpen /\
    num_blocks ra = 0 /\ num_blocks rs = 0 /\
    f32_file ra = [] /\ f32_file rs = [IntHeader (-1)] /\
    (malloc_ok (good_world five_samples) (2 ^ 64 + 8 * -1) = false ->
     result ra = Exit 1) /\
    (malloc_ok (good_world five_samples) (2 ^ 64 + 4 * -1) = false ->
     result rs = Exit 1).
Proof.
  apply (negative_block_size_passes_check toy_externals
           (good_world five_samples) (-1) five_samples).
  - lia.
  - reflexivity.
  - reflexivity.
  - cbn. lia.
Defined.

Lemma parse_output_type_spec_witness :
  Cli.parse_output_type (Cli.text "Raw") = Power.OUTPUT_SUM.
Proof.
  apply (proj2 (proj2 (parse_output_type_spec (Cli.text "Raw"))));
    discriminate.
Defined.

Lemma sun_name_fields :
  plain_field (Cli.text "gqrx") /\ plain_field (Cli.text "20250404") /\
  plain_field (Cli.text "084805") /\ plain_field (Cli.text "1419390700") /\
  Forall (fun d => 0 <= d <= 9) [1; 8; 0; 0; 0; 0; 0] /\
  after_digits (Cli.text "_fc_sun.raw").
Proof.
  unfold plain_field, after_digits.
  repeat split; try discriminate; try reflexivity;
    try (cbn; intuition discriminate).
  repeat constructor; lia.
Qed.

Lemma block_size_from_name_witness :
  Cli.samples_from_fields (Cli.text "/data/" ++ sun_name) = Some 1800000 /\
  Cli.samples_from_underscores (Cli.text "/data/" ++ sun_name) = 1800000.
Proof.
  destruct sun_name_fields as (F1 & F2 & F3 & F4 & Hd & Ht).
  apply (block_size_from_name (Cli.text "/data/")
           (Cli.text "gqrx") (Cli.text "20250404") (Cli.text "084805")
           (Cli.text "1419390700") [1; 8; 0; 0; 0; 0; 0]
           (Cli.text "_fc_sun.raw") F1 F2 F3 F4).
  - discriminate.
  - exact Hd.
  - exact Ht.
  - cbn. lia.
  - right. exists (Cli.text "/data"). reflexivity.
  - unfold INT_MAX. cbn. lia.
Defined.

Lemma too_few_fields_witness :
  Cli.samples_from_fields (Cli.text "capture_1024.raw") = None /\
  Cli.samples_from_underscores (Cli.text "capture_1024.raw") = 0 /\
  Cli.amplitude (good_world five_samples) [Cli.text "capture_1024.raw"]
  = Some (stop (Exit 1) [] []) /\
  Cli.spectrogram toy_externals (good_world five_samples)
                  [Cli.text "capture_1024.raw"]
  = Some (stop (Exit 1) [] []) /\
  Cli.amplitude_sum (good_world five_samples) [Cli.text "capture_1024.raw"]
  = stop (Exit 1) [] [] /\
  Cli.power_spectrum toy_externals (good_world five_samples)
                     [Cli.text "capture_1024.raw"]
  = stop (Exit 1) [] [] /\
  Cli.integrated toy_externals (good_world five_samples)
                 [Cli.text "capture_1024.raw"]
  = Some (stop (Exit 1) [] []) /\
  Cli.power (good_world five_samples) [Cli.text "capture_1024.raw"]
  = Some (stop (Exit 1) [] [InOpen]).
Proof.
  apply (too_few_fields toy_externals (good_world five_samples)
                        (Cli.text "capture_1024.raw")).
  cbn. lia.
Defined.

Lemma output_type_option_witness :
  Cli.power_arguments
    ([Cli.text "in.raw"]
       ++ Cli.text "--output-type" :: Cli.text "both" :: [Cli.text "1024"])
  = (Cli.parse_output_type (Cli.text "both"),
     [Cli.text "in.raw"] ++ [Cli.text "1024"]).
Proof.
  apply (proj1 output_type_option [Cli.text "in.raw"] (Cli.text "both")
               [Cli.text "1024"]).
  cbn. intuition discriminate.
Defined.

Lemma block_size_argument_or_name_witness :
  Cli.integrated toy_externals (good_world five_samples)
                 [Cli.text "/data/" ++ sun_name; Cli.text "2"]
  = Integrated.main toy_externals (good_world five_samples) 1800000 /\
  Cli.power (good_world five_samples)
            [Cli.text "/data/" ++ sun_name; Cli.text "2"]
  = Power.main (good_world five_samples) Power.OUTPUT_SUM
               (CString.atoi (Cli.text "2")) /\
  Cli.amplitude (good_world five_samples)
                [Cli.text "/data/" ++ sun_name; Cli.text "2"]
  = Amplitude.main (good_world five_samples) (CString.atoi (Cli.text "2")) /\
  Cli.integrated toy_externals (good_world five_samples)
                 [Cli.text "/data/" ++ sun_name]
  = Integrated.main toy_externals (good_world five_samples) 1800000 /\
  Cli.power (good_world five_samples) [Cli.text "/data/" ++ sun_name]
  = Power.main (good_world five_samples) Power.OUTPUT_SUM 1800000 /\
  Cli.amplitude (good_world five_samples) [Cli.text "/data/" ++ sun_name]
  = Amplitude.main (good_world five_samples) 1800000.
Proof.
  destruct sun_name_fields as (F1 & F2 & F3 & F4 & Hd & Ht).
  apply (block_size_argument_or_name toy_externals (good_world five_samples)
           (Cli.text "/data/")
           (Cli.text "gqrx") (Cli.text "20250404") (Cli.text "084805")
           (Cli.text "1419390700") [1; 8; 0; 0; 0; 0; 0]
           (Cli.text "_fc_sun.raw") (Cli.text "2") F1 F2 F3 F4).
  - discriminate.
  - exact Hd.
  - exact Ht.
  - cbn. lia.
  - right. exists (Cli.text "/data"). reflexivity.
  - unfold INT_MAX. cbn. lia.
  - unfold INT_MAX. cbn. lia.
Defined.

Lemma output_names_fit_witness :
  Cli.power_outfile ".f32" (Cli.text "/data/" ++ sun_name)
  = Some (Cli.text "power_"
            ++ Cli.text "gqrx_20250404_084805_1419390700_1800000_fc_sun"
            ++ Cli.text ".f32").
Proof.
  apply (proj1 (proj2 (proj2 (proj2 (proj2
                 (output_names_fit (Cli.text "/data/" ++ sun_name))))))
               (Cli.text "gqrx_20250404_084805_1419390700_1800000_fc_sun")).
  reflexivity.
Defined.

Lemma output_names_of_raw_witness :
  Cli.amplitude_outfile (Cli.text "/data/" ++ Cli.text "sun" ++ Cli.text ".raw")
  = Some (Cli.text "waterfall_" ++ Cli.text "sun" ++ Cli.text ".f32").
Proof.
  apply (output_names_of_raw (Cli.text "/data/") (Cli.text "sun")).
  - cbn. intuition discriminate.
  - cbn. lia.
  - right. exists (Cli.text "/data"). reflexivity.
Defined.

Lemma init_fft_releases_on_failure_witness :
  Resources.held_after (snd (Resources.init_fft no_window)) []
  = Some [Resources.Plan; Resources.FftOut; Resources.FftIn;
          Resources.Config] /\
  Resources.held_after
    (snd (Resources.init_fft no_window) ++ Resources.cleanup_fft) []
  = Some [].
Proof.
  apply (proj2 (init_fft_releases_on_failure no_window)).
  reflexivity.
Defined.

Lemma init_fftw_keeps_arrays_witness :
  fst (Resources.init_fftw no_window) = false /\
  Resources.held_after (snd (Resources.init_fftw no_window)) []
  = Some (Resources.arrays_got no_window).
Proof.
  apply (proj1 (init_fftw_keeps_arrays no_window eq_refl)).
  reflexivity.
Defined.

Lemma integrated_main_releases_all_witness :
  Resources.held_after
    (snd (Resources.integrated_main (fun _ => true) true)) [] = Some [] /\
  fst (Resources.integrated_main (fun _ => true) true) = 0.
Proof.
  destruct (integrated_main_releases_all (fun _ => true) true) as [H1 H2].
  split; [exact H1 | apply H2; repeat split].
Defined.
